(** * Water-level detector: the processing core of
      [examples/processing/water_level.py]

    A shallow embedding of [Processor] (peak finding, peak merging, peak
    sorting, sweep averaging and history upkeep) together with the properties
    the specification states about it.

    Conventions of the embedding.
    - Python [int]s are [Z]; list and array indices are [Z] as well and are
      looked up with Python's rule for negative indices.
    - Amplitudes, distances and the float-valued settings are exact rationals
      [Q].  Every comparison the code makes is an order comparison, which a
      rational models exactly; rounding of float arithmetic and infinities are
      outside the model.  A NaN entry of a threshold curve is [None].
    - A Python exception is a [Raise]; the state a call leaves behind when it
      raises is not kept.  The [while] loops of [find_peaks] and
      [merge_peaks] run on fuel that is shown to be enough on every input. *)

From Stdlib Require Import ZArith QArith Qround List Bool Lia Lqa Permutation Sorted.
From Stdlib Require String Ascii.
Import ListNotations.
Local Open Scope Z_scope.

Set Implicit Arguments.

(** ** Exceptions and results *)

Inductive exn : Type :=
| IndexError          (* subscript out of range *)
| ValueError          (* numpy: argmax of an empty sequence, shapes that do not broadcast *)
| UnboundLocalError   (* a local read before it was assigned *)
| AttributeError      (* a method the class does not define *)
| UnknownPeakSorting. (* Exception("Unknown peak sorting method") *)

Inductive result (A : Type) : Type :=
| Ok (a : A)
| Raise (e : exn)
| OutOfFuel.

Arguments Ok {A} a.
Arguments Raise {A} e.
Arguments OutOfFuel {A}.

Definition bind {A B : Type} (m : result A) (k : A -> result B) : result B :=
  match m with
  | Ok a => k a
  | Raise e => Raise e
  | OutOfFuel => OutOfFuel
  end.

Notation "x <- m ;; k" := (bind m (fun x => k))
  (at level 61, m at next level, right associativity).
Notation "' pat <- m ;; k" := (bind m (fun x => match x with pat => k end))
  (at level 61, pat pattern, m at next level, right associativity).

(** ** Numbers *)

Definition Qlt_bool (a b : Q) : bool := negb (Qle_bool b a).

(** [round(x)] of Python 3 and [np.round]: to the nearest integer, a tie going
    to the even one. *)
Definition py_round (q : Q) : Z :=
  let f := Qfloor q in
  let frac := (q - inject_Z f)%Q in
  if Qlt_bool frac (1 # 2) then f
  else if Qlt_bool (1 # 2) frac then f + 1
  else if Z.even f then f else f + 1.

(** ** Lists and arrays *)

(** [a[i]] for a list or a one-dimensional array. *)
Definition getitem {A : Type} (a : list A) (i : Z) : result A :=
  let n := Z.of_nat (length a) in
  let j := if i <? 0 then i + n else i in
  if (0 <=? j) && (j <? n) then
    match nth_error a (Z.to_nat j) with
    | Some x => Ok x
    | None => Raise IndexError
    end
  else Raise IndexError.

(** An elementwise operation on two one-dimensional arrays under numpy's
    broadcasting: equal lengths pair up, a length-one array is stretched,
    anything else does not broadcast. *)
Fixpoint zip_with {A B C : Type} (f : A -> B -> C) (a : list A) (b : list B) : list C :=
  match a, b with
  | x :: a', y :: b' => f x y :: zip_with f a' b'
  | _, _ => []
  end.

Definition broadcast2 {A B C : Type} (f : A -> B -> C) (a : list A) (b : list B)
  : result (list C) :=
  if Nat.eqb (length a) (length b) then Ok (zip_with f a b)
  else match a, b with
       | [x], _ => Ok (map (f x) b)
       | _, [y] => Ok (map (fun x => f x y) a)
       | _, _ => Raise ValueError
       end.

(** [np.argmax]: the index of the first maximum. *)
Fixpoint argmax_from {A : Type} (ltb : A -> A -> bool) (best : A) (ibest i : Z)
  (l : list A) : Z :=
  match l with
  | [] => ibest
  | x :: l' =>
      if ltb best x then argmax_from ltb x i (i + 1) l'
      else argmax_from ltb best ibest (i + 1) l'
  end.

Definition np_argmax {A : Type} (ltb : A -> A -> bool) (l : list A) : result Z :=
  match l with
  | [] => Raise ValueError
  | x :: l' => Ok (argmax_from ltb x 0 1 l')
  end.

Definition bool_ltb (a b : bool) : bool := negb a && b.

(** ** Threshold curves *)

(** One bin of a threshold curve; [None] is NaN. *)
Definition level : Type := option Q.

Definition isnan (t : level) : bool :=
  match t with
  | None => true
  | Some _ => false
  end.

(** [x <= t] and [x > t] with a float [t]: both are false on NaN. *)
Definition le_level (x : Q) (t : level) : bool :=
  match t with
  | Some t => Qle_bool x t
  | None => false
  end.

Definition gt_level (x : Q) (t : level) : bool :=
  match t with
  | Some t => Qlt_bool t x
  | None => false
  end.

(** [level * np.ones(n)] *)
Definition fixed_curve (lvl : Q) (n : nat) : list level := repeat (Some lvl) n.

(** ** [ProcessingConfiguration] *)

Module ProcessingConfiguration.

Inductive ThresholdType : Type := FIXED | RECORDED | CFAR.

Inductive PeakSorting : Type :=
| STRONGEST | CLOSEST | STRONGEST_REFLECTOR | STRONGEST_FLAT_REFLECTOR.

(** The settings [Processor] reads.  An enum-valued attribute holds a member
    of its enum, or some other object ([None] here). *)
Record t : Type := {
  nbr_average : Q;
  threshold_type : option ThresholdType;
  fixed_threshold : Q;
  peak_sorting_type : option PeakSorting;
  history_length_s : Q
}.

End ProcessingConfiguration.

Import ProcessingConfiguration.

Definition PEAK_MERGE_LIMIT_M : Q := 5 # 1000.

Module Processor.

(** ** [find_first_point_above_threshold] *)

Definition find_first_point_above_threshold (sweep : list Q)
  (threshold : option (list level)) : result (option Z) :=
  match threshold with
  | None => Ok None
  | Some thr =>
      if forallb isnan thr then Ok None
      else
        points_above <- broadcast2 gt_level sweep thr ;;
        if negb (existsb (fun b => b) points_above) then Ok None
        else
          i <- np_argmax bool_ltb points_above ;;
          Ok (Some i)
  end.

(** ** [find_peaks] *)

(** The inner [while True] loop: walks [d_upper] over a plateau that starts at
    [d]; gives the [d_upper] it stops at and the peak it appended, if any. *)
Fixpoint walk_plateau (fuel : nat) (sweep : list Q) (thr : list level)
  (N d d_upper : Z) : result (Z * list Z) :=
  match fuel with
  | O => OutOfFuel
  | S fuel' =>
      if d_upper >=? N - 1 then Ok (d_upper, [])
      else
        t_u <- getitem thr d_upper ;;
        if isnan t_u then Ok (d_upper, [])
        else
          s_u <- getitem sweep d_upper ;;
          if le_level s_u t_u then Ok (d_upper, [])
          else
            s_d <- getitem sweep d ;;
            if Qlt_bool s_d s_u then Ok (d_upper, [])
            else if Qlt_bool s_u s_d then
              let delta := d_upper - d in
              Ok (d_upper, [d + Qceiling (inject_Z (delta - 1) / 2)])
            else walk_plateau fuel' sweep thr N d (d_upper + 1)
  end.

(** The outer [while d < (N - 1)] loop. *)
Fixpoint find_peaks_loop (fuel : nat) (sweep : list Q) (thr : list level)
  (N d : Z) (found_peaks : list Z) : result (list Z) :=
  match fuel with
  | O => OutOfFuel
  | S fuel' =>
      if d <? N - 1 then
        t_prev <- getitem thr (d - 1) ;;
        if isnan t_prev then find_peaks_loop fuel' sweep thr N (d + 1) found_peaks
        else
          t_next <- getitem thr (d + 1) ;;
          if isnan t_next then Ok found_peaks
          else
            s_d <- getitem sweep d ;;
            t_d <- getitem thr d ;;
            if le_level s_d t_d then
              find_peaks_loop fuel' sweep thr N (d + 2) found_peaks
            else
              s_prev <- getitem sweep (d - 1) ;;
              if le_level s_prev t_prev then
                find_peaks_loop fuel' sweep thr N (d + 1) found_peaks
              else if Qle_bool s_d s_prev then
                find_peaks_loop fuel' sweep thr N (d + 1) found_peaks
              else
                '(d_upper, pk) <- walk_plateau (S (length sweep)) sweep thr N d (d + 1) ;;
                find_peaks_loop fuel' sweep thr N d_upper (found_peaks ++ pk)
      else Ok found_peaks
  end.

Definition find_peaks (sweep : list Q) (threshold : option (list level))
  : result (list Z) :=
  match threshold with
  | None => Ok []
  | Some thr =>
      if forallb isnan thr then Ok []
      else
        find_peaks_loop (S (length sweep)) sweep thr (Z.of_nat (length sweep)) 1 []
  end.

(** ** [merge_peaks] *)

(** [np.abs(x - p) < merge_max_range]: [x] is within the radius of [p]. *)
Definition within (merge_max_range : Q) (p x : Z) : bool :=
  Qlt_bool (inject_Z (Z.abs (x - p))) merge_max_range.

(** [np.sum] of a boolean array. *)
Definition np_sum_bool (mask : list bool) : Z :=
  fold_right (fun (b : bool) acc => if b then 1 + acc else acc) 0 mask.

Definition num_neighbors (merged_peaks : list Z) (merge_max_range : Q) : list Z :=
  map (fun p => np_sum_bool (map (within merge_max_range p) merged_peaks)) merged_peaks.

(** [a[mask]] for a boolean mask. *)
Fixpoint mask_select {A : Type} (a : list A) (mask : list bool) : list A :=
  match a, mask with
  | x :: a', b :: mask' => if b then x :: mask_select a' mask' else mask_select a' mask'
  | _, _ => []
  end.

(** [list.remove(x)]: drops the first occurrence. *)
Fixpoint list_remove (x : Z) (l : list Z) : result (list Z) :=
  match l with
  | [] => Raise ValueError
  | y :: l' =>
      if x =? y then Ok l'
      else l'' <- list_remove x l' ;; Ok (y :: l'')
  end.

(** [for p in peaks_to_remove: merged_peaks.remove(p)] *)
Fixpoint remove_each (peaks_to_remove merged_peaks : list Z) : result (list Z) :=
  match peaks_to_remove with
  | [] => Ok merged_peaks
  | p :: rest =>
      merged_peaks' <- list_remove p merged_peaks ;;
      remove_each rest merged_peaks'
  end.

Definition sumZ (l : list Z) : Z := fold_right Z.add 0 l.

Definition np_mean (l : list Z) : Q :=
  (inject_Z (sumZ l) / inject_Z (Z.of_nat (length l)))%Q.

(** [int(round(np.mean(a)))]; the mean of an empty array is NaN, which
    [round] refuses. *)
Definition rounded_mean (a : list Z) : result Z :=
  match a with
  | [] => Raise ValueError
  | _ => Ok (py_round (np_mean a))
  end.

(** [list.sort()] on integers. *)
Fixpoint insert_sorted (x : Z) (l : list Z) : list Z :=
  match l with
  | [] => [x]
  | y :: l' => if x <=? y then x :: l else y :: insert_sorted x l'
  end.

Definition list_sort (l : list Z) : list Z := fold_right insert_sorted [] l.

(** One pass of the body of [while True]: [None] when the loop breaks, the
    next [merged_peaks] otherwise. *)
Definition merge_round (merged_peaks : list Z) (merge_max_range : Q)
  : result (option (list Z)) :=
  let nn := num_neighbors merged_peaks merge_max_range in
  i_peak <- np_argmax Z.ltb nn ;;
  n_peak <- getitem nn i_peak ;;
  if n_peak <=? 1 then Ok None
  else
    peak <- getitem merged_peaks i_peak ;;
    let remove_mask := map (within merge_max_range peak) merged_peaks in
    let peaks_to_remove := mask_select merged_peaks remove_mask in
    kept <- remove_each peaks_to_remove merged_peaks ;;
    m <- rounded_mean peaks_to_remove ;;
    Ok (Some (list_sort (kept ++ [m]))).

Fixpoint merge_loop (fuel : nat) (merged_peaks : list Z) (merge_max_range : Q)
  : result (list Z) :=
  match fuel with
  | O => OutOfFuel
  | S fuel' =>
      next <- merge_round merged_peaks merge_max_range ;;
      match next with
      | None => Ok merged_peaks
      | Some merged_peaks' => merge_loop fuel' merged_peaks' merge_max_range
      end
  end.

Definition merge_peaks (peak_indexes : list Z) (merge_max_range : Q) : result (list Z) :=
  merge_loop (S (length peak_indexes)) peak_indexes merge_max_range.

(** ** [sort_peaks] *)

Fixpoint mapM {A B : Type} (f : A -> result B) (l : list A) : result (list B) :=
  match l with
  | [] => Ok []
  | x :: l' => y <- f x ;; ys <- mapM f l' ;; Ok (y :: ys)
  end.

Section WithArgsort.

(** [ndarray.argsort()] with numpy's default [kind]; the library promises the
    indices that sort the array and no more (see [argsort_spec]);
    [NpySort.argsort] is the sort it runs. *)
Variable argsort : list Q -> list Z.

Definition sort_peaks (peak_sorting_method : option PeakSorting) (r_axis : list Q)
  (peak_indexes : list Z) (sweep : list Q) : result (list Z) :=
  amp <- mapM (getitem sweep) peak_indexes ;;
  r <- mapM (getitem r_axis) peak_indexes ;;
  quantity_to_sort <-
    match peak_sorting_method with
    | Some CLOSEST => Ok r
    | Some STRONGEST => Ok (map Qopp amp)
    | Some STRONGEST_REFLECTOR => Ok (zip_with (fun a x => (- a * (x * x))%Q) amp r)
    | Some STRONGEST_FLAT_REFLECTOR => Ok (zip_with (fun a x => (- a * x)%Q) amp r)
    | None => Raise UnknownPeakSorting
    end ;;
  mapM (getitem peak_indexes) (argsort quantity_to_sort).

(** ** The processor's state *)

Record state : Type := {
  f : Q;                                  (* sensor_config.update_rate *)
  current_mean_sweep : list Q;
  last_mean_sweep : list level;           (* NaN-filled until the first mean *)
  sweeps_since_mean : Z;
  history_length_s : Q;
  main_peak_hist_sweep_idx : list Z;
  main_peak_hist_dist : list Q;
  minor_peaks_hist_sweep_idx : list Z;
  minor_peaks_hist_dist : list Q;
  above_thres_hist_sweep_idx : list Z;
  above_thres_hist_dist : list Q;
  r : list Q;                             (* et.utils.get_range_depths(...) *)
  dr : Q;
  sweep_index : Z;
  nbr_average : Q;
  threshold_type : option ThresholdType;
  peak_sorting_method : option PeakSorting;
  fixed_threshold_level : Q
}.

Definition update_processing_config (self : state) (processing_config : ProcessingConfiguration.t)
  : state :=
  {| f := f self;
     current_mean_sweep := current_mean_sweep self;
     last_mean_sweep := last_mean_sweep self;
     sweeps_since_mean := sweeps_since_mean self;
     history_length_s := ProcessingConfiguration.history_length_s processing_config;
     main_peak_hist_sweep_idx := main_peak_hist_sweep_idx self;
     main_peak_hist_dist := main_peak_hist_dist self;
     minor_peaks_hist_sweep_idx := minor_peaks_hist_sweep_idx self;
     minor_peaks_hist_dist := minor_peaks_hist_dist self;
     above_thres_hist_sweep_idx := above_thres_hist_sweep_idx self;
     above_thres_hist_dist := above_thres_hist_dist self;
     r := r self;
     dr := dr self;
     sweep_index := sweep_index self;
     nbr_average := ProcessingConfiguration.nbr_average processing_config;
     threshold_type := ProcessingConfiguration.threshold_type processing_config;
     peak_sorting_method := ProcessingConfiguration.peak_sorting_type processing_config;
     fixed_threshold_level := ProcessingConfiguration.fixed_threshold processing_config |}.

(** [__init__]; [update_rate] is [sensor_config.update_rate], [data_length]
    is [session_info["data_length"]] and [range_depths] is what
    [et.utils.get_range_depths] returned. *)
Definition init (update_rate : Q) (processing_config : ProcessingConfiguration.t)
  (data_length : nat) (range_depths : list Q) : result state :=
  r1 <- getitem range_depths 1 ;;
  r0 <- getitem range_depths 0 ;;
  Ok (update_processing_config
        {| f := update_rate;
           current_mean_sweep := repeat 0%Q data_length;
           last_mean_sweep := repeat None data_length;
           sweeps_since_mean := 0;
           history_length_s := ProcessingConfiguration.history_length_s processing_config;
           main_peak_hist_sweep_idx := [];
           main_peak_hist_dist := [];
           minor_peaks_hist_sweep_idx := [];
           minor_peaks_hist_dist := [];
           above_thres_hist_sweep_idx := [];
           above_thres_hist_dist := [];
           r := range_depths;
           dr := (r1 - r0)%Q;
           sweep_index := 0;
           nbr_average := ProcessingConfiguration.nbr_average processing_config;
           threshold_type := ProcessingConfiguration.threshold_type processing_config;
           peak_sorting_method := ProcessingConfiguration.peak_sorting_type processing_config;
           fixed_threshold_level := ProcessingConfiguration.fixed_threshold processing_config |}
        processing_config).

(** ** [process] *)

(** The dictionary [process] returns. *)
Record out_data : Type := {
  out_sweep : list Q;
  out_last_mean_sweep : list level;
  out_threshold : list level;
  out_main_peak_hist_sweep_s : list Q;
  out_main_peak_hist_dist : list Q;
  out_minor_peaks_hist_sweep_s : list Q;
  out_minor_peaks_hist_dist : list Q;
  out_above_thres_hist_sweep_s : list Q;
  out_above_thres_hist_dist : list Q;
  out_sweep_index : Z;
  out_found_peaks : option (list Z)       (* [None] when no mean was completed *)
}.

(** One of the three [while len(idx) > 0 and sweep_index - idx[0] > horizon]
    loops, popping the head of both lists of a history. *)
Fixpoint evict (sweep_index : Z) (horizon : Q) (hist_sweep_idx : list Z)
  (hist_dist : list Q) : result (list Z * list Q) :=
  match hist_sweep_idx with
  | [] => Ok ([], hist_dist)
  | i :: idx' =>
      if Qlt_bool horizon (inject_Z (sweep_index - i)) then
        match hist_dist with
        | [] => Raise IndexError
        | _ :: dist' => evict sweep_index horizon idx' dist'
        end
      else Ok (hist_sweep_idx, hist_dist)
  end.

(** [(np.array(idx) - sweep_index) / f] *)
Definition hist_sweep_s (idx : list Z) (sweep_index : Z) (rate : Q) : list Q :=
  map (fun i => (inject_Z (i - sweep_index) / rate)%Q) idx.

(** The three histories, each a list of sweep indices and a list of distances. *)
Record histories : Type := {
  h_main_idx : list Z;  h_main_dist : list Q;
  h_minor_idx : list Z; h_minor_dist : list Q;
  h_above_idx : list Z; h_above_dist : list Q
}.

Definition histories_of (self : state) : histories :=
  {| h_main_idx := main_peak_hist_sweep_idx self; h_main_dist := main_peak_hist_dist self;
     h_minor_idx := minor_peaks_hist_sweep_idx self; h_minor_dist := minor_peaks_hist_dist self;
     h_above_idx := above_thres_hist_sweep_idx self; h_above_dist := above_thres_hist_dist self |}.

(** The body of [if self.sweeps_since_mean >= self.nbr_average] after the
    mean sweep was taken over: detection, the appends and the evictions. *)
Definition detect_and_record (self : state) (mean_sweep : list Q) (threshold : list level)
  : result (list Z * histories) :=
  first_point_above_threshold <- find_first_point_above_threshold mean_sweep (Some threshold) ;;
  found_peaks <- find_peaks mean_sweep (Some threshold) ;;
  found_peaks <-
    (if (1 <? Z.of_nat (length found_peaks)) then
       merged <- merge_peaks found_peaks
                   (inject_Z (py_round (PEAK_MERGE_LIMIT_M / dr self))) ;;
       sort_peaks (peak_sorting_method self) (r self) merged mean_sweep
     else Ok found_peaks) ;;
  '(main_idx, main_dist) <-
    match found_peaks with
    | [] => Ok (main_peak_hist_sweep_idx self, main_peak_hist_dist self)
    | p :: _ =>
        x <- getitem (r self) p ;;
        Ok (main_peak_hist_sweep_idx self ++ [sweep_index self],
            main_peak_hist_dist self ++ [x])
    end ;;
  minor <- mapM (getitem (r self)) (tl found_peaks) ;;
  let minor_idx := minor_peaks_hist_sweep_idx self ++ map (fun _ => sweep_index self) minor in
  let minor_dist := minor_peaks_hist_dist self ++ minor in
  '(above_idx, above_dist) <-
    match first_point_above_threshold with
    | None => Ok (above_thres_hist_sweep_idx self, above_thres_hist_dist self)
    | Some i =>
        x <- getitem (r self) i ;;
        Ok (above_thres_hist_sweep_idx self ++ [sweep_index self],
            above_thres_hist_dist self ++ [x])
    end ;;
  let horizon := (history_length_s self * f self)%Q in
  '(main_idx, main_dist) <- evict (sweep_index self) horizon main_idx main_dist ;;
  '(minor_idx, minor_dist) <- evict (sweep_index self) horizon minor_idx minor_dist ;;
  '(above_idx, above_dist) <- evict (sweep_index self) horizon above_idx above_dist ;;
  Ok (found_peaks,
      {| h_main_idx := main_idx; h_main_dist := main_dist;
         h_minor_idx := minor_idx; h_minor_dist := minor_dist;
         h_above_idx := above_idx; h_above_dist := above_dist |}).

(** The threshold curve of a call, or the exception the missing one ends in:
    [calculate_cfar_threshold] is not defined, and after
    [print("Unknown thresholding method")] the local [threshold] is read
    while unbound. *)
Definition determine_threshold (self : state) (sweep : list Q) : result (list level) :=
  match threshold_type self with
  | Some FIXED => Ok (fixed_curve (fixed_threshold_level self) (length sweep))
  | Some CFAR => Raise AttributeError
  | _ => Raise UnboundLocalError
  end.

Definition process (self : state) (sweep : list Q) : result (state * out_data) :=
  let weight := (1 / (1 + inject_Z (sweeps_since_mean self)))%Q in
  mean <- broadcast2 (fun x m => (weight * x + (1 - weight) * m)%Q)
            sweep (current_mean_sweep self) ;;
  let since := sweeps_since_mean self + 1 in
  threshold <- determine_threshold self sweep ;;
  '(since, mean, last, found_peaks, hist) <-
    (if Qle_bool (nbr_average self) (inject_Z since) then
       '(found_peaks, hist) <- detect_and_record self mean threshold ;;
       Ok (0, map (fun x => (x * 0)%Q) mean, map Some mean, Some found_peaks, hist)
     else Ok (since, mean, last_mean_sweep self, None, histories_of self)) ;;
  Ok ({| f := f self;
         current_mean_sweep := mean;
         last_mean_sweep := last;
         sweeps_since_mean := since;
         history_length_s := history_length_s self;
         main_peak_hist_sweep_idx := h_main_idx hist;
         main_peak_hist_dist := h_main_dist hist;
         minor_peaks_hist_sweep_idx := h_minor_idx hist;
         minor_peaks_hist_dist := h_minor_dist hist;
         above_thres_hist_sweep_idx := h_above_idx hist;
         above_thres_hist_dist := h_above_dist hist;
         r := r self;
         dr := dr self;
         sweep_index := sweep_index self + 1;
         nbr_average := nbr_average self;
         threshold_type := threshold_type self;
         peak_sorting_method := peak_sorting_method self;
         fixed_threshold_level := fixed_threshold_level self |},
      {| out_sweep := sweep;
         out_last_mean_sweep := last;
         out_threshold := threshold;
         out_main_peak_hist_sweep_s := hist_sweep_s (h_main_idx hist) (sweep_index self) (f self);
         out_main_peak_hist_dist := h_main_dist hist;
         out_minor_peaks_hist_sweep_s := hist_sweep_s (h_minor_idx hist) (sweep_index self) (f self);
         out_minor_peaks_hist_dist := h_minor_dist hist;
         out_above_thres_hist_sweep_s := hist_sweep_s (h_above_idx hist) (sweep_index self) (f self);
         out_above_thres_hist_dist := h_above_dist hist;
         out_sweep_index := sweep_index self;
         out_found_peaks := found_peaks |}).

End WithArgsort.

End Processor.

Import Processor.

(** * Vocabulary of the statements *)

(** The amplitude of bin [i]. *)
Definition sample (sweep : list Q) (i : Z) : Q := nth (Z.to_nat i) sweep 0%Q.

(** The bins [lo], ..., [hi - 1]. *)
Definition Zrange (lo hi : Z) : list Z :=
  map (fun k => lo + Z.of_nat k) (seq 0 (Z.to_nat (hi - lo))).

(** A sweep that contains one pulse over the level [lvl].  The pulse has a
    flat top on the [w] bins [start], ..., [start + w - 1], with a strictly
    lower bin on each side of it.  Before the top the sweep never falls from
    a bin that is above [lvl]: it rises to the top, strictly or over a flat
    stretch.  After the top it never rises to a bin that is above [lvl].
    The bins at or below [lvl] are the baseline the pulse stands on and may
    hold anything; a sweep that rises strictly from its first bin to the top
    and falls strictly to its last bin is the case of no baseline. *)
Definition contains_single_pulse (sweep : list Q) (lvl : Q) (start w : Z) : bool :=
  (1 <=? start) && (1 <=? w) && (start + w <? Z.of_nat (length sweep))
  && forallb (fun i => Qle_bool (sample sweep i) lvl
                       || Qle_bool (sample sweep i) (sample sweep (i + 1)))
       (Zrange 0 (start - 1))
  && Qlt_bool (sample sweep (start - 1)) (sample sweep start)
  && forallb (fun i => Qeq_bool (sample sweep i) (sample sweep start))
       (Zrange start (start + w))
  && Qlt_bool (sample sweep (start + w)) (sample sweep start)
  && forallb (fun i => Qle_bool (sample sweep i) lvl
                       || Qle_bool (sample sweep i) (sample sweep (i - 1)))
       (Zrange (start + w + 1) (Z.of_nat (length sweep))).

(** The pulse alone: a strict rise from the first bin up to bin [start], the
    flat top, and a strict fall from it down to the last bin. *)
Definition strict_pulse (sweep : list Q) (start w : Z) : bool :=
  (1 <=? start) && (1 <=? w) && (start + w <? Z.of_nat (length sweep))
  && forallb (fun i => Qlt_bool (sample sweep i) (sample sweep (i + 1))) (Zrange 0 start)
  && forallb (fun i => Qeq_bool (sample sweep i) (sample sweep start))
       (Zrange start (start + w))
  && forallb (fun i => Qlt_bool (sample sweep (i + 1)) (sample sweep i))
       (Zrange (start + w - 1) (Z.of_nat (length sweep) - 1)).

(** Three consecutive bins strictly above the level [lvl]. *)
Definition three_above (sweep : list Q) (lvl : Q) : bool :=
  existsb (fun a => Qlt_bool lvl (sample sweep a) && Qlt_bool lvl (sample sweep (a + 1))
                    && Qlt_bool lvl (sample sweep (a + 2)))
    (Zrange 0 (Z.of_nat (length sweep) - 2)).

(** The bin before the plateau and the bin after it are strictly above
    [lvl], and the bin after it is not the last bin of the sweep. *)
Definition flanks_above (sweep : list Q) (lvl : Q) (start w : Z) : bool :=
  Qlt_bool lvl (sample sweep (start - 1)) && Qlt_bool lvl (sample sweep (start + w))
  && (start + w <? Z.of_nat (length sweep) - 1).

(** [ceil(x / 2)] *)
Definition ceil_half (x : Z) : Z := Qceiling (inject_Z x / 2).

(** ** Merging, in the words of the specification *)

(** How many of the peaks [l] lie within [radius] of [p], [p] itself
    included. *)
Definition neighbor_count (radius : Q) (l : list Z) (p : Z) : Z :=
  Z.of_nat (length (filter (within radius p) l)).

Definition max_neighbor_count (radius : Q) (l : list Z) : Z :=
  fold_right Z.max 0 (map (neighbor_count radius l) l).

(** The first peak that attains the maximum neighbor count. *)
Definition chosen_peak (radius : Q) (l : list Z) : option Z :=
  find (fun p => neighbor_count radius l p =? max_neighbor_count radius l) l.

(** One round: the peaks within the radius of the chosen peak are removed,
    their rounded mean is appended and the list is sorted again. *)
Definition spec_round (radius : Q) (l : list Z) : list Z :=
  match chosen_peak radius l with
  | None => l
  | Some p =>
      list_sort (filter (fun x => negb (within radius p x)) l
                 ++ [py_round (np_mean (filter (within radius p) l))])
  end.

(** Rounds are repeated until no peak has a neighbor besides itself. *)
Inductive merges_to (radius : Q) : list Z -> list Z -> Prop :=
| merges_done (l : list Z) :
    max_neighbor_count radius l <= 1 -> merges_to radius l l
| merges_step (l out : list Z) :
    1 < max_neighbor_count radius l ->
    merges_to radius (spec_round radius l) out ->
    merges_to radius l out.

(** What [np.argmax] returns: the first index of a maximum. *)
Definition first_max (vals : list Z) (k : Z) : Prop :=
  0 <= k < Z.of_nat (length vals)
  /\ (forall j, 0 <= j < Z.of_nat (length vals) ->
        nth (Z.to_nat j) vals 0 <= nth (Z.to_nat k) vals 0)
  /\ (forall j, 0 <= j < k -> nth (Z.to_nat j) vals 0 < nth (Z.to_nat k) vals 0).

(** ** Sorting *)

(** [np.arange(n)] *)
Definition arange (n : nat) : list Z := map Z.of_nat (seq 0 n).

(** What numpy promises of [argsort] with its default [kind]: the indices of
    the array, in an order in which the values do not decrease.  The order of
    equal values is not promised. *)
Definition argsort_spec (argsort : list Q -> list Z) : Prop :=
  forall ks,
    Permutation (argsort ks) (arange (length ks))
    /\ StronglySorted (fun i j => (sample ks i <= sample ks j)%Q) (argsort ks).

(** An argsort by insertion, which leaves equal values in index order. *)
Fixpoint insert_by (ks : list Q) (i : Z) (l : list Z) : list Z :=
  match l with
  | [] => [i]
  | j :: l' =>
      if Qle_bool (sample ks i) (sample ks j) then i :: l else j :: insert_by ks i l'
  end.

Definition sort_by (ks : list Q) (l : list Z) : list Z := fold_right (insert_by ks) [] l.

Definition stable_argsort (ks : list Q) : list Z := sort_by ks (arange (length ks)).

(** ** numpy's [argsort]

    [quantity_to_sort.argsort()] leaves [kind] unset.  For an array of
    doubles numpy then fills an index array with [0, ..., n - 1] and sorts it
    in place with [aquicksort_] of [npysort/quicksort.cpp], an introsort:
    quicksort with the median of three as pivot, insertion sort once a
    partition has at most 17 entries, and [aheapsort_] of
    [npysort/heapsort.cpp] for a partition taken from the stack after the
    depth limit is used up.  The index array [tosort] is a list here and a
    pointer into it a position; the loops run on fuel that bounds their
    passes (the C code has no bound check: the pivot and the median of three
    stop the scans).  Builds of numpy that hand [argsort] to a vectorised
    kernel are not modelled. *)
Module NpySort.

Definition SMALL_QUICKSORT : Z := 16.

(** [Tag::less] on doubles that are not NaN. *)
Definition less (a b : Q) : bool := Qlt_bool a b.

(** [*p] *)
Definition deref (tosort : list Z) (p : Z) : Z := nth (Z.to_nat p) tosort 0.

(** [v[*p]] *)
Definition key (v : list Q) (tosort : list Z) (p : Z) : Q := sample v (deref tosort p).

(** [*p = x] *)
Fixpoint store_at (tosort : list Z) (p : nat) (x : Z) : list Z :=
  match tosort, p with
  | [], _ => []
  | _ :: rest, O => x :: rest
  | y :: rest, S p' => y :: store_at rest p' x
  end.

Definition store (tosort : list Z) (p x : Z) : list Z :=
  if p <? 0 then tosort else store_at tosort (Z.to_nat p) x.

Definition INTP_SWAP (tosort : list Z) (p q : Z) : list Z :=
  store (store tosort p (deref tosort q)) q (deref tosort p).

(** [npy_get_msb]: [while (unum >>= 1) depth_limit++] *)
Definition npy_get_msb (unum : Z) : Z := Z.log2 unum.

(** *** [aheapsort_] *)

(** [a[k]] with [a = tosort - 1], for the index array that starts at
    position [base]. *)
Definition heap_pos (base k : Z) : Z := base + k - 1.

(** The sifting loop [for (i, j; j <= n;) { ... }] and the [a[i] = tmp]
    after it. *)
Fixpoint sift (fuel : nat) (v : list Q) (tosort : list Z) (base n tmp i j : Z) : list Z :=
  match fuel with
  | O => tosort
  | S fuel' =>
      if j <=? n then
        let j := if (j <? n) && less (key v tosort (heap_pos base j))
                                     (key v tosort (heap_pos base (j + 1)))
                 then j + 1 else j in
        if less (sample v tmp) (key v tosort (heap_pos base j)) then
          sift fuel' v (store tosort (heap_pos base i) (deref tosort (heap_pos base j)))
            base n tmp j (j + j)
        else store tosort (heap_pos base i) tmp
      else store tosort (heap_pos base i) tmp
  end.

(** [for (l = n >> 1; l > 0; --l)]: the heap is built. *)
Definition build_heap (v : list Q) (tosort : list Z) (base n : Z) : list Z :=
  fold_left (fun tosort l =>
               sift (S (length tosort)) v tosort base n (deref tosort (heap_pos base l))
                 l (Z.shiftl l 1))
    (rev (Zrange 1 (Z.shiftr n 1 + 1))) tosort.

(** [for (; n > 1;)]: the largest entry is moved behind the heap. *)
Definition drain_heap (v : list Q) (tosort : list Z) (base n : Z) : list Z :=
  fold_left (fun tosort n =>
               let tmp := deref tosort (heap_pos base n) in
               let tosort := store tosort (heap_pos base n) (deref tosort (heap_pos base 1)) in
               sift (S (length tosort)) v tosort base (n - 1) tmp 1 2)
    (rev (Zrange 2 (n + 1))) tosort.

Definition aheapsort (v : list Q) (tosort : list Z) (base n : Z) : list Z :=
  drain_heap v (build_heap v tosort base n) base n.

(** *** [aquicksort_] *)

(** [do { ++pi; } while (less(v[*pi], vp))] *)
Fixpoint scan_up (fuel : nat) (v : list Q) (tosort : list Z) (vp : Q) (pi : Z) : Z :=
  match fuel with
  | O => pi
  | S fuel' =>
      let pi := pi + 1 in
      if less (key v tosort pi) vp then scan_up fuel' v tosort vp pi else pi
  end.

(** [do { --pj; } while (less(vp, v[*pj]))] *)
Fixpoint scan_down (fuel : nat) (v : list Q) (tosort : list Z) (vp : Q) (pj : Z) : Z :=
  match fuel with
  | O => pj
  | S fuel' =>
      let pj := pj - 1 in
      if less vp (key v tosort pj) then scan_down fuel' v tosort vp pj else pj
  end.

(** The [for (;;)] loop of the partition; gives [pi] and the index array. *)
Fixpoint partition_loop (fuel : nat) (v : list Q) (tosort : list Z) (vp : Q) (pi pj : Z)
  : Z * list Z :=
  match fuel with
  | O => (pi, tosort)
  | S fuel' =>
      let pi := scan_up (length tosort) v tosort vp pi in
      let pj := scan_down (length tosort) v tosort vp pj in
      if pi >=? pj then (pi, tosort)
      else partition_loop fuel' v (INTP_SWAP tosort pi pj) vp pi pj
  end.

(** One pass of [while ((pr - pl) > SMALL_QUICKSORT)] up to the push: the
    median of [*pl], [*pm] and [*pr] becomes the pivot, the entries are
    partitioned around it; gives the position [pi] of the pivot. *)
Definition partition (v : list Q) (tosort : list Z) (pl pr : Z) : Z * list Z :=
  let pm := pl + Z.shiftr (pr - pl) 1 in
  let tosort := if less (key v tosort pm) (key v tosort pl)
                then INTP_SWAP tosort pm pl else tosort in
  let tosort := if less (key v tosort pr) (key v tosort pm)
                then INTP_SWAP tosort pr pm else tosort in
  let tosort := if less (key v tosort pm) (key v tosort pl)
                then INTP_SWAP tosort pm pl else tosort in
  let vp := key v tosort pm in
  let pi := pl in
  let pj := pr - 1 in
  let tosort := INTP_SWAP tosort pm pj in
  let '(pi, tosort) := partition_loop (length tosort) v tosort vp pi pj in
  let pk := pr - 1 in
  (pi, INTP_SWAP tosort pi pk).

(** [while (pj > pl && less(vp, v[*pk])) { *pj-- = *pk--; }], with
    [pk = pj - 1] throughout. *)
Fixpoint shift_up (fuel : nat) (v : list Q) (tosort : list Z) (pl : Z) (vp : Q) (pj : Z)
  : Z * list Z :=
  match fuel with
  | O => (pj, tosort)
  | S fuel' =>
      if (pl <? pj) && less vp (key v tosort (pj - 1)) then
        shift_up fuel' v (store tosort pj (deref tosort (pj - 1))) pl vp (pj - 1)
      else (pj, tosort)
  end.

(** [for (pi = pl + 1; pi <= pr; ++pi)]: the insertion sort of a small
    partition. *)
Definition insertion_sort (v : list Q) (tosort : list Z) (pl pr : Z) : list Z :=
  fold_left (fun tosort pi =>
               let vi := deref tosort pi in
               let vp := sample v vi in
               let '(pj, tosort) := shift_up (S (length tosort)) v tosort pl vp pi in
               store tosort pj vi)
    (Zrange (pl + 1) (pr + 1)) tosort.

(** [while (1)]: [stack] holds the partitions put off, each with the depth
    left for it; [top] tells the top of the loop, where the depth is looked
    at, from a further pass of the inner [while]. *)
Fixpoint aquicksort_loop (fuel : nat) (v : list Q) (tosort : list Z) (pl pr : Z)
  (stack : list (Z * Z * Z)) (cdepth : Z) (top : bool) : list Z :=
  match fuel with
  | O => tosort
  | S fuel' =>
      if top && (cdepth <? 0) then
        let tosort := aheapsort v tosort pl (pr - pl + 1) in
        match stack with
        | [] => tosort
        | (pl, pr, cdepth) :: stack => aquicksort_loop fuel' v tosort pl pr stack cdepth true
        end
      else if SMALL_QUICKSORT <? pr - pl then
        let '(pi, tosort) := partition v tosort pl pr in
        let cdepth := cdepth - 1 in
        if pi - pl <? pr - pi then
          aquicksort_loop fuel' v tosort pl (pi - 1) ((pi + 1, pr, cdepth) :: stack) cdepth false
        else
          aquicksort_loop fuel' v tosort (pi + 1) pr ((pl, pi - 1, cdepth) :: stack) cdepth false
      else
        let tosort := insertion_sort v tosort pl pr in
        match stack with
        | [] => tosort
        | (pl, pr, cdepth) :: stack => aquicksort_loop fuel' v tosort pl pr stack cdepth true
        end
  end.

Definition aquicksort (v : list Q) (tosort : list Z) : list Z :=
  let num := Z.of_nat (length tosort) in
  aquicksort_loop (2 * length tosort + 2) v tosort 0 (num - 1) [] (npy_get_msb num * 2) true.

(** [v.argsort()] *)
Definition argsort (v : list Q) : list Z := aquicksort v (arange (length v)).

End NpySort.

(** A sweep of [n] equal pulses [0, 900, 1000, 900] closed by a 0, the bins
    of their tops, and a distance axis of [n] bins, 4 mm apart from 4 mm on
    (the merge radius is then [round(1.25) = 1] bin). *)
Definition pulse_train (n : nat) : list Q :=
  concat (repeat [0; 900; 1000; 900]%Q n) ++ [0%Q].

Definition train_peaks (n : nat) : list Z := map (fun k => 4 * k + 2) (arange n).

Definition train_axis (n : nat) : list Q :=
  map (fun k => (inject_Z (Z.of_nat (S k)) * (4 # 1000))%Q) (seq 0 n).

(** The quantity a policy ranks by, and the order it ranks in. *)
Definition policy_key (method : PeakSorting) (sweep r_axis : list Q) (p : Z) : Q :=
  match method with
  | CLOSEST => sample r_axis p
  | STRONGEST => sample sweep p
  | STRONGEST_REFLECTOR => sample sweep p * (sample r_axis p * sample r_axis p)
  | STRONGEST_FLAT_REFLECTOR => sample sweep p * sample r_axis p
  end.

Definition in_policy_order (method : PeakSorting) (sweep r_axis : list Q) (p q : Z) : Prop :=
  match method with
  | CLOSEST => (policy_key method sweep r_axis p <= policy_key method sweep r_axis q)%Q
  | _ => (policy_key method sweep r_axis q <= policy_key method sweep r_axis p)%Q
  end.

(** The quantity [sort_peaks] hands to [argsort] for the peak [p]. *)
Definition quantity_of (method : PeakSorting) (sweep r_axis : list Q) (p : Z) : Q :=
  match method with
  | CLOSEST => sample r_axis p
  | STRONGEST => - sample sweep p
  | STRONGEST_REFLECTOR => - sample sweep p * (sample r_axis p * sample r_axis p)
  | STRONGEST_FLAT_REFLECTOR => - sample sweep p * sample r_axis p
  end.

(** The order a stable sort by the values [ks] leaves indices in: by value,
    equal values by index. *)
Definition stable_order (ks : list Q) (i j : Z) : Prop :=
  (sample ks i < sample ks j)%Q \/ ((sample ks i == sample ks j)%Q /\ i < j).

(** What numpy's insertion sort does with the entry [x]: it goes behind the
    entries placed so far that are not above it ([placed] lists them from
    the last to the first). *)
Fixpoint insert_back (v : list Q) (x : Z) (placed : list Z) : list Z :=
  match placed with
  | [] => [x]
  | y :: placed' =>
      if NpySort.less (sample v x) (sample v y) then y :: insert_back v x placed'
      else x :: placed
  end.

(** The peak [p] ranks strictly before the peak [q]; and the order of the
    positions [i] and [j] of [peak_indexes] under a ranking that leaves
    peaks of equal key as they came. *)
Definition strictly_before (method : PeakSorting) (sweep r_axis : list Q) (p q : Z) : Prop :=
  match method with
  | CLOSEST => (policy_key method sweep r_axis p < policy_key method sweep r_axis q)%Q
  | _ => (policy_key method sweep r_axis q < policy_key method sweep r_axis p)%Q
  end.

Definition stable_policy_order (method : PeakSorting) (sweep r_axis : list Q)
  (peak_indexes : list Z) (i j : Z) : Prop :=
  let p := nth (Z.to_nat i) peak_indexes 0 in
  let q := nth (Z.to_nat j) peak_indexes 0 in
  strictly_before method sweep r_axis p q
  \/ ((policy_key method sweep r_axis p == policy_key method sweep r_axis q)%Q /\ i < j).

(** Every index of [l] is a bin of an array of length [n]. *)
Definition bins_of (n : nat) (l : list Z) : Prop := Forall (fun p => 0 <= p < Z.of_nat n) l.

(** ** Histories and runs *)

(** A history as the sequence of its entries (sweep index, distance). *)
Definition entries (idx : list Z) (dist : list Q) : list (Z * Q) := combine idx dist.

(** Eviction in the words of the specification: entries are dropped from the
    head while [current - head.sweep_index > horizon]. *)
Fixpoint drop_old (current : Z) (horizon : Q) (h : list (Z * Q)) : list (Z * Q) :=
  match h with
  | [] => []
  | e :: h' =>
      if Qlt_bool horizon (inject_Z (current - fst e)) then drop_old current horizon h'
      else h
  end.

(** The states the processor is in between calls, for a session with a fixed
    threshold and a sorting policy of the enum: the accumulator has one entry
    per bin of the distance axis, and the two lists of each history go
    together. *)
Definition well_formed (self : state) : Prop :=
  length (current_mean_sweep self) = length (r self)
  /\ threshold_type self = Some FIXED
  /\ peak_sorting_method self <> None
  /\ length (main_peak_hist_sweep_idx self) = length (main_peak_hist_dist self)
  /\ length (minor_peaks_hist_sweep_idx self) = length (minor_peaks_hist_dist self)
  /\ length (above_thres_hist_sweep_idx self) = length (above_thres_hist_dist self).

(** A sequence of [process] calls; the state after each call and what the
    call returned. *)
Fixpoint run (argsort : list Q -> list Z) (self : state) (sweeps : list (list Q))
  : result (list (state * out_data)) :=
  match sweeps with
  | [] => Ok []
  | sweep :: rest =>
      '(self', out) <- process argsort self sweep ;;
      trace <- run argsort self' rest ;;
      Ok ((self', out) :: trace)
  end.

(** A call emitted when its result carries a peak list. *)
Definition emitted (out : out_data) : bool :=
  match out_found_peaks out with
  | Some _ => true
  | None => false
  end.

(** The accumulator after a sweep was folded in. *)
Definition folded (self : state) (sweep : list Q) : list Q :=
  zip_with (fun x m =>
              (1 / (1 + inject_Z (sweeps_since_mean self)) * x
               + (1 - 1 / (1 + inject_Z (sweeps_since_mean self))) * m)%Q)
    sweep (current_mean_sweep self).

(** Everything of the state but the accumulator, the count of sweeps since
    the last mean and the sweep index. *)
Definition frame_of (self : state) :=
  (histories_of self, last_mean_sweep self,
   (f self, history_length_s self, r self, dr self),
   (nbr_average self, threshold_type self, peak_sorting_method self,
    fixed_threshold_level self)).

(** The settings of the session the examples run in: [num_depths] bins 10 cm
    apart from 10 cm on, update rate 10 Hz. *)
Definition example_config (nbr : Q) (lvl : Q) : ProcessingConfiguration.t :=
  {| ProcessingConfiguration.nbr_average := nbr;
     ProcessingConfiguration.threshold_type := Some FIXED;
     ProcessingConfiguration.fixed_threshold := lvl;
     ProcessingConfiguration.peak_sorting_type := Some STRONGEST;
     ProcessingConfiguration.history_length_s := 2 |}.

Definition example_axis : list Q := [1 # 10; 2 # 10; 3 # 10; 4 # 10; 5 # 10]%Q.

Definition example_state (nbr : Q) (lvl : Q) : state :=
  update_processing_config
    {| f := 10;
       current_mean_sweep := repeat 0%Q 5;
       last_mean_sweep := repeat None 5;
       sweeps_since_mean := 0;
       history_length_s := 2;
       main_peak_hist_sweep_idx := [];
       main_peak_hist_dist := [];
       minor_peaks_hist_sweep_idx := [];
       minor_peaks_hist_dist := [];
       above_thres_hist_sweep_idx := [];
       above_thres_hist_dist := [];
       r := example_axis;
       dr := (2 # 10) - (1 # 10);
       sweep_index := 0;
       nbr_average := nbr;
       threshold_type := Some FIXED;
       peak_sorting_method := Some STRONGEST;
       fixed_threshold_level := lvl |}
    (example_config nbr lvl).

(** A state of the example session at sweep index [now], with one main peak
    recorded at sweep 5 and a mean completed on every sweep. *)
Definition aged_state (now : Z) : state :=
  {| f := 10;
     current_mean_sweep := repeat 0%Q 5;
     last_mean_sweep := repeat None 5;
     sweeps_since_mean := 0;
     history_length_s := 2;
     main_peak_hist_sweep_idx := [5];
     main_peak_hist_dist := [3 # 10];
     minor_peaks_hist_sweep_idx := [];
     minor_peaks_hist_dist := [];
     above_thres_hist_sweep_idx := [];
     above_thres_hist_dist := [];
     r := example_axis;
     dr := (2 # 10) - (1 # 10);
     sweep_index := now;
     nbr_average := 1;
     threshold_type := Some FIXED;
     peak_sorting_method := Some STRONGEST;
     fixed_threshold_level := 800 |}.

(** Settings whose sorting method is no member of the enum, and the states
    of a session run with them: as [well_formed], but for the method. *)
Definition unknown_sorting_config (nbr : Q) (lvl : Q) : ProcessingConfiguration.t :=
  {| ProcessingConfiguration.nbr_average := nbr;
     ProcessingConfiguration.threshold_type := Some FIXED;
     ProcessingConfiguration.fixed_threshold := lvl;
     ProcessingConfiguration.peak_sorting_type := None;
     ProcessingConfiguration.history_length_s := 2 |}.

Definition well_formed_unsorted (self : state) : Prop :=
  length (current_mean_sweep self) = length (r self)
  /\ threshold_type self = Some FIXED
  /\ peak_sorting_method self = None
  /\ length (main_peak_hist_sweep_idx self) = length (main_peak_hist_dist self)
  /\ length (minor_peaks_hist_sweep_idx self) = length (minor_peaks_hist_dist self)
  /\ length (above_thres_hist_sweep_idx self) = length (above_thres_hist_dist self).

(** The state with another sorting method. *)
Definition with_sorting (self : state) (method : option PeakSorting) : state :=
  update_processing_config self
    {| ProcessingConfiguration.nbr_average := nbr_average self;
       ProcessingConfiguration.threshold_type := threshold_type self;
       ProcessingConfiguration.fixed_threshold := fixed_threshold_level self;
       ProcessingConfiguration.peak_sorting_type := method;
       ProcessingConfiguration.history_length_s := history_length_s self |}.

(** ** Thresholds bin by bin *)

(** The threshold of bin [i]. *)
Definition level_at (thr : list level) (i : Z) : level := nth (Z.to_nat i) thr None.

(** [sweep[i] > threshold[i]] *)
Definition above (sweep : list Q) (thr : list level) (i : Z) : Prop :=
  gt_level (sample sweep i) (level_at thr i) = true.

(** [not (sweep[i] <= threshold[i])]: above the threshold, or the threshold is
    NaN. *)
Definition not_below (sweep : list Q) (thr : list level) (i : Z) : Prop :=
  le_level (sample sweep i) (level_at thr i) = false.


(** What [find_peaks] takes for a peak at bin [p]: a run of equal amplitudes
    from bin [d] up to bin [d_upper - 1] with [p] in its middle, a strictly
    lower bin on each side, both neighbours and the run after [d] strictly
    above their thresholds, bin [d] not at or below its own, and the bin
    after the run not the last bin of the sweep. *)
Definition is_peak (sweep : list Q) (thr : list level) (p : Z) : Prop :=
  exists d d_upper,
    1 <= d /\ d < d_upper /\ d_upper < Z.of_nat (length sweep) - 1
    /\ p = d + ceil_half (d_upper - d - 1)
    /\ (sample sweep (d - 1) < sample sweep d)%Q
    /\ (sample sweep d_upper < sample sweep d)%Q
    /\ (forall i, d <= i < d_upper -> (sample sweep i == sample sweep d)%Q)
    /\ not_below sweep thr d
    /\ (forall i, d - 1 <= i <= d_upper -> i <> d -> above sweep thr i).

(** A sweep that never falls, and one that never rises. *)
Definition nondecreasing (sweep : list Q) : bool :=
  forallb (fun i => Qle_bool (sample sweep i) (sample sweep (i + 1)))
    (Zrange 0 (Z.of_nat (length sweep) - 1)).

Definition nonincreasing (sweep : list Q) : bool :=
  forallb (fun i => Qle_bool (sample sweep (i + 1)) (sample sweep i))
    (Zrange 0 (Z.of_nat (length sweep) - 1)).


(** ** The pipeline of an emission *)

(** The merge radius in bins: [np.round(PEAK_MERGE_LIMIT_M / self.dr)]. *)
Definition merge_radius (self : state) : Q :=
  inject_Z (py_round (PEAK_MERGE_LIMIT_M / dr self)).

(** What an emission does to the candidates [find_peaks] returned: a single
    candidate, or none, is passed on as it is; several are merged and then
    ranked by the policy. *)
Definition ranked_from (self : state) (mean_sweep : list Q) (candidates found : list Z)
  : Prop :=
  ((length candidates <= 1)%nat /\ found = candidates)
  \/ (exists merged method,
         (1 < length candidates)%nat
         /\ peak_sorting_method self = Some method
         /\ merge_peaks candidates (merge_radius self) = Ok merged
         /\ Permutation found merged
         /\ StronglySorted (in_policy_order method mean_sweep (r self)) found).


(** ** The order of a history *)

(** The sweep indices of a history do not decrease and were all recorded
    before the sweep [now]. *)
Definition history_in_order (now : Z) (idx : list Z) : Prop :=
  StronglySorted Z.le idx /\ Forall (fun i => i < now) idx.

Definition histories_in_order (self : state) : Prop :=
  history_in_order (sweep_index self) (main_peak_hist_sweep_idx self)
  /\ history_in_order (sweep_index self) (minor_peaks_hist_sweep_idx self)
  /\ history_in_order (sweep_index self) (above_thres_hist_sweep_idx self).

(** No entry of the history is older, at sweep [now], than the horizon. *)
Definition history_recent (now : Z) (horizon : Q) (idx : list Z) : Prop :=
  Forall (fun i => (inject_Z (now - i) <= horizon)%Q) idx.

Definition histories_recent (now : Z) (horizon : Q) (self : state) : Prop :=
  history_recent now horizon (main_peak_hist_sweep_idx self)
  /\ history_recent now horizon (minor_peaks_hist_sweep_idx self)
  /\ history_recent now horizon (above_thres_hist_sweep_idx self).


(** ** The mean of a cycle *)

(** The sum of the amplitudes of bin [b] over a list of sweeps. *)
Definition bin_sum (sweeps : list (list Q)) (b : Z) : Q :=
  fold_right (fun x acc => (sample x b + acc)%Q) 0%Q sweeps.


(** * The pre-flight check of [ProcessingConfiguration] *)

Module Preflight.

Import Stdlib.Strings.String.

(** [et.configbase.Error(param, message)] and
    [et.configbase.Warning(param, message)]. *)
Inductive alert : Type :=
| Error (param message : string)
| Warning (param message : string).

(** The dictionary [check_sensor_config] returns. *)
Record alerts : Type := {
  processing : list alert;
  sensor : list alert
}.

(** What [check_sensor_config] reads of the sensor configuration. *)
Record sensor_config : Type := {
  update_rate : option Q;
  noise_level_normalization : bool
}.

Definition newline : string := String (Ascii.ascii_of_nat 10) EmptyString.

Definition check_sensor_config (self : ProcessingConfiguration.t) (config : sensor_config)
  : alerts :=
  let sensor_alerts :=
    match update_rate config with
    | None => [Error "update_rate" "Must be set"]
    | Some _ => []
    end in
  let sensor_alerts :=
    if negb (noise_level_normalization config) then
      match ProcessingConfiguration.threshold_type self with
      | Some FIXED =>
          sensor_alerts
          ++ [Warning "noise_level_normalization"
                ("Enabling noise level normalization is" ++ newline
                 ++ "recommended with Fixed threshold")]
      | _ => sensor_alerts
      end
    else sensor_alerts in
  {| processing := []; sensor := sensor_alerts |}.

Definition is_error (a : alert) : bool :=
  match a with
  | Error _ _ => true
  | Warning _ _ => false
  end.

End Preflight.

(** * Recording from the command line: [examples/record_data/with_cli.py] *)

Module RecordCli.

Import Stdlib.Strings.String.

(** How [main] ends: the record it saved, [sys.exit(status)], or still
    sampling when the fuel of the model ran out. *)
Inductive outcome (A : Type) : Type :=
| Saved (frames : list A)
| SystemExit (status : Z)
| StillSampling.

Arguments Saved {A} frames.
Arguments SystemExit {A} status.
Arguments StillSampling {A}.

(** [str.lower] on the ASCII letters; no other character lowers to a
    character of [".h5"] or [".npz"]. *)
Definition lower_ascii (c : Ascii.ascii) : Ascii.ascii :=
  let n := Ascii.nat_of_ascii c in
  if (Nat.leb 65 n && Nat.leb n 90)%bool then Ascii.ascii_of_nat (n + 32) else c.

Fixpoint lower (s : string) : string :=
  match s with
  | EmptyString => EmptyString
  | String c s' => String (lower_ascii c) (lower s')
  end.

(** [[".h5", ".npz"]] *)
Definition formats : list string := [".h5"; ".npz"]%string.

(** The checks at the top of [main]: [Some status] when one of them calls
    [sys.exit(status)].  [file_exists] is [os.path.exists(args.output_file)]
    and [ext] the extension [os.path.splitext] gave. *)
Definition check_arguments (file_exists : bool) (ext : string) (limit_frames : option Z)
  : option Z :=
  if file_exists then Some 1
  else if negb (existsb (String.eqb (lower ext)) formats) then Some 1
  else match limit_frames with
       | Some n => if n <? 1 then Some 1 else None
       | None => None
       end.

(** [if args.limit_frames:] *)
Definition truthy (limit_frames : option Z) : bool :=
  match limit_frames with
  | Some n => negb (n =? 0)
  | None => false
  end.

(** The sampling loop.  [got_signal k] is [interrupt_handler.got_signal] at
    the time the loop condition is evaluated for the [k]-th time,
    [get_next k] what the [k]-th call of [client.get_next()] returns; the
    recorder holds the samples in the order they were taken. *)
Fixpoint sample_loop {A : Type} (fuel : nat) (limit_frames : option Z)
  (got_signal : nat -> bool) (get_next : nat -> A) (k : nat) (i : Z) (recorder : list A)
  : outcome A :=
  match fuel with
  | O => StillSampling
  | S fuel' =>
      if got_signal k then Saved recorder
      else
        let recorder := recorder ++ [get_next k] in
        let i := i + 1 in
        if truthy limit_frames then
          match limit_frames with
          | Some n =>
              if i >=? n then Saved recorder
              else sample_loop fuel' limit_frames got_signal get_next (S k) i recorder
          | None => sample_loop fuel' limit_frames got_signal get_next (S k) i recorder
          end
        else sample_loop fuel' limit_frames got_signal get_next (S k) i recorder
  end.

Definition main {A : Type} (fuel : nat) (file_exists : bool) (ext : string)
  (limit_frames : option Z) (got_signal : nat -> bool) (get_next : nat -> A) : outcome A :=
  match check_arguments file_exists ext limit_frames with
  | Some status => SystemExit status
  | None => sample_loop fuel limit_frames got_signal get_next 0 0 []
  end.

End RecordCli.


(** The time offsets, in seconds, of all history points of a snapshot. *)
Definition offsets_of (out : out_data) : list Q :=
  out_main_peak_hist_sweep_s out ++ out_minor_peaks_hist_sweep_s out
  ++ out_above_thres_hist_sweep_s out.

(** * Properties *)

(** ** Subscripts *)

Lemma getitem_nth (A : Type) (a : list A) (i : Z) (d : A) :
  0 <= i < Z.of_nat (length a) -> getitem a i = Ok (nth (Z.to_nat i) a d).
Proof.
  intros Hi. unfold getitem.
  destruct (Z.ltb_spec i 0) as [Hneg | _]; [lia |].
  destruct (Z.leb_spec 0 i) as [_ | Hneg]; [| lia].
  destruct (Z.ltb_spec i (Z.of_nat (length a))) as [_ | Hge]; [| lia].
  simpl. destruct (nth_error a (Z.to_nat i)) as [x |] eqn:E.
  - now rewrite (nth_error_nth _ _ d E).
  - apply nth_error_None in E. lia.
Qed.

Lemma getitem_cases (A : Type) (a : list A) (i : Z) :
  (exists x, getitem a i = Ok x) \/ getitem a i = Raise IndexError.
Proof.
  unfold getitem. cbv zeta.
  destruct (_ && _); [| now right].
  destruct (nth_error a _) as [x |]; [left; now exists x | now right].
Qed.

Lemma getitem_repeat (A : Type) (x : A) (n : nat) (i : Z) :
  0 <= i < Z.of_nat n -> getitem (repeat x n) i = Ok x.
Proof.
  intros Hi. rewrite (getitem_nth _ x) by (rewrite repeat_length; lia).
  f_equal. apply nth_repeat.
Qed.

Lemma zip_with_repeat (A B C : Type) (g : A -> B -> C) (x : A) (y : B) (n : nat) :
  zip_with g (repeat x n) (repeat y n) = repeat (g x y) n.
Proof. induction n as [| n IH]; simpl; [reflexivity | now rewrite IH]. Qed.

Lemma existsb_repeat_false (n : nat) : existsb (fun b : bool => b) (repeat false n) = false.
Proof. induction n as [| n IH]; simpl; auto. Qed.

Lemma Qlt_bool_iff (a b : Q) : Qlt_bool a b = true <-> (a < b)%Q.
Proof.
  unfold Qlt_bool. rewrite negb_true_iff. split.
  - intros H. apply Qnot_le_lt. intros Hle. apply Qle_bool_iff in Hle. congruence.
  - intros H. destruct (Qle_bool b a) eqn:E; [| reflexivity].
    apply Qle_bool_iff in E. exfalso. exact (Qlt_not_le _ _ H E).
Qed.

Lemma Qlt_bool_false_iff (a b : Q) : Qlt_bool a b = false <-> (b <= a)%Q.
Proof.
  unfold Qlt_bool. rewrite negb_false_iff. apply Qle_bool_iff.
Qed.

Lemma Qle_bool_false_iff (a b : Q) : Qle_bool a b = false <-> (b < a)%Q.
Proof.
  rewrite <- Qlt_bool_iff. unfold Qlt_bool. now rewrite negb_true_iff.
Qed.

(** ** A sweep that never crosses its threshold *)

Section ZeroSweep.

Variable N : nat.
Variable lvl : Q.
Hypothesis lvl_pos : (0 < lvl)%Q.

Lemma find_peaks_loop_zero (fuel : nat) (d : Z) (found : list Z) :
  1 <= d <= Z.of_nat N ->
  Z.of_nat N + 1 <= Z.of_nat fuel + d ->
  find_peaks_loop fuel (repeat 0%Q N) (fixed_curve lvl N) (Z.of_nat N) d found = Ok found.
Proof.
  revert d. induction fuel as [| fuel IH]; intros d Hd Hfuel; [lia |].
  cbn [find_peaks_loop].
  destruct (Z.ltb_spec d (Z.of_nat N - 1)) as [Hlt | Hge]; [| reflexivity].
  unfold fixed_curve.
  rewrite !getitem_repeat by lia. cbn [bind isnan le_level].
  assert (Hle : Qle_bool 0 lvl = true) by (apply Qle_bool_iff, Qlt_le_weak, lvl_pos).
  rewrite Hle. apply IH; lia.
Qed.

End ZeroSweep.

(** C8.  For every length [N] and every strictly positive fixed threshold,
    the all-zero sweep has no first point above the threshold and no peak:
    [find_first_point_above_threshold] returns [None] and [find_peaks]
    returns the empty list. *)
Theorem zero_sweep_no_crossing (N : nat) (lvl : Q) :
  (0 < lvl)%Q ->
  find_first_point_above_threshold (repeat 0%Q N) (Some (fixed_curve lvl N)) = Ok None
  /\ find_peaks (repeat 0%Q N) (Some (fixed_curve lvl N)) = Ok [].
Proof.
  intros Hpos. split.
  - unfold find_first_point_above_threshold.
    destruct (forallb isnan (fixed_curve lvl N)); [reflexivity |].
    unfold broadcast2, fixed_curve. rewrite !repeat_length, Nat.eqb_refl.
    rewrite zip_with_repeat. cbn [bind gt_level].
    assert (Hnot : Qlt_bool lvl 0 = false) by (apply Qlt_bool_false_iff, Qlt_le_weak, Hpos).
    rewrite Hnot, existsb_repeat_false. reflexivity.
  - unfold find_peaks.
    destruct (forallb isnan (fixed_curve lvl N)); [reflexivity |].
    rewrite repeat_length.
    destruct N as [| n]; [reflexivity |].
    apply find_peaks_loop_zero; [exact Hpos | lia | lia].
Qed.

Lemma zero_sweep_no_crossing_witness :
  find_first_point_above_threshold (repeat 0%Q 7) (Some (fixed_curve 800 7)) = Ok None
  /\ find_peaks (repeat 0%Q 7) (Some (fixed_curve 800 7)) = Ok [].
Proof. apply (zero_sweep_no_crossing 7 (lvl := 800)). reflexivity. Defined.

(** ** One pulse over a flat threshold *)

Lemma forallb_Zrange (P : Z -> bool) (lo hi : Z) :
  forallb P (Zrange lo hi) = true <-> (forall i, lo <= i < hi -> P i = true).
Proof.
  unfold Zrange. rewrite forallb_forall. split.
  - intros H i Hi. apply H. apply in_map_iff. exists (Z.to_nat (i - lo)). split; [lia |].
    apply in_seq. lia.
  - intros H x Hx. apply in_map_iff in Hx. destruct Hx as [k [<- Hk]].
    apply in_seq in Hk. apply H. lia.
Qed.

Lemma getitem_sample (sweep : list Q) (i : Z) :
  0 <= i < Z.of_nat (length sweep) -> getitem sweep i = Ok (sample sweep i).
Proof. intros Hi. unfold sample. now apply getitem_nth. Qed.

Lemma getitem_fixed_curve (lvl : Q) (n : nat) (i : Z) :
  0 <= i < Z.of_nat n -> getitem (fixed_curve lvl n) i = Ok (Some lvl).
Proof. apply getitem_repeat. Qed.

Lemma ceil_half_pred (delta : Z) : 1 <= delta -> ceil_half (delta - 1) = delta / 2.
Proof.
  intros Hd. unfold ceil_half, Qceiling.
  assert (E : (- (inject_Z (delta - 1) / 2) == (- (delta - 1)) # 2)%Q).
  { unfold Qeq, Qdiv, Qmult, Qinv, inject_Z, Qopp. simpl. lia. }
  rewrite E. unfold Qfloor. simpl.
  assert (H2 : delta = 2 * (delta / 2) + delta mod 2) by (apply Z.div_mod; lia).
  assert (Hm : 0 <= delta mod 2 < 2) by (apply Z.mod_pos_bound; lia).
  assert (Hq : (- (delta - 1)) / 2 = - (delta / 2)).
  { symmetry. apply Z.div_unique with (r := 1 - delta mod 2); lia. }
  lia.
Qed.

Section Pulse.

Variable sweep : list Q.
Variable lvl : Q.
Variables start w : Z.

Hypothesis start_pos : 1 <= start.
Hypothesis w_pos : 1 <= w.
Hypothesis room : start + w < Z.of_nat (length sweep) - 1.
Hypothesis before : forall i, 0 <= i < start - 1 ->
  (lvl < sample sweep i)%Q -> (sample sweep i <= sample sweep (i + 1))%Q.
Hypothesis step_up : (sample sweep (start - 1) < sample sweep start)%Q.
Hypothesis plateau : forall i, start <= i < start + w ->
  (sample sweep i == sample sweep start)%Q.
Hypothesis step_down : (sample sweep (start + w) < sample sweep start)%Q.
Hypothesis after : forall i, start + w < i < Z.of_nat (length sweep) ->
  (lvl < sample sweep i)%Q -> (sample sweep i <= sample sweep (i - 1))%Q.
Hypothesis left_above : (lvl < sample sweep (start - 1))%Q.
Hypothesis right_above : (lvl < sample sweep (start + w))%Q.

Lemma top_above : (lvl < sample sweep start)%Q.
Proof. apply Qlt_trans with (sample sweep (start - 1)); assumption. Qed.

(** After the plateau no rising edge above the threshold is left. *)
Lemma find_peaks_loop_after (fuel : nat) (d : Z) (found : list Z) :
  start + w <= d <= Z.of_nat (length sweep) ->
  Z.of_nat (length sweep) + 1 <= Z.of_nat fuel + d ->
  find_peaks_loop fuel sweep (fixed_curve lvl (length sweep)) (Z.of_nat (length sweep)) d found = Ok found.
Proof.
  revert d. induction fuel as [| fuel IH]; intros d Hd Hfuel; [lia |].
  cbn [find_peaks_loop].
  destruct (Z.ltb_spec d (Z.of_nat (length sweep) - 1)) as [Hlt | Hge]; [| reflexivity].
  rewrite !getitem_fixed_curve, !getitem_sample by lia.
  cbn [bind isnan le_level].
  destruct (Qle_bool (sample sweep d) lvl) eqn:Ed; [apply IH; lia |].
  destruct (Qle_bool (sample sweep (d - 1)) lvl) eqn:Ep; [apply IH; lia |].
  destruct (Qle_bool (sample sweep d) (sample sweep (d - 1))) eqn:El; [apply IH; lia |].
  exfalso. apply Qle_bool_false_iff in Ed, El.
  destruct (Z.eq_dec d (start + w)) as [-> | Hne].
  - assert (Heq : (sample sweep (start + w - 1) == sample sweep start)%Q)
      by (apply plateau; lia).
    rewrite Heq in El.
    exact (Qlt_irrefl _ (Qlt_trans _ _ _ El step_down)).
  - apply (Qlt_not_le _ _ El). apply after; [lia | exact Ed].
Qed.

(** The walk over the plateau ends on the first bin after it and reports the
    plateau's middle. *)
Lemma walk_plateau_top (fuel : nat) (u : Z) :
  start < u <= start + w ->
  Z.of_nat (length sweep) <= Z.of_nat fuel + u ->
  walk_plateau fuel sweep (fixed_curve lvl (length sweep)) (Z.of_nat (length sweep)) start u = Ok (start + w, [start + ceil_half (w - 1)]).
Proof.
  revert u. induction fuel as [| fuel IH]; intros u Hu Hfuel; [lia |].
  cbn [walk_plateau].
  destruct (Z.geb_spec u (Z.of_nat (length sweep) - 1)) as [Hge | Hlt]; [lia |].
  rewrite !getitem_fixed_curve, !getitem_sample by lia.
  cbn [bind isnan le_level].
  assert (Htop := top_above).
  destruct (Z.eq_dec u (start + w)) as [-> | Hne].
  - assert (E1 : Qle_bool (sample sweep (start + w)) lvl = false)
      by (apply Qle_bool_false_iff; exact right_above).
    assert (E2 : Qlt_bool (sample sweep start) (sample sweep (start + w)) = false)
      by (apply Qlt_bool_false_iff, Qlt_le_weak; exact step_down).
    assert (E3 : Qlt_bool (sample sweep (start + w)) (sample sweep start) = true)
      by (apply Qlt_bool_iff; exact step_down).
    rewrite E1, E2, E3. cbv zeta. unfold ceil_half.
    replace (start + w - start - 1) with (w - 1) by lia. reflexivity.
  - assert (Heq : (sample sweep u == sample sweep start)%Q) by (apply plateau; lia).
    assert (E1 : Qle_bool (sample sweep u) lvl = false).
    { apply Qle_bool_false_iff. rewrite Heq. exact Htop. }
    assert (E2 : Qlt_bool (sample sweep start) (sample sweep u) = false).
    { apply Qlt_bool_false_iff. rewrite Heq. apply Qle_refl. }
    assert (E3 : Qlt_bool (sample sweep u) (sample sweep start) = false).
    { apply Qlt_bool_false_iff. rewrite Heq. apply Qle_refl. }
    rewrite E1, E2, E3. apply IH; lia.
Qed.

(** A walk that starts before the top, on a rising edge above the threshold,
    runs over a flat stretch of the rise and ends on the next higher bin, at
    the top at the latest, without reporting. *)
Lemma walk_plateau_rise (fuel : nat) (d u : Z) :
  0 <= d -> d < u <= start ->
  (lvl < sample sweep d)%Q ->
  (forall i, d <= i < u -> (sample sweep i == sample sweep d)%Q) ->
  Z.of_nat (length sweep) <= Z.of_nat fuel + u ->
  exists u', d < u' <= start /\ walk_plateau fuel sweep (fixed_curve lvl (length sweep)) (Z.of_nat (length sweep)) d u = Ok (u', []).
Proof.
  intros Hd0. revert u. induction fuel as [| fuel IH]; intros u Hu Habove Hflat Hfuel; [lia |].
  cbn [walk_plateau].
  destruct (Z.geb_spec u (Z.of_nat (length sweep) - 1)) as [Hge | Hlt]; [lia |].
  rewrite !getitem_fixed_curve, !getitem_sample by lia.
  cbn [bind isnan le_level].
  assert (Hprev : (sample sweep (u - 1) == sample sweep d)%Q) by (apply Hflat; lia).
  assert (Hup : (sample sweep d <= sample sweep u)%Q).
  { rewrite <- Hprev. destruct (Z.eq_dec u start) as [-> | Hne].
    - apply Qlt_le_weak, step_up.
    - replace u with (u - 1 + 1) at 2 by lia. apply before; [lia |].
      rewrite Hprev. exact Habove. }
  assert (E1 : Qle_bool (sample sweep u) lvl = false).
  { apply Qle_bool_false_iff. apply Qlt_le_trans with (sample sweep d); assumption. }
  rewrite E1.
  destruct (Qlt_bool (sample sweep d) (sample sweep u)) eqn:E2.
  { exists u. split; [lia | reflexivity]. }
  apply Qlt_bool_false_iff in E2.
  assert (Heq : (sample sweep u == sample sweep d)%Q) by (apply Qle_antisym; assumption).
  assert (E3 : Qlt_bool (sample sweep u) (sample sweep d) = false).
  { apply Qlt_bool_false_iff. exact Hup. }
  rewrite E3.
  destruct (Z.eq_dec u start) as [-> | Hne].
  - exfalso. rewrite Heq, <- Hprev in step_up. exact (Qlt_irrefl _ step_up).
  - destruct (IH (u + 1)) as [u' [Hu' Hwalk]]; [lia | exact Habove | | lia |].
    + intros i Hi. destruct (Z.eq_dec i u) as [-> | Hiu]; [exact Heq | apply Hflat; lia].
    + exists u'. split; [lia | exact Hwalk].
Qed.

(** Up to the plateau the scan moves on without reporting, then reports the
    plateau once. *)
Lemma find_peaks_loop_before (fuel : nat) (d : Z) (found : list Z) :
  1 <= d <= start ->
  Z.of_nat (length sweep) + 1 <= Z.of_nat fuel + d ->
  find_peaks_loop fuel sweep (fixed_curve lvl (length sweep)) (Z.of_nat (length sweep)) d found = Ok (found ++ [start + ceil_half (w - 1)]).
Proof.
  revert d found. induction fuel as [| fuel IH]; intros d found Hd Hfuel; [lia |].
  cbn [find_peaks_loop].
  destruct (Z.ltb_spec d (Z.of_nat (length sweep) - 1)) as [Hlt | Hge]; [| lia].
  rewrite !getitem_fixed_curve, !getitem_sample by lia.
  cbn [bind isnan le_level].
  assert (Htop := top_above).
  destruct (Qle_bool (sample sweep d) lvl) eqn:Ed.
  { apply IH; [| lia]. apply Qle_bool_iff in Ed.
    destruct (Z.eq_dec d start) as [-> | Hne1].
    - exfalso. exact (Qlt_not_le _ _ Htop Ed).
    - destruct (Z.eq_dec d (start - 1)) as [-> | Hne2]; [| lia].
      exfalso. exact (Qlt_not_le _ _ left_above Ed). }
  destruct (Qle_bool (sample sweep (d - 1)) lvl) eqn:Ep.
  { apply IH; [| lia]. apply Qle_bool_iff in Ep.
    destruct (Z.eq_dec d start) as [-> | Hne1]; [| lia].
    exfalso. exact (Qlt_not_le _ _ left_above Ep). }
  destruct (Qle_bool (sample sweep d) (sample sweep (d - 1))) eqn:El.
  { apply IH; [| lia]. apply Qle_bool_iff in El.
    destruct (Z.eq_dec d start) as [-> | Hne1]; [| lia].
    exfalso. exact (Qlt_not_le _ _ step_up El). }
  apply Qle_bool_false_iff in Ed.
  destruct (Z.eq_dec d start) as [-> | Hne].
  - rewrite walk_plateau_top by lia. cbn [bind].
    apply find_peaks_loop_after; lia.
  - destruct (@walk_plateau_rise (S (length sweep)) d (d + 1)) as [u' [Hu' Hwalk]];
      [lia | lia | exact Ed | | lia |].
    { intros i Hi. replace i with d by lia. reflexivity. }
    rewrite Hwalk. cbn [bind]. rewrite app_nil_r. apply IH; lia.
Qed.

Lemma find_peaks_pulse :
  find_peaks sweep (Some (fixed_curve lvl (length sweep))) = Ok [start + ceil_half (w - 1)].
Proof.
  unfold find_peaks.
  destruct (forallb isnan (fixed_curve lvl (length sweep))) eqn:E.
  - exfalso. unfold fixed_curve in E.
    destruct (length sweep) as [| n] eqn:En; [simpl in room; lia |].
    simpl in E. discriminate.
  - apply (find_peaks_loop_before (S (length sweep)) (d := 1) []); lia.
Qed.

End Pulse.

(** A pulse that rises strictly from the first bin and falls strictly to the
    last one contains one pulse over every level. *)
Lemma strict_pulse_contains (sweep : list Q) (lvl : Q) (start w : Z) :
  strict_pulse sweep start w = true -> contains_single_pulse sweep lvl start w = true.
Proof.
  unfold strict_pulse, contains_single_pulse. rewrite !andb_true_iff.
  intros [[[[[Hs Hw] Hlen] Hrise] Hflat] Hfall].
  assert (Hs' := Hs). assert (Hw' := Hw). assert (Hlen' := Hlen).
  apply Z.leb_le in Hs', Hw'. apply Z.ltb_lt in Hlen'.
  rewrite forallb_Zrange in Hrise, Hflat, Hfall.
  assert (Hdown : forall i, start + w <= i < Z.of_nat (length sweep) ->
                            (sample sweep i < sample sweep (i - 1))%Q).
  { intros i Hi. replace i with (i - 1 + 1) at 1 by lia. apply Qlt_bool_iff, Hfall. lia. }
  repeat split; try assumption.
  - apply forallb_Zrange. intros i Hi. apply orb_true_iff. right.
    apply Qle_bool_iff, Qlt_le_weak, Qlt_bool_iff, Hrise. lia.
  - replace start with (start - 1 + 1) at 2 by lia. apply Hrise. lia.
  - apply forallb_Zrange. exact Hflat.
  - apply Qlt_bool_iff. apply Qlt_le_trans with (sample sweep (start + w - 1)).
    + apply Hdown. lia.
    + apply Qle_lteq. right. apply Qeq_bool_iff, Hflat. lia.
  - apply forallb_Zrange. intros i Hi. apply orb_true_iff. right.
    apply Qle_bool_iff, Qlt_le_weak, Hdown. lia.
Qed.

(** The two flanks and the top of such a pulse are three bins above the
    level next to each other. *)
Lemma flanks_give_three_above (sweep : list Q) (lvl : Q) (start w : Z) :
  contains_single_pulse sweep lvl start w = true ->
  flanks_above sweep lvl start w = true ->
  three_above sweep lvl = true.
Proof.
  unfold contains_single_pulse, flanks_above. rewrite !andb_true_iff.
  intros [[[[[[[Hs Hw] _] _] Hup] Hflat] _] _] [[Hl Hr] Hroom].
  apply Z.leb_le in Hs, Hw. apply Z.ltb_lt in Hroom. apply Qlt_bool_iff in Hup.
  rewrite forallb_Zrange in Hflat.
  assert (Htop : Qlt_bool lvl (sample sweep start) = true).
  { apply Qlt_bool_iff. apply Qlt_bool_iff in Hl.
    apply Qlt_trans with (sample sweep (start - 1)); assumption. }
  unfold three_above. apply existsb_exists. exists (start - 1). split.
  - unfold Zrange. apply in_map_iff. exists (Z.to_nat (start - 1)). split; [lia |].
    apply in_seq. lia.
  - replace (start - 1 + 1) with start by lia. replace (start - 1 + 2) with (start + 1) by lia.
    rewrite Hl, Htop. cbn [andb].
    destruct (Z.eq_dec w 1) as [-> | Hne]; [exact Hr |].
    apply Qlt_bool_iff. apply Qlt_bool_iff in Htop.
    assert (Heq : (sample sweep (start + 1) == sample sweep start)%Q)
      by (apply Qeq_bool_iff, Hflat; lia).
    rewrite Heq. exact Htop.
Qed.

(** C1, as the code has it.  A sweep that contains one pulse over a flat
    threshold (a flat top of [w >= 1] bins from bin [start] with a strictly
    lower bin on each side, to which the sweep rises and from which it falls
    wherever it is above the threshold; the bins at or below the threshold
    are free), with the bin before the flat top and the bin after it both
    strictly above the threshold and the bin after it not the last bin of
    the sweep: [find_peaks] returns exactly one peak, at
    [start + ceil((w - 1) / 2)]. *)
Theorem find_peaks_single_pulse (sweep : list Q) (lvl : Q) (start w : Z) :
  contains_single_pulse sweep lvl start w = true ->
  flanks_above sweep lvl start w = true ->
  find_peaks sweep (Some (fixed_curve lvl (length sweep))) = Ok [start + ceil_half (w - 1)].
Proof.
  unfold contains_single_pulse, flanks_above. rewrite !andb_true_iff.
  intros [[[[[[[Hs Hw] _] Hbefore] Hup] Hflat] Hdown] Hafter] [[Hl Hr] Hroom].
  apply Z.leb_le in Hs, Hw. apply Z.ltb_lt in Hroom. apply Qlt_bool_iff in Hl, Hr, Hup, Hdown.
  rewrite forallb_Zrange in Hbefore, Hflat, Hafter.
  apply find_peaks_pulse; try assumption.
  - intros i Hi Habove. specialize (Hbefore i Hi). apply orb_true_iff in Hbefore.
    destruct Hbefore as [Hle | Hle]; apply Qle_bool_iff in Hle; [| exact Hle].
    exfalso. exact (Qlt_not_le _ _ Habove Hle).
  - intros i Hi. apply Qeq_bool_iff, Hflat. lia.
  - intros i Hi Habove. specialize (Hafter i ltac:(lia)). apply orb_true_iff in Hafter.
    destruct Hafter as [Hle | Hle]; apply Qle_bool_iff in Hle; [| exact Hle].
    exfalso. exact (Qlt_not_le _ _ Habove Hle).
Qed.

Lemma find_peaks_single_pulse_witness :
  find_peaks [0; 0; 2; 5; 2; 0; 0]%Q (Some (fixed_curve 1 7)) = Ok [3].
Proof.
  apply (find_peaks_single_pulse [0; 0; 2; 5; 2; 0; 0]%Q 1 3 1); vm_compute; reflexivity.
Defined.

(** Pulses the statement covers: a flat top of four bins on a baseline below
    the threshold, a pulse on a flat baseline above the threshold, and a
    pulse whose rise holds a flat step. *)
Example pulses_on_a_baseline :
  contains_single_pulse [0; 0; 2; 5; 5; 5; 5; 3; 0; 0]%Q 1 3 4 = true
  /\ flanks_above [0; 0; 2; 5; 5; 5; 5; 3; 0; 0]%Q 1 3 4 = true
  /\ find_peaks [0; 0; 2; 5; 5; 5; 5; 3; 0; 0]%Q (Some (fixed_curve 1 10)) = Ok [5]
  /\ contains_single_pulse [3; 3; 3; 5; 3; 3; 3]%Q 1 3 1 = true
  /\ flanks_above [3; 3; 3; 5; 3; 3; 3]%Q 1 3 1 = true
  /\ find_peaks [3; 3; 3; 5; 3; 3; 3]%Q (Some (fixed_curve 1 7)) = Ok [3]
  /\ contains_single_pulse [0; 2; 3; 3; 5; 3; 2; 0]%Q 1 4 1 = true
  /\ flanks_above [0; 2; 3; 3; 5; 3; 2; 0]%Q 1 4 1 = true
  /\ find_peaks [0; 2; 3; 3; 5; 3; 2; 0]%Q (Some (fixed_curve 1 8)) = Ok [4].
Proof. repeat split; vm_compute; reflexivity. Qed.

(** C1, as the specification words it, fails: the pulse [0, 5, 4, 3, 0] rises
    strictly to bin 1 and falls strictly after it, bins 1, 2 and 3 are above
    the threshold 1, and no peak is found, because the bin before the top is
    not above the threshold. *)
Lemma find_peaks_three_above_counterexample :
  strict_pulse [0; 5; 4; 3; 0]%Q 1 1 = true
  /\ contains_single_pulse [0; 5; 4; 3; 0]%Q 1 1 1 = true
  /\ three_above [0; 5; 4; 3; 0]%Q 1 = true
  /\ find_peaks [0; 5; 4; 3; 0]%Q (Some (fixed_curve 1 5)) = Ok []
  /\ find_peaks [0; 5; 4; 3; 0]%Q (Some (fixed_curve 1 5)) <> Ok [1 + ceil_half (1 - 1)].
Proof. repeat split; try (vm_compute; reflexivity). vm_compute. discriminate. Qed.

(** The same with a flat top: the three bins of the top of
    [0, 1/2, 5, 5, 5, 1/2, 0] are above the threshold 1, its flanks are not,
    and no peak is found. *)
Example flat_top_without_flanks :
  strict_pulse [0; 1 # 2; 5; 5; 5; 1 # 2; 0]%Q 2 3 = true
  /\ contains_single_pulse [0; 1 # 2; 5; 5; 5; 1 # 2; 0]%Q 1 2 3 = true
  /\ three_above [0; 1 # 2; 5; 5; 5; 1 # 2; 0]%Q 1 = true
  /\ find_peaks [0; 1 # 2; 5; 5; 5; 1 # 2; 0]%Q (Some (fixed_curve 1 7)) = Ok [].
Proof. repeat split; vm_compute; reflexivity. Qed.

(** ** Merging *)

Lemma np_sum_bool_filter (A : Type) (g : A -> bool) (l : list A) :
  np_sum_bool (map g l) = Z.of_nat (length (filter g l)).
Proof.
  induction l as [| x l IH]; [reflexivity |].
  unfold np_sum_bool in *. cbn [map filter fold_right].
  destruct (g x); cbn [length]; rewrite IH; lia.
Qed.

Lemma num_neighbors_counts (l : list Z) (radius : Q) :
  num_neighbors l radius = map (neighbor_count radius l) l.
Proof.
  unfold num_neighbors, neighbor_count. apply map_ext. intros p. apply np_sum_bool_filter.
Qed.

Lemma mask_select_filter (A : Type) (g : A -> bool) (l : list A) :
  mask_select l (map g l) = filter g l.
Proof.
  induction l as [| x l IH]; [reflexivity |].
  simpl. destruct (g x); now rewrite IH.
Qed.

Lemma list_remove_middle (x : Z) (pre l : list Z) :
  ~ In x pre -> list_remove x (pre ++ x :: l) = Ok (pre ++ l).
Proof.
  induction pre as [| y pre IH]; intros Hnot; simpl.
  - now rewrite Z.eqb_refl.
  - destruct (Z.eqb_spec x y) as [-> | Hne]; [exfalso; apply Hnot; now left |].
    rewrite IH; [reflexivity |]. intros Hin. apply Hnot. now right.
Qed.

(** Removing, one by one, the peaks a mask selects leaves the others. *)
Lemma remove_each_filter (g : Z -> bool) (l pre : list Z) :
  (forall x, In x pre -> g x = false) ->
  remove_each (filter g l) (pre ++ l) = Ok (pre ++ filter (fun x => negb (g x)) l).
Proof.
  revert pre. induction l as [| x l IH]; intros pre Hpre; [reflexivity |].
  simpl. destruct (g x) eqn:Ex; simpl.
  - rewrite list_remove_middle.
    + simpl. now apply IH.
    + intros Hin. apply Hpre in Hin. congruence.
  - replace (pre ++ x :: l) with ((pre ++ [x]) ++ l) by (rewrite <- app_assoc; reflexivity).
    rewrite IH.
    + rewrite <- app_assoc. reflexivity.
    + intros y Hy. apply in_app_or in Hy. destruct Hy as [Hy | [<- | []]]; auto.
Qed.


Lemma argmax_from_first_max (l pre : list Z) (best ibest : Z) :
  0 <= ibest < Z.of_nat (length pre) ->
  nth (Z.to_nat ibest) pre 0 = best ->
  (forall j, 0 <= j < Z.of_nat (length pre) -> nth (Z.to_nat j) pre 0 <= best) ->
  (forall j, 0 <= j < ibest -> nth (Z.to_nat j) pre 0 < best) ->
  first_max (pre ++ l) (argmax_from Z.ltb best ibest (Z.of_nat (length pre)) l).
Proof.
  revert pre best ibest. induction l as [| x l IH]; intros pre best ibest Hi Hb Hmax Hfirst.
  - simpl. rewrite app_nil_r. unfold first_max. rewrite Hb. auto.
  - simpl.
    assert (Hlen : Z.of_nat (length pre) + 1 = Z.of_nat (length (pre ++ [x])))
      by (rewrite length_app; simpl; lia).
    assert (Hnth_old : forall j, 0 <= j < Z.of_nat (length pre) ->
              nth (Z.to_nat j) (pre ++ [x]) 0 = nth (Z.to_nat j) pre 0)
      by (intros j Hj; apply app_nth1; lia).
    assert (Hnth_new : nth (Z.to_nat (Z.of_nat (length pre))) (pre ++ [x]) 0 = x)
      by (rewrite Nat2Z.id, nth_middle; reflexivity).
    replace (pre ++ x :: l) with ((pre ++ [x]) ++ l) by (rewrite <- app_assoc; reflexivity).
    rewrite Hlen.
    destruct (Z.ltb_spec best x) as [Hlt | Hge].
    + apply IH.
      * lia.
      * exact Hnth_new.
      * intros j Hj. destruct (Z.eq_dec j (Z.of_nat (length pre))) as [-> | Hne].
        -- rewrite Hnth_new. lia.
        -- rewrite Hnth_old by lia. specialize (Hmax j ltac:(lia)). lia.
      * intros j Hj. rewrite Hnth_old by lia. specialize (Hmax j ltac:(lia)). lia.
    + apply IH.
      * lia.
      * rewrite Hnth_old by lia. exact Hb.
      * intros j Hj. destruct (Z.eq_dec j (Z.of_nat (length pre))) as [-> | Hne].
        -- rewrite Hnth_new. lia.
        -- rewrite Hnth_old by lia. apply Hmax. lia.
      * intros j Hj. rewrite Hnth_old by lia. apply Hfirst. lia.
Qed.

Lemma np_argmax_first_max (vals : list Z) :
  vals <> [] -> exists k, np_argmax Z.ltb vals = Ok k /\ first_max vals k.
Proof.
  destruct vals as [| x l]; [congruence | intros _].
  eexists. split; [reflexivity |].
  apply (argmax_from_first_max l [x] (best := x) (ibest := 0)); simpl.
  - lia.
  - reflexivity.
  - intros j Hj. replace j with 0 by lia. simpl. lia.
  - intros j Hj. lia.
Qed.

Lemma fold_max_attained (vals : list Z) (v : Z) :
  In v vals -> 0 <= v -> (forall x, In x vals -> x <= v) -> fold_right Z.max 0 vals = v.
Proof.
  intros Hin Hv Hmax.
  assert (Hub : forall l, (forall x, In x l -> x <= v) -> fold_right Z.max 0 l <= v).
  { induction l as [| y l IH]; intros Hl; simpl; [lia |].
    specialize (Hl y (or_introl eq_refl)) as Hy.
    specialize (IH (fun x Hx => Hl x (or_intror Hx))). lia. }
  assert (Hlb : forall l, In v l -> v <= fold_right Z.max 0 l).
  { induction l as [| y l IH]; intros Hl; simpl in *; [contradiction |].
    destruct Hl as [-> | Hl]; [lia |]. specialize (IH Hl). lia. }
  specialize (Hub vals Hmax). specialize (Hlb vals Hin). lia.
Qed.

Lemma find_first_index (g : Z -> bool) (l : list Z) (k : nat) :
  (k < length l)%nat ->
  g (nth k l 0) = true ->
  (forall j, (j < k)%nat -> g (nth j l 0) = false) ->
  find g l = Some (nth k l 0).
Proof.
  revert k. induction l as [| x l IH]; intros k Hk Hg Hfirst; [simpl in Hk; lia |].
  destruct k as [| k]; simpl in *.
  - now rewrite Hg.
  - rewrite (Hfirst 0%nat) by lia. apply IH; [lia | exact Hg |].
    intros j Hj. apply (Hfirst (S j)). lia.
Qed.

Lemma neighbor_count_nonneg (radius : Q) (l : list Z) (p : Z) : 0 <= neighbor_count radius l p.
Proof. unfold neighbor_count. lia. Qed.

(** The peak [np.argmax] points at is the chosen peak of the specification,
    and its count is the maximum count. *)
Lemma argmax_is_chosen_peak (radius : Q) (l : list Z) :
  l <> [] ->
  exists k peak,
    np_argmax Z.ltb (num_neighbors l radius) = Ok k
    /\ getitem (num_neighbors l radius) k = Ok (max_neighbor_count radius l)
    /\ getitem l k = Ok peak
    /\ chosen_peak radius l = Some peak
    /\ In peak l
    /\ neighbor_count radius l peak = max_neighbor_count radius l.
Proof.
  intros Hne. rewrite num_neighbors_counts.
  destruct (@np_argmax_first_max (map (neighbor_count radius l) l)) as [k [Hk Hfm]].
  { destruct l; [congruence | discriminate]. }
  destruct Hfm as [Hrange [Hmax Hfirst]]. rewrite length_map in Hrange, Hmax.
  assert (Hnth : forall j, 0 <= j < Z.of_nat (length l) ->
            nth (Z.to_nat j) (map (neighbor_count radius l) l) 0
            = neighbor_count radius l (nth (Z.to_nat j) l 0)).
  { intros j Hj.
    rewrite (nth_indep _ 0 (neighbor_count radius l 0)) by (rewrite length_map; lia).
    apply map_nth. }
  set (peak := nth (Z.to_nat k) l 0).
  assert (Hin : In peak l) by (apply nth_In; lia).
  assert (Hcount : neighbor_count radius l peak = max_neighbor_count radius l).
  { symmetry. apply fold_max_attained.
    - apply in_map. exact Hin.
    - apply neighbor_count_nonneg.
    - intros c Hc. apply in_map_iff in Hc. destruct Hc as [q [<- Hq]].
      destruct (In_nth _ _ 0 Hq) as [j [Hj Hjq]].
      specialize (Hmax (Z.of_nat j) ltac:(lia)).
      rewrite !Hnth in Hmax by lia. rewrite Nat2Z.id, Hjq in Hmax. exact Hmax. }
  exists k, peak. repeat split; try assumption.
  - rewrite (getitem_nth _ 0) by (rewrite length_map; lia).
    rewrite Hnth by lia. now rewrite <- Hcount.
  - apply getitem_nth. lia.
  - unfold chosen_peak. apply find_first_index.
    + lia.
    + fold peak. rewrite Hcount. apply Z.eqb_refl.
    + intros j Hj. specialize (Hfirst (Z.of_nat j) ltac:(lia)).
      rewrite !Hnth in Hfirst by lia. rewrite Nat2Z.id in Hfirst. fold peak in Hfirst.
      apply Z.eqb_neq. lia.
Qed.

Lemma filter_partition_length (A : Type) (g : A -> bool) (l : list A) :
  (length (filter g l) + length (filter (fun x => negb (g x)) l) = length l)%nat.
Proof.
  induction l as [| x l IH]; [reflexivity |].
  simpl. destruct (g x); simpl; lia.
Qed.

Lemma insert_sorted_perm (x : Z) (l : list Z) : Permutation (x :: l) (insert_sorted x l).
Proof.
  induction l as [| y l IH]; simpl; [reflexivity |].
  destruct (x <=? y); [reflexivity |].
  rewrite perm_swap. now apply perm_skip.
Qed.

Lemma list_sort_perm (l : list Z) : Permutation l (list_sort l).
Proof.
  induction l as [| x l IH]; simpl; [constructor |].
  rewrite <- insert_sorted_perm. now apply perm_skip.
Qed.

Lemma list_sort_length (l : list Z) : length (list_sort l) = length l.
Proof. symmetry. apply Permutation_length, list_sort_perm. Qed.

(** The loop body of the code is the round of the specification. *)
Lemma merge_round_spec_round (radius : Q) (l : list Z) :
  l <> [] ->
  merge_round l radius
  = Ok (if max_neighbor_count radius l <=? 1 then None else Some (spec_round radius l)).
Proof.
  intros Hne. unfold merge_round.
  destruct (argmax_is_chosen_peak radius Hne) as [k [peak (Hk & Hn & Hp & Hc & Hin & Hcount)]].
  rewrite Hk. cbn [bind]. rewrite Hn. cbn [bind].
  destruct (Z.leb_spec (max_neighbor_count radius l) 1) as [Hle | Hgt]; [reflexivity |].
  rewrite Hp. cbn [bind]. rewrite mask_select_filter.
  pose proof (remove_each_filter (within radius peak) l []) as Hrm.
  cbn [app] in Hrm. rewrite Hrm by (intros x []).
  cbn [bind]. unfold spec_round. rewrite Hc.
  unfold neighbor_count in Hcount.
  destruct (filter (within radius peak) l) as [| y ys] eqn:Ef; [simpl in Hcount; lia |].
  reflexivity.
Qed.

Lemma spec_round_shrinks (radius : Q) (l : list Z) :
  l <> [] ->
  1 < max_neighbor_count radius l ->
  exists peak,
    chosen_peak radius l = Some peak
    /\ In peak l
    /\ (2 <= length (filter (within radius peak) l))%nat
    /\ (length (spec_round radius l) + length (filter (within radius peak) l)
        = length l + 1)%nat
    /\ (length (spec_round radius l) < length l)%nat
    /\ spec_round radius l <> [].
Proof.
  intros Hne Hgt.
  destruct (argmax_is_chosen_peak radius Hne) as [k [peak (_ & _ & _ & Hc & Hin & Hcount)]].
  exists peak. unfold neighbor_count in Hcount.
  assert (Hlen : (length (spec_round radius l)
                  = length (filter (fun x => negb (within radius peak x)) l) + 1)%nat).
  { unfold spec_round. rewrite Hc, list_sort_length, length_app. reflexivity. }
  pose proof (filter_partition_length (within radius peak) l) as Hpart.
  repeat split; try assumption; try lia.
  intros E. rewrite E in Hlen. simpl in Hlen. lia.
Qed.

Lemma merge_loop_merges_to (radius : Q) (fuel : nat) (l : list Z) :
  l <> [] ->
  (length l <= fuel)%nat ->
  exists out, merge_loop fuel l radius = Ok out /\ merges_to radius l out.
Proof.
  revert l. induction fuel as [| fuel IH]; intros l Hne Hfuel.
  - destruct l; [congruence | simpl in Hfuel; lia].
  - cbn [merge_loop]. rewrite merge_round_spec_round by exact Hne. cbn [bind].
    destruct (Z.leb_spec (max_neighbor_count radius l) 1) as [Hle | Hgt].
    + exists l. split; [reflexivity | now apply merges_done].
    + destruct (spec_round_shrinks radius Hne Hgt) as [peak (_ & _ & _ & _ & Hlt & Hne')].
      destruct (IH (spec_round radius l) Hne' ltac:(lia)) as [out [Hout Hm]].
      exists out. split; [exact Hout | now apply merges_step].
Qed.

Lemma within_iff (radius : Q) (p x : Z) :
  within radius p x = true <-> (inject_Z (Z.abs (x - p)) < radius)%Q.
Proof. apply Qlt_bool_iff. Qed.

Lemma within_Z (n p x : Z) : within (inject_Z n) p x = (Z.abs (x - p) <? n).
Proof.
  destruct (Z.ltb_spec (Z.abs (x - p)) n) as [Hlt | Hge].
  - apply within_iff. now rewrite <- Zlt_Qlt.
  - unfold within. apply Qlt_bool_false_iff. now rewrite <- Zle_Qle.
Qed.

(** C10.  [merge_peaks] terminates on every list and every radius: a round
    that merges removes the peaks within the radius of the chosen peak, at
    least two of them, and appends one, so the list gets strictly shorter;
    the loop therefore ends within the fuel it is given, with the merged
    list, or at once with numpy's error on the empty list. *)
Theorem merge_peaks_terminates (l : list Z) (radius : Q) :
  ((exists out, merge_peaks l radius = Ok out)
   \/ (l = [] /\ merge_peaks l radius = Raise ValueError))
  /\ (forall l', merge_round l radius = Ok (Some l') ->
      exists peak,
        In peak l
        /\ (2 <= length (filter (within radius peak) l))%nat
        /\ (length l' + length (filter (within radius peak) l) = length l + 1)%nat
        /\ (length l' < length l)%nat).
Proof.
  split.
  - destruct l as [| x t]; [right; split; reflexivity | left].
    unfold merge_peaks.
    destruct (@merge_loop_merges_to radius (S (length (x :: t))) (x :: t))
      as [out [Hout _]]; [discriminate | lia |].
    now exists out.
  - intros l' Hround.
    assert (Hne : l <> []) by (intros ->; discriminate).
    rewrite merge_round_spec_round in Hround by exact Hne.
    destruct (Z.leb_spec (max_neighbor_count radius l) 1) as [Hle | Hgt]; [discriminate |].
    injection Hround as <-.
    destruct (spec_round_shrinks radius Hne Hgt) as [peak (_ & Hin & H2 & Hlen & Hlt & _)].
    exists peak. auto.
Qed.

Lemma merge_peaks_terminates_witness :
  exists peak,
    In peak [1; 3; 5; 7; 20; 21]%Z
    /\ (2 <= length (filter (within 3 peak) [1; 3; 5; 7; 20; 21]%Z))%nat
    /\ (length [3; 7; 20; 21]%Z + length (filter (within 3 peak) [1; 3; 5; 7; 20; 21]%Z)
        = length [1; 3; 5; 7; 20; 21]%Z + 1)%nat
    /\ (length [3; 7; 20; 21]%Z < length [1; 3; 5; 7; 20; 21]%Z)%nat.
Proof.
  apply (proj2 (merge_peaks_terminates [1; 3; 5; 7; 20; 21]%Z 3) [3; 7; 20; 21]%Z).
  vm_compute. reflexivity.
Defined.

Lemma merges_to_functional (radius : Q) (l a b : list Z) :
  merges_to radius l a -> merges_to radius l b -> a = b.
Proof.
  intros Ha. revert b. induction Ha as [l Hle | l out Hgt Ha IH]; intros b Hb.
  - inversion Hb; subst; [reflexivity | lia].
  - inversion Hb; subst; [lia | auto].
Qed.

(** Decides every [within 3 p x] of the goal whose distance [lia] can bound. *)
Ltac decide_within3 :=
  change (3%Q) with (inject_Z 3); rewrite ?within_Z;
  repeat match goal with
         | |- context [Z.abs ?e <? 3] =>
             first [ destruct (Z.ltb_spec (Z.abs e) 3); [| lia]
                   | destruct (Z.ltb_spec (Z.abs e) 3); [lia |] ]
         end.

Lemma merge_round_one_apart (p : Z) :
  merge_round [p; p + 1] 3 = Ok (Some [py_round (np_mean [p; p + 1])]).
Proof.
  rewrite merge_round_spec_round by discriminate.
  unfold max_neighbor_count, spec_round, chosen_peak, max_neighbor_count, neighbor_count.
  cbn [map filter find]. decide_within3.
  cbn -[py_round np_mean within Z.abs Z.sub Z.add]. decide_within3. reflexivity.
Qed.

Lemma merge_round_single (radius : Q) (m : Z) : merge_round [m] radius = Ok None.
Proof.
  rewrite merge_round_spec_round by discriminate.
  unfold max_neighbor_count, neighbor_count. cbn [map filter].
  destruct (within radius m m); reflexivity.
Qed.

Lemma merge_round_ten_apart (p : Z) : merge_round [p; p + 10] 3 = Ok None.
Proof.
  rewrite merge_round_spec_round by discriminate.
  unfold max_neighbor_count, neighbor_count.
  cbn [map filter]. decide_within3. reflexivity.
Qed.

(** C2, as the code has it.  On every list of peaks that is not empty, and
    for every radius, [merge_peaks] returns what repeating the round of the
    specification gives: while some peak has more than one peak within the
    radius (itself included), the first peak with the largest such count is
    chosen, the peaks within its radius are removed, their rounded mean is
    appended and the list is sorted again.  Two peaks 1 bin apart collapse,
    with radius 3, into their rounded mean; two peaks 10 bins apart are
    returned as they are. *)
Theorem merge_peaks_rounds (l : list Z) (radius : Q) :
  l <> [] ->
  (exists out, merge_peaks l radius = Ok out /\ merges_to radius l out)
  /\ (forall p, merge_peaks [p; p + 1] 3 = Ok [py_round (np_mean [p; p + 1])])
  /\ (forall p, merge_peaks [p; p + 10] 3 = Ok [p; p + 10]).
Proof.
  intros Hne. split; [| split].
  - unfold merge_peaks. apply merge_loop_merges_to; [exact Hne | lia].
  - intros p. unfold merge_peaks. cbn [length merge_loop].
    rewrite merge_round_one_apart. cbn [bind]. rewrite merge_round_single. reflexivity.
  - intros p. unfold merge_peaks. cbn [length merge_loop].
    rewrite merge_round_ten_apart. reflexivity.
Qed.

Lemma merge_peaks_rounds_witness :
  (exists out, merge_peaks [1; 3; 5; 7; 20; 21] 3 = Ok out
               /\ merges_to 3 [1; 3; 5; 7; 20; 21] out)
  /\ (forall p, merge_peaks [p; p + 1] 3 = Ok [py_round (np_mean [p; p + 1])])
  /\ (forall p, merge_peaks [p; p + 10] 3 = Ok [p; p + 10]).
Proof. apply (@merge_peaks_rounds [1; 3; 5; 7; 20; 21] 3). discriminate. Defined.

(** C2, as the specification words it, fails on the empty list: no round
    applies to it, so it would be returned as it is, but [np.argmax] of the
    empty count array raises. *)
Lemma merge_peaks_empty_counterexample :
  merges_to 3 [] []
  /\ merge_peaks [] 3 = Raise ValueError
  /\ ~ (exists out, merge_peaks [] 3 = Ok out /\ merges_to 3 [] out).
Proof.
  split; [| split].
  - apply merges_done. vm_compute. discriminate.
  - reflexivity.
  - intros [out [H _]]. discriminate.
Qed.

(** ** Sorting *)

Lemma insert_by_perm (ks : list Q) (i : Z) (l : list Z) :
  Permutation (i :: l) (insert_by ks i l).
Proof.
  induction l as [| j l IH]; simpl; [reflexivity |].
  destruct (Qle_bool (sample ks i) (sample ks j)); [reflexivity |].
  rewrite perm_swap. now apply perm_skip.
Qed.

Lemma sort_by_perm (ks : list Q) (l : list Z) : Permutation l (sort_by ks l).
Proof.
  induction l as [| i l IH]; simpl; [constructor |].
  rewrite <- insert_by_perm. now apply perm_skip.
Qed.

Lemma insert_by_sorted (ks : list Q) (i : Z) (l : list Z) :
  StronglySorted (fun a b => (sample ks a <= sample ks b)%Q) l ->
  StronglySorted (fun a b => (sample ks a <= sample ks b)%Q) (insert_by ks i l).
Proof.
  induction l as [| j l IH]; intros Hs; simpl.
  - constructor; constructor.
  - apply StronglySorted_inv in Hs. destruct Hs as [Hs Hall].
    destruct (Qle_bool (sample ks i) (sample ks j)) eqn:E.
    + apply Qle_bool_iff in E. constructor.
      * constructor; assumption.
      * constructor; [exact E |].
        eapply Forall_impl; [| exact Hall]. intros a Ha. eapply Qle_trans; eassumption.
    + apply Qle_bool_false_iff in E. constructor; [now apply IH |].
      apply (Permutation_Forall (insert_by_perm ks i l)).
      constructor; [now apply Qlt_le_weak | exact Hall].
Qed.

Lemma sort_by_sorted (ks : list Q) (l : list Z) :
  StronglySorted (fun a b => (sample ks a <= sample ks b)%Q) (sort_by ks l).
Proof.
  induction l as [| i l IH]; simpl; [constructor | now apply insert_by_sorted].
Qed.

Lemma stable_argsort_spec : argsort_spec stable_argsort.
Proof.
  intros ks. split; [| apply sort_by_sorted].
  symmetry. apply sort_by_perm.
Qed.

Lemma mapM_getitem (A : Type) (a : list A) (d : A) (l : list Z) :
  bins_of (length a) l ->
  mapM (getitem a) l = Ok (map (fun i => nth (Z.to_nat i) a d) l).
Proof.
  induction 1 as [| i l Hi _ IH]; [reflexivity |].
  cbn [mapM map]. rewrite (getitem_nth _ d) by exact Hi. cbn [bind]. rewrite IH. reflexivity.
Qed.

Lemma zip_with_map (A B C D : Type) (g : B -> C -> D) (u : A -> B) (v : A -> C) (l : list A) :
  zip_with g (map u l) (map v l) = map (fun x => g (u x) (v x)) l.
Proof. induction l as [| x l IH]; simpl; [reflexivity | now rewrite IH]. Qed.

Lemma arange_bins (n : nat) : bins_of n (arange n).
Proof.
  unfold bins_of, arange. apply Forall_forall. intros i Hi.
  apply in_map_iff in Hi. destruct Hi as [k [<- Hk]]. apply in_seq in Hk. lia.
Qed.

Lemma map_nth_arange (A : Type) (d : A) (l : list A) :
  map (fun i => nth (Z.to_nat i) l d) (arange (length l)) = l.
Proof.
  unfold arange. rewrite map_map.
  rewrite (map_ext _ (fun k => nth k l d)) by (intros k; now rewrite Nat2Z.id).
  induction l as [| x l IH]; [reflexivity |].
  cbn [length seq map nth]. f_equal. rewrite <- seq_shift, map_map. exact IH.
Qed.

Lemma quantity_order (method : PeakSorting) (sweep r_axis : list Q) (p q : Z) :
  (quantity_of method sweep r_axis p <= quantity_of method sweep r_axis q)%Q ->
  in_policy_order method sweep r_axis p q.
Proof.
  destruct method; unfold quantity_of, in_policy_order, policy_key; intros H.
  - lra.
  - exact H.
  - set (a := (sample r_axis p * sample r_axis p)%Q) in *.
    set (b := (sample r_axis q * sample r_axis q)%Q) in *.
    set (x := (sample sweep p * a)%Q). set (y := (sample sweep q * b)%Q).
    assert (Hx : (- sample sweep p * a == - x)%Q) by (unfold x; ring).
    assert (Hy : (- sample sweep q * b == - y)%Q) by (unfold y; ring).
    rewrite Hx, Hy in H. lra.
  - set (x := (sample sweep p * sample r_axis p)%Q).
    set (y := (sample sweep q * sample r_axis q)%Q).
    assert (Hx : (- sample sweep p * sample r_axis p == - x)%Q) by (unfold x; ring).
    assert (Hy : (- sample sweep q * sample r_axis q == - y)%Q) by (unfold y; ring).
    rewrite Hx, Hy in H. lra.
Qed.

(** What [sort_peaks] computes, for an [argsort] that keeps numpy's promise:
    a rearrangement of the peaks in which the quantity does not decrease. *)
Lemma sort_peaks_sorted (argsort : list Q -> list Z) (method : PeakSorting)
  (r_axis : list Q) (peak_indexes : list Z) (sweep : list Q) :
  argsort_spec argsort ->
  bins_of (length sweep) peak_indexes ->
  bins_of (length r_axis) peak_indexes ->
  exists out,
    sort_peaks argsort (Some method) r_axis peak_indexes sweep = Ok out
    /\ Permutation out peak_indexes
    /\ StronglySorted (in_policy_order method sweep r_axis) out.
Proof.
  intros Hspec Hsweep Hr. unfold sort_peaks.
  rewrite (mapM_getitem sweep 0%Q Hsweep), (mapM_getitem r_axis 0%Q Hr). cbn [bind].
  set (quantity := map (quantity_of method sweep r_axis) peak_indexes).
  assert (Hq : match method with
               | CLOSEST => Ok (map (fun i => nth (Z.to_nat i) r_axis 0%Q) peak_indexes)
               | STRONGEST =>
                   Ok (map Qopp (map (fun i => nth (Z.to_nat i) sweep 0%Q) peak_indexes))
               | STRONGEST_REFLECTOR =>
                   Ok (zip_with (fun a x => (- a * (x * x))%Q)
                         (map (fun i => nth (Z.to_nat i) sweep 0%Q) peak_indexes)
                         (map (fun i => nth (Z.to_nat i) r_axis 0%Q) peak_indexes))
               | STRONGEST_FLAT_REFLECTOR =>
                   Ok (zip_with (fun a x => (- a * x)%Q)
                         (map (fun i => nth (Z.to_nat i) sweep 0%Q) peak_indexes)
                         (map (fun i => nth (Z.to_nat i) r_axis 0%Q) peak_indexes))
               end = Ok quantity).
  { unfold quantity. destruct method; rewrite ?zip_with_map, ?map_map; reflexivity. }
  rewrite Hq. cbn [bind]. clear Hq.
  destruct (Hspec quantity) as [Hperm Hsorted].
  assert (Hlen : length quantity = length peak_indexes) by apply length_map.
  rewrite Hlen in Hperm.
  assert (Hbins : bins_of (length peak_indexes) (argsort quantity)).
  { apply (Permutation_Forall (Permutation_sym Hperm)), arange_bins. }
  rewrite (mapM_getitem peak_indexes 0 Hbins).
  eexists. split; [reflexivity | split].
  - rewrite (Permutation_map _ Hperm). now rewrite map_nth_arange.
  - clear Hperm. induction Hsorted as [| i l Hs IH Hall]; [constructor |].
    apply Forall_cons_iff in Hbins. destruct Hbins as [Hi Hl].
    cbn [map]. constructor; [now apply IH |].
    apply Forall_forall. intros q Hin. apply in_map_iff in Hin.
    destruct Hin as [j [<- Hj]].
    apply quantity_order.
    rewrite Forall_forall in Hall, Hl. specialize (Hall j Hj). specialize (Hl j Hj).
    unfold sample, quantity in Hall.
    rewrite !(nth_indep _ 0%Q (quantity_of method sweep r_axis 0)) in Hall
      by (rewrite length_map; lia).
    rewrite !map_nth in Hall. exact Hall.
Qed.

(** ** numpy's sort of a few entries *)

Lemma store_at_app (l1 l2 : list Z) (a b : Z) :
  NpySort.store_at (l1 ++ a :: l2) (length l1) b = l1 ++ b :: l2.
Proof. induction l1 as [| y l1 IH]; simpl; [reflexivity | now rewrite IH]. Qed.

Lemma store_app (l1 l2 : list Z) (a b : Z) :
  NpySort.store (l1 ++ a :: l2) (Z.of_nat (length l1)) b = l1 ++ b :: l2.
Proof.
  unfold NpySort.store. destruct (Z.ltb_spec (Z.of_nat (length l1)) 0) as [H | _]; [lia |].
  rewrite Nat2Z.id. apply store_at_app.
Qed.

Lemma deref_app (l1 l2 : list Z) (a : Z) :
  NpySort.deref (l1 ++ a :: l2) (Z.of_nat (length l1)) = a.
Proof. unfold NpySort.deref. rewrite Nat2Z.id. now rewrite nth_middle. Qed.

Lemma deref_at (l1 l2 : list Z) (a n : Z) :
  n = Z.of_nat (length l1) -> NpySort.deref (l1 ++ a :: l2) n = a.
Proof. intros ->. apply deref_app. Qed.

Lemma store_at_pos (l1 l2 : list Z) (a b n : Z) :
  n = Z.of_nat (length l1) -> NpySort.store (l1 ++ a :: l2) n b = l1 ++ b :: l2.
Proof. intros ->. apply store_app. Qed.

Lemma insert_back_length (v : list Q) (x : Z) (placed : list Z) :
  length (insert_back v x placed) = S (length placed).
Proof.
  induction placed as [| y placed IH]; simpl; [reflexivity |].
  destruct (NpySort.less _ _); simpl; [now rewrite IH | reflexivity].
Qed.

Lemma insert_back_perm (v : list Q) (x : Z) (placed : list Z) :
  Permutation (x :: placed) (insert_back v x placed).
Proof.
  induction placed as [| y placed IH]; simpl; [reflexivity |].
  destruct (NpySort.less _ _); [| reflexivity].
  rewrite perm_swap. now apply perm_skip.
Qed.

(** The shifting loop and the store after it put [x] behind the entries that
    are not above it. *)
Lemma shift_up_insert (v : list Q) (x : Z) (placed : list Z) :
  forall (stale : Z) (rest : list Z) (fuel : nat),
    (length placed < fuel)%nat ->
    NpySort.store
      (snd (NpySort.shift_up fuel v (rev placed ++ stale :: rest) 0 (sample v x)
              (Z.of_nat (length placed))))
      (fst (NpySort.shift_up fuel v (rev placed ++ stale :: rest) 0 (sample v x)
              (Z.of_nat (length placed))))
      x
    = rev (insert_back v x placed) ++ rest.
Proof.
  induction placed as [| y placed IH]; intros stale rest fuel Hfuel;
    (destruct fuel as [| fuel]; [simpl in Hfuel; lia |]).
  - reflexivity.
  - cbn [NpySort.shift_up length rev insert_back].
    destruct (Z.ltb_spec 0 (Z.of_nat (S (length placed)))) as [_ | H]; [| lia].
    cbn [andb]. rewrite <- app_assoc. cbn [app].
    unfold NpySort.key.
    rewrite (@deref_at (rev placed) (stale :: rest) y) by (rewrite length_rev; lia).
    destruct (NpySort.less (sample v x) (sample v y)).
    + replace (rev placed ++ y :: stale :: rest) with ((rev placed ++ [y]) ++ stale :: rest)
        by (now rewrite <- app_assoc).
      rewrite (@store_at_pos (rev placed ++ [y]) rest stale y
                 (Z.of_nat (S (length placed))))
        by (rewrite length_app, length_rev; simpl; lia).
      rewrite <- app_assoc. cbn [app].
      replace (Z.of_nat (S (length placed)) - 1) with (Z.of_nat (length placed)) by lia.
      rewrite (IH y (y :: rest) fuel) by (simpl in Hfuel; lia).
      cbn [rev]. now rewrite <- app_assoc.
    + cbn [fst snd].
      replace (rev placed ++ y :: stale :: rest) with ((rev placed ++ [y]) ++ stale :: rest)
        by (now rewrite <- app_assoc).
      rewrite (@store_at_pos (rev placed ++ [y]) rest stale x
                 (Z.of_nat (S (length placed))))
        by (rewrite length_app, length_rev; simpl; lia).
      cbn [rev]. now rewrite <- !app_assoc.
Qed.

Lemma Zrange_cons (lo hi : Z) : lo < hi -> Zrange lo hi = lo :: Zrange (lo + 1) hi.
Proof.
  intros H. unfold Zrange.
  replace (Z.to_nat (hi - lo)) with (S (Z.to_nat (hi - (lo + 1)))) by lia.
  cbn [seq map]. f_equal; [lia |].
  rewrite <- seq_shift, map_map. apply map_ext. intros k. lia.
Qed.

Lemma Zrange_nil (lo hi : Z) : hi <= lo -> Zrange lo hi = [].
Proof. intros H. unfold Zrange. replace (Z.to_nat (hi - lo)) with 0%nat by lia. reflexivity. Qed.

(** The insertion sort of the index array, entry by entry. *)
Lemma insertion_sort_fold (v : list Q) (rest placed : list Z) :
  fold_left (fun tosort pi =>
               let vi := NpySort.deref tosort pi in
               let vp := sample v vi in
               let '(pj, tosort) := NpySort.shift_up (S (length tosort)) v tosort 0 vp pi in
               NpySort.store tosort pj vi)
    (Zrange (Z.of_nat (length placed)) (Z.of_nat (length placed) + Z.of_nat (length rest)))
    (rev placed ++ rest)
  = rev (fold_left (fun acc x => insert_back v x acc) rest placed).
Proof.
  revert placed. induction rest as [| x rest IH]; intros placed.
  - rewrite Zrange_nil by (cbn [length]; lia). cbn [fold_left]. now rewrite app_nil_r.
  - rewrite Zrange_cons by (cbn [length]; lia). cbn [fold_left].
    rewrite (@deref_at (rev placed) rest x) by (now rewrite length_rev).
    pose proof (@shift_up_insert v x placed x rest
                  (S (length (rev placed ++ x :: rest)))) as Hs.
    destruct (NpySort.shift_up _ v (rev placed ++ x :: rest) 0 (sample v x)
                (Z.of_nat (length placed))) as [pj tosort].
    cbn [fst snd] in Hs. rewrite Hs by (rewrite length_app, length_rev; simpl; lia).
    specialize (IH (insert_back v x placed)).
    rewrite insert_back_length in IH.
    replace (Z.of_nat (length placed) + 1) with (Z.of_nat (S (length placed))) by lia.
    replace (Z.of_nat (length placed) + Z.of_nat (length (x :: rest)))
      with (Z.of_nat (S (length placed)) + Z.of_nat (length rest)) by (cbn [length]; lia).
    exact IH.
Qed.

Lemma argsort_small (v : list Q) :
  (length v <= 17)%nat ->
  NpySort.argsort v
  = rev (fold_left (fun acc x => insert_back v x acc) (arange (length v)) []).
Proof.
  intros Hlen. unfold NpySort.argsort, NpySort.aquicksort.
  assert (Hal : length (arange (length v)) = length v)
    by (unfold arange; now rewrite length_map, length_seq).
  rewrite Hal.
  replace (2 * length v + 2)%nat with (S (2 * length v + 1)) by lia.
  cbn [NpySort.aquicksort_loop].
  assert (Hd : (NpySort.npy_get_msb (Z.of_nat (length v)) * 2 <? 0) = false).
  { apply Z.ltb_ge. unfold NpySort.npy_get_msb.
    pose proof (Z.log2_nonneg (Z.of_nat (length v))). lia. }
  rewrite Hd. cbn [andb].
  assert (Hs : (NpySort.SMALL_QUICKSORT <? Z.of_nat (length v) - 1 - 0) = false).
  { apply Z.ltb_ge. unfold NpySort.SMALL_QUICKSORT. lia. }
  rewrite Hs. unfold NpySort.insertion_sort.
  pose proof (@insertion_sort_fold v (arange (length v)) []) as Hf.
  cbn [length rev app] in Hf. rewrite Hal in Hf.
  destruct (length v) as [| n] eqn:En.
  - reflexivity.
  - change (arange (S n)) with (0 :: map Z.of_nat (seq 1 n)) in *.
    rewrite Zrange_cons in Hf by lia. cbn [fold_left] in Hf.
    replace (Z.of_nat (S n) - 1 + 1) with (0 + Z.of_nat (S n)) by lia.
    exact Hf.
Qed.

Lemma stable_order_le (ks : list Q) (i j : Z) :
  stable_order ks i j -> (sample ks i <= sample ks j)%Q.
Proof. intros [H | [H _]]; [now apply Qlt_le_weak | rewrite H; apply Qle_refl]. Qed.

Lemma le_stable_order (ks : list Q) (i j : Z) :
  (sample ks i <= sample ks j)%Q -> i < j -> stable_order ks i j.
Proof.
  intros Hle Hlt. apply Qle_lteq in Hle. destruct Hle as [H | H]; [now left | right; now split].
Qed.

Lemma insert_back_sorted (v : list Q) (x : Z) (placed : list Z) :
  StronglySorted (fun a b => stable_order v b a) placed ->
  Forall (fun y => y < x) placed ->
  StronglySorted (fun a b => stable_order v b a) (insert_back v x placed).
Proof.
  induction placed as [| y placed IH]; intros Hs Hlt; cbn [insert_back].
  - constructor; constructor.
  - apply StronglySorted_inv in Hs. destruct Hs as [Hs Hall].
    apply Forall_cons_iff in Hlt. destruct Hlt as [Hy Hlt].
    destruct (NpySort.less (sample v x) (sample v y)) eqn:E.
    + apply Qlt_bool_iff in E. constructor; [now apply IH |].
      apply (Permutation_Forall (insert_back_perm v x placed)).
      constructor; [now left | exact Hall].
    + apply Qlt_bool_false_iff in E. constructor; [now constructor |].
      constructor; [now apply le_stable_order |].
      rewrite Forall_forall in Hall, Hlt. apply Forall_forall. intros b Hb.
      apply le_stable_order; [| now apply Hlt].
      apply Qle_trans with (sample v y); [apply stable_order_le, Hall, Hb | exact E].
Qed.

Lemma fold_insert_back (v : list Q) (rest placed : list Z) :
  StronglySorted (fun a b => stable_order v b a) placed ->
  StronglySorted Z.lt rest ->
  Forall (fun y => Forall (fun z => y < z) rest) placed ->
  StronglySorted (fun a b => stable_order v b a)
    (fold_left (fun acc x => insert_back v x acc) rest placed)
  /\ Permutation (fold_left (fun acc x => insert_back v x acc) rest placed) (placed ++ rest).
Proof.
  revert placed. induction rest as [| x rest IH]; intros placed Hs Hrest Hlow; cbn [fold_left].
  - rewrite app_nil_r. now split.
  - apply StronglySorted_inv in Hrest. destruct Hrest as [Hrest Hx].
    destruct (IH (insert_back v x placed)) as [IH1 IH2].
    + apply insert_back_sorted; [exact Hs |].
      eapply Forall_impl; [| exact Hlow]. intros y Hy. now apply Forall_inv in Hy.
    + exact Hrest.
    + apply (Permutation_Forall (insert_back_perm v x placed)).
      constructor; [exact Hx |].
      eapply Forall_impl; [| exact Hlow]. intros y Hy. now apply Forall_inv_tail in Hy.
    + split; [exact IH1 |]. rewrite IH2, <- insert_back_perm.
      cbn [app]. apply Permutation_middle.
Qed.

Lemma arange_increasing (n : nat) : StronglySorted Z.lt (arange n).
Proof.
  unfold arange. generalize 0%nat as a.
  induction n as [| n IH]; intros a; cbn [seq map]; constructor; [apply IH |].
  apply Forall_forall. intros z Hz. apply in_map_iff in Hz. destruct Hz as [k [<- Hk]].
  apply in_seq in Hk. lia.
Qed.

Lemma sorted_rev (A : Type) (R : A -> A -> Prop) (l : list A) :
  StronglySorted (fun a b => R b a) l -> StronglySorted R (rev l).
Proof.
  induction 1 as [| x l Hs IH Hall]; cbn [rev]; [constructor |].
  assert (Hsnoc : forall l', StronglySorted R l' -> Forall (fun y => R y x) l' ->
                             StronglySorted R (l' ++ [x])).
  { induction 1 as [| z l' Hs' IH' Hall']; intros Hx; cbn [app].
    - constructor; constructor.
    - apply Forall_cons_iff in Hx. destruct Hx as [Hz Hx]. constructor; [now apply IH' |].
      apply Forall_app. split; [exact Hall' | now constructor]. }
  apply Hsnoc; [exact IH |]. apply Forall_rev. exact Hall.
Qed.

(** Up to 17 entries numpy's [argsort] is an insertion sort, and stable. *)
Lemma argsort_small_stable (v : list Q) :
  (length v <= 17)%nat ->
  Permutation (NpySort.argsort v) (arange (length v))
  /\ StronglySorted (stable_order v) (NpySort.argsort v).
Proof.
  intros Hlen. rewrite (argsort_small v Hlen).
  destruct (@fold_insert_back v (arange (length v)) []) as [Hs Hp];
    [constructor | apply arange_increasing | constructor |].
  split.
  - rewrite <- Permutation_rev. exact Hp.
  - apply sorted_rev. exact Hs.
Qed.

Lemma quantity_strict (method : PeakSorting) (sweep r_axis : list Q) (p q : Z) :
  (quantity_of method sweep r_axis p < quantity_of method sweep r_axis q)%Q ->
  strictly_before method sweep r_axis p q.
Proof.
  destruct method; unfold quantity_of, strictly_before, policy_key; intros H.
  - lra.
  - exact H.
  - set (x := (sample sweep p * (sample r_axis p * sample r_axis p))%Q).
    set (y := (sample sweep q * (sample r_axis q * sample r_axis q))%Q).
    assert (Hx : (- sample sweep p * (sample r_axis p * sample r_axis p) == - x)%Q)
      by (unfold x; ring).
    assert (Hy : (- sample sweep q * (sample r_axis q * sample r_axis q) == - y)%Q)
      by (unfold y; ring).
    rewrite Hx, Hy in H. lra.
  - set (x := (sample sweep p * sample r_axis p)%Q).
    set (y := (sample sweep q * sample r_axis q)%Q).
    assert (Hx : (- sample sweep p * sample r_axis p == - x)%Q) by (unfold x; ring).
    assert (Hy : (- sample sweep q * sample r_axis q == - y)%Q) by (unfold y; ring).
    rewrite Hx, Hy in H. lra.
Qed.

Lemma quantity_equal (method : PeakSorting) (sweep r_axis : list Q) (p q : Z) :
  (quantity_of method sweep r_axis p == quantity_of method sweep r_axis q)%Q ->
  (policy_key method sweep r_axis p == policy_key method sweep r_axis q)%Q.
Proof.
  destruct method; unfold quantity_of, policy_key; intros H.
  - lra.
  - exact H.
  - set (x := (sample sweep p * (sample r_axis p * sample r_axis p))%Q).
    set (y := (sample sweep q * (sample r_axis q * sample r_axis q))%Q).
    assert (Hx : (- sample sweep p * (sample r_axis p * sample r_axis p) == - x)%Q)
      by (unfold x; ring).
    assert (Hy : (- sample sweep q * (sample r_axis q * sample r_axis q) == - y)%Q)
      by (unfold y; ring).
    rewrite Hx, Hy in H. lra.
  - set (x := (sample sweep p * sample r_axis p)%Q).
    set (y := (sample sweep q * sample r_axis q)%Q).
    assert (Hx : (- sample sweep p * sample r_axis p == - x)%Q) by (unfold x; ring).
    assert (Hy : (- sample sweep q * sample r_axis q == - y)%Q) by (unfold y; ring).
    rewrite Hx, Hy in H. lra.
Qed.

Lemma sorted_impl_in (A : Type) (R R' : A -> A -> Prop) (l : list A) :
  (forall a b, In a l -> In b l -> R a b -> R' a b) ->
  StronglySorted R l -> StronglySorted R' l.
Proof.
  intros Himp Hs. induction Hs as [| x l Hs IH Hall]; [constructor |].
  constructor.
  - apply IH. intros a b Ha Hb. apply Himp; now right.
  - rewrite Forall_forall in *. intros b Hb. apply Himp; [now left | now right | now apply Hall].
Qed.

(** With at most 17 peaks [sort_peaks] ranks them by the policy and leaves
    peaks of equal key in the order they came in. *)
Lemma sort_peaks_stable (method : PeakSorting) (r_axis : list Q) (peak_indexes : list Z)
  (sweep : list Q) :
  (length peak_indexes <= 17)%nat ->
  bins_of (length sweep) peak_indexes ->
  bins_of (length r_axis) peak_indexes ->
  exists order,
    sort_peaks NpySort.argsort (Some method) r_axis peak_indexes sweep
    = Ok (map (fun i => nth (Z.to_nat i) peak_indexes 0) order)
    /\ Permutation order (arange (length peak_indexes))
    /\ StronglySorted (stable_policy_order method sweep r_axis peak_indexes) order.
Proof.
  intros Hfew Hsweep Hr. unfold sort_peaks.
  rewrite (mapM_getitem sweep 0%Q Hsweep), (mapM_getitem r_axis 0%Q Hr). cbn [bind].
  set (quantity := map (quantity_of method sweep r_axis) peak_indexes).
  assert (Hq : match method with
               | CLOSEST => Ok (map (fun i => nth (Z.to_nat i) r_axis 0%Q) peak_indexes)
               | STRONGEST =>
                   Ok (map Qopp (map (fun i => nth (Z.to_nat i) sweep 0%Q) peak_indexes))
               | STRONGEST_REFLECTOR =>
                   Ok (zip_with (fun a x => (- a * (x * x))%Q)
                         (map (fun i => nth (Z.to_nat i) sweep 0%Q) peak_indexes)
                         (map (fun i => nth (Z.to_nat i) r_axis 0%Q) peak_indexes))
               | STRONGEST_FLAT_REFLECTOR =>
                   Ok (zip_with (fun a x => (- a * x)%Q)
                         (map (fun i => nth (Z.to_nat i) sweep 0%Q) peak_indexes)
                         (map (fun i => nth (Z.to_nat i) r_axis 0%Q) peak_indexes))
               end = Ok quantity).
  { unfold quantity. destruct method; rewrite ?zip_with_map, ?map_map; reflexivity. }
  rewrite Hq. cbn [bind]. clear Hq.
  assert (Hlen : length quantity = length peak_indexes) by apply length_map.
  destruct (@argsort_small_stable quantity ltac:(lia)) as [Hperm Hsorted].
  rewrite Hlen in Hperm.
  assert (Hbins : bins_of (length peak_indexes) (NpySort.argsort quantity)).
  { apply (Permutation_Forall (Permutation_sym Hperm)), arange_bins. }
  rewrite (mapM_getitem peak_indexes 0 Hbins).
  exists (NpySort.argsort quantity). split; [reflexivity | split; [exact Hperm |]].
  assert (Hsample : forall i, 0 <= i < Z.of_nat (length peak_indexes) ->
                              sample quantity i
                              = quantity_of method sweep r_axis
                                  (nth (Z.to_nat i) peak_indexes 0)).
  { intros i Hi. unfold sample, quantity.
    rewrite (nth_indep _ 0%Q (quantity_of method sweep r_axis 0))
      by (rewrite length_map; lia).
    apply map_nth. }
  unfold bins_of in Hbins. rewrite Forall_forall in Hbins.
  apply (sorted_impl_in (R := stable_order quantity)); [| exact Hsorted].
  intros i j Hi Hj. unfold stable_order, stable_policy_order.
  rewrite !Hsample by (apply Hbins; assumption).
  intros [Hlt | [Heq Hij]].
  - left. now apply quantity_strict.
  - right. split; [now apply quantity_equal | exact Hij].
Qed.

(** C5, as the code has it.  With an [argsort] that keeps numpy's promise,
    and for every policy and every list of peak bins, [sort_peaks] returns
    the peaks rearranged in the order of the policy (CLOSEST: distance
    ascending; STRONGEST: amplitude descending; STRONGEST_REFLECTOR:
    amplitude x distance^2 descending; STRONGEST_FLAT_REFLECTOR: amplitude x
    distance descending).  Of two peaks at 1 m and 2 m with the same positive
    amplitude, STRONGEST_REFLECTOR puts the 2 m peak first and CLOSEST the
    1 m peak.  The order of peaks with equal keys is left to [argsort]: the
    sort numpy runs leaves them in the order they came in when there are at
    most 17 peaks. *)
Theorem sort_peaks_by_policy (argsort : list Q -> list Z) :
  argsort_spec argsort ->
  (forall method r_axis peak_indexes sweep,
      bins_of (length sweep) peak_indexes ->
      bins_of (length r_axis) peak_indexes ->
      exists out,
        sort_peaks argsort (Some method) r_axis peak_indexes sweep = Ok out
        /\ Permutation out peak_indexes
        /\ StronglySorted (in_policy_order method sweep r_axis) out)
  /\ (forall r_axis sweep p q,
         bins_of (length sweep) [p; q] ->
         bins_of (length r_axis) [p; q] ->
         (sample r_axis p == 1)%Q -> (sample r_axis q == 2)%Q ->
         (sample sweep p == sample sweep q)%Q -> (0 < sample sweep p)%Q ->
         sort_peaks argsort (Some STRONGEST_REFLECTOR) r_axis [p; q] sweep = Ok [q; p]
         /\ sort_peaks argsort (Some CLOSEST) r_axis [p; q] sweep = Ok [p; q])
  /\ (forall method r_axis peak_indexes sweep,
         (length peak_indexes <= 17)%nat ->
         bins_of (length sweep) peak_indexes ->
         bins_of (length r_axis) peak_indexes ->
         exists order,
           sort_peaks NpySort.argsort (Some method) r_axis peak_indexes sweep
           = Ok (map (fun i => nth (Z.to_nat i) peak_indexes 0) order)
           /\ Permutation order (arange (length peak_indexes))
           /\ StronglySorted (stable_policy_order method sweep r_axis peak_indexes) order).
Proof.
  intros Hspec. split; [| split; [| intros; now apply sort_peaks_stable]].
  - intros method r_axis peak_indexes sweep. now apply sort_peaks_sorted.
  - intros r_axis sweep p q Hsweep Hr Hp Hq Hamp Hpos. split.
    + destruct (@sort_peaks_sorted argsort STRONGEST_REFLECTOR r_axis [p; q] sweep
                  Hspec Hsweep Hr) as [out (Hout & Hperm & Hsorted)].
      rewrite Hout. f_equal.
      apply Permutation_sym, Permutation_length_2_inv in Hperm.
      destruct Hperm as [-> | ->]; [exfalso | reflexivity].
      apply StronglySorted_inv in Hsorted. destruct Hsorted as [_ Hall].
      apply Forall_inv in Hall. unfold in_policy_order, policy_key in Hall.
      rewrite Hp, Hq, <- Hamp in Hall. lra.
    + destruct (@sort_peaks_sorted argsort CLOSEST r_axis [p; q] sweep
                  Hspec Hsweep Hr) as [out (Hout & Hperm & Hsorted)].
      rewrite Hout. f_equal.
      apply Permutation_sym, Permutation_length_2_inv in Hperm.
      destruct Hperm as [-> | ->]; [reflexivity | exfalso].
      apply StronglySorted_inv in Hsorted. destruct Hsorted as [_ Hall].
      apply Forall_inv in Hall. unfold in_policy_order, policy_key in Hall.
      rewrite Hp, Hq in Hall. lra.
Qed.

Lemma sort_peaks_by_policy_witness :
  sort_peaks stable_argsort (Some STRONGEST_REFLECTOR) [1; 2]%Q [0; 1] [100; 100]%Q = Ok [1; 0]
  /\ sort_peaks stable_argsort (Some CLOSEST) [1; 2]%Q [0; 1] [100; 100]%Q = Ok [0; 1].
Proof.
  apply (proj1 (proj2 (sort_peaks_by_policy stable_argsort_spec)) [1; 2]%Q [100; 100]%Q 0 1);
    try (repeat constructor; simpl; lia); vm_compute; reflexivity.
Defined.

(** Three peaks of one amplitude under STRONGEST, sorted by numpy: they come
    back as they came. *)
Example few_equal_peaks_keep_their_order :
  sort_peaks NpySort.argsort (Some STRONGEST) [1; 2; 3; 4; 5]%Q [1; 2; 3] [0; 7; 7; 7; 0]%Q
  = Ok [1; 2; 3].
Proof. vm_compute. reflexivity. Qed.

(** C5, as the specification words it, fails for the order of equal keys.
    The sweep of 18 equal pulses has its peaks at bins 2, 6, ..., 70, all of
    amplitude 1000 and more than the merge radius apart, so [sort_peaks] is
    handed them in ascending order under one key.  numpy's quicksort
    partitions 18 entries once around the median of three, which swaps the
    entries on the two sides of the pivot, and then insertion-sorts the two
    halves, which moves nothing: under STRONGEST the peaks come back as
    2, 62, 58, ..., 6, 66, 70. *)
Lemma sort_peaks_ties_counterexample :
  find_peaks (pulse_train 18) (Some (fixed_curve 800 73)) = Ok (train_peaks 18)
  /\ py_round (PEAK_MERGE_LIMIT_M / ((8 # 1000) - (4 # 1000))) = 1
  /\ merge_peaks (train_peaks 18) 1 = Ok (train_peaks 18)
  /\ train_peaks 18 = [2; 6; 10; 14; 18; 22; 26; 30; 34; 38; 42; 46; 50; 54; 58; 62; 66; 70]
  /\ forallb (fun p => Qeq_bool (policy_key STRONGEST (pulse_train 18) (train_axis 73) p) 1000)
       (train_peaks 18) = true
  /\ NpySort.argsort (repeat (- (1000))%Q 18)
     = [0; 15; 14; 13; 12; 11; 10; 9; 8; 7; 6; 5; 4; 3; 2; 1; 16; 17]
  /\ sort_peaks NpySort.argsort (Some STRONGEST) (train_axis 73) (train_peaks 18)
       (pulse_train 18)
     = Ok [2; 62; 58; 54; 50; 46; 42; 38; 34; 30; 26; 22; 18; 14; 10; 6; 66; 70]
  /\ sort_peaks NpySort.argsort (Some STRONGEST) (train_axis 73) (train_peaks 18)
       (pulse_train 18)
     <> Ok (train_peaks 18).
Proof.
  repeat split; try (vm_compute; reflexivity).
  vm_compute. discriminate.
Qed.

(** The same through [process]: a processor on the 73-bin axis, completing a
    mean on every sweep, reports the 18 equal peaks in that order. *)
Example process_reorders_equal_peaks :
  exists self self' out,
    init 10 (example_config 1 800) 73 (train_axis 73) = Ok self
    /\ process NpySort.argsort self (pulse_train 18) = Ok (self', out)
    /\ out_found_peaks out
       = Some [2; 62; 58; 54; 50; 46; 42; 38; 34; 30; 26; 22; 18; 14; 10; 6; 66; 70].
Proof.
  eexists. eexists. eexists.
  split; [reflexivity |]. split; [vm_compute; reflexivity | reflexivity].
Qed.

(** Up to 17 entries numpy sorts by insertion alone and equal keys stay in
    index order: the counterexample needs 18 peaks. *)
Example argsort_of_few_equal_keys :
  NpySort.argsort [7; 7]%Q = [0; 1]
  /\ NpySort.argsort (repeat 7%Q 17) = arange 17
  /\ NpySort.argsort [3; 1; 2; 1; 3]%Q = [1; 3; 2; 0; 4].
Proof. repeat split; vm_compute; reflexivity. Qed.

(** ** The scan ends and reports bins of the sweep *)

Section ScanTotal.

Variable sweep : list Q.
Variable thr : list level.
Hypothesis same_length : length thr = length sweep.

Lemma walk_plateau_total (fuel : nat) (d u : Z) :
  1 <= d < u -> u <= Z.of_nat (length sweep) - 1 ->
  Z.of_nat (length sweep) <= Z.of_nat fuel + u ->
  exists u' pk,
    walk_plateau fuel sweep thr (Z.of_nat (length sweep)) d u = Ok (u', pk)
    /\ u <= u' <= Z.of_nat (length sweep) - 1
    /\ bins_of (length sweep) pk.
Proof.
  revert u. induction fuel as [| fuel IH]; intros u Hd Hu Hfuel; [lia |].
  cbn [walk_plateau].
  destruct (Z.geb_spec u (Z.of_nat (length sweep) - 1)) as [Hge | Hlt].
  { exists u, []. repeat split; try lia. constructor. }
  rewrite (getitem_nth thr None) by lia.
  rewrite !(getitem_nth sweep 0%Q) by lia. cbn [bind].
  destruct (isnan _); [exists u, []; repeat split; try lia; constructor |].
  destruct (le_level _ _); [exists u, []; repeat split; try lia; constructor |].
  destruct (Qlt_bool _ _); [exists u, []; repeat split; try lia; constructor |].
  destruct (Qlt_bool _ _).
  - exists u. eexists. split; [reflexivity |]. split; [lia |].
    cbv zeta. fold (ceil_half (u - d - 1)). rewrite ceil_half_pred by lia.
    constructor; [| constructor].
    assert (0 <= (u - d) / 2) by (apply Z.div_pos; lia).
    assert ((u - d) / 2 < u - d) by (apply Z.div_lt; lia).
    lia.
  - destruct (IH (u + 1)) as [u' [pk (Hw & Hu' & Hpk)]]; try lia.
    exists u', pk. repeat split; try assumption; lia.
Qed.

Lemma find_peaks_loop_total (fuel : nat) (d : Z) (found : list Z) :
  1 <= d <= Z.of_nat (length sweep) ->
  Z.of_nat (length sweep) + 1 <= Z.of_nat fuel + d ->
  bins_of (length sweep) found ->
  exists peaks,
    find_peaks_loop fuel sweep thr (Z.of_nat (length sweep)) d found = Ok peaks
    /\ bins_of (length sweep) peaks.
Proof.
  revert d found. induction fuel as [| fuel IH]; intros d found Hd Hfuel Hfound; [lia |].
  cbn [find_peaks_loop].
  destruct (Z.ltb_spec d (Z.of_nat (length sweep) - 1)) as [Hlt | Hge];
    [| now exists found].
  rewrite !(getitem_nth thr None) by lia.
  rewrite !(getitem_nth sweep 0%Q) by lia. cbn [bind].
  destruct (isnan _); [apply IH; [lia | lia | assumption] |].
  destruct (isnan _); [now exists found |].
  destruct (le_level _ _); [apply IH; [lia | lia | assumption] |].
  destruct (le_level _ _); [apply IH; [lia | lia | assumption] |].
  destruct (Qle_bool _ _); [apply IH; [lia | lia | assumption] |].
  destruct (@walk_plateau_total (S (length sweep)) d (d + 1)) as [u' [pk (Hw & Hu' & Hpk)]];
    try lia.
  rewrite Hw. cbn [bind]. apply IH; try lia.
  apply Forall_app. split; assumption.
Qed.

Lemma find_peaks_total :
  exists peaks, find_peaks sweep (Some thr) = Ok peaks /\ bins_of (length sweep) peaks.
Proof.
  unfold find_peaks. destruct (forallb isnan thr).
  - exists []. split; [reflexivity | constructor].
  - destruct (Nat.eq_dec (length sweep) 0) as [E | E].
    + exists []. split; [| constructor]. rewrite E. reflexivity.
    + apply find_peaks_loop_total; [lia | lia | constructor].
Qed.

End ScanTotal.

(** The fuel is enough whatever the threshold curve is. *)
Lemma walk_plateau_fuel (sweep : list Q) (thr : list level) (fuel : nat) (d u : Z) :
  u <= Z.of_nat (length sweep) - 1 ->
  Z.of_nat (length sweep) <= Z.of_nat fuel + u ->
  match walk_plateau fuel sweep thr (Z.of_nat (length sweep)) d u with
  | Ok (u', _) => u <= u' <= Z.of_nat (length sweep) - 1
  | Raise _ => True
  | OutOfFuel => False
  end.
Proof.
  revert u. induction fuel as [| fuel IH]; intros u Hu Hfuel; [lia |].
  cbn [walk_plateau].
  destruct (Z.geb_spec u (Z.of_nat (length sweep) - 1)) as [Hge | Hlt]; [lia |].
  destruct (getitem_cases thr u) as [[t ->] | ->]; cbn [bind]; [| exact I].
  destruct (isnan t); [lia |].
  destruct (getitem_cases sweep u) as [[su ->] | ->]; cbn [bind]; [| exact I].
  destruct (le_level su t); [lia |].
  destruct (getitem_cases sweep d) as [[sd ->] | ->]; cbn [bind]; [| exact I].
  destruct (Qlt_bool sd su); [lia |].
  destruct (Qlt_bool su sd); [cbv zeta; lia |].
  specialize (IH (u + 1) ltac:(lia) ltac:(lia)).
  destruct (walk_plateau fuel sweep thr (Z.of_nat (length sweep)) d (u + 1))
    as [[u' pk] | e |]; [lia | exact I | exact IH].
Qed.

Lemma find_peaks_loop_fuel (sweep : list Q) (thr : list level) (fuel : nat) (d : Z)
  (found : list Z) :
  1 <= d <= Z.of_nat (length sweep) ->
  Z.of_nat (length sweep) + 1 <= Z.of_nat fuel + d ->
  find_peaks_loop fuel sweep thr (Z.of_nat (length sweep)) d found <> OutOfFuel.
Proof.
  revert d found. induction fuel as [| fuel IH]; intros d found Hd Hfuel; [lia |].
  cbn [find_peaks_loop].
  destruct (Z.ltb_spec d (Z.of_nat (length sweep) - 1)) as [Hlt | Hge]; [| discriminate].
  destruct (getitem_cases thr (d - 1)) as [[tp ->] | ->]; cbn [bind]; [| discriminate].
  destruct (isnan tp); [apply IH; lia |].
  destruct (getitem_cases thr (d + 1)) as [[tn ->] | ->]; cbn [bind]; [| discriminate].
  destruct (isnan tn); [discriminate |].
  destruct (getitem_cases sweep d) as [[sd ->] | ->]; cbn [bind]; [| discriminate].
  destruct (getitem_cases thr d) as [[td ->] | ->]; cbn [bind]; [| discriminate].
  destruct (le_level sd td); [apply IH; lia |].
  destruct (getitem_cases sweep (d - 1)) as [[sp ->] | ->]; cbn [bind]; [| discriminate].
  destruct (le_level sp tp); [apply IH; lia |].
  destruct (Qle_bool sd sp); [apply IH; lia |].
  pose proof (@walk_plateau_fuel sweep thr (S (length sweep)) d (d + 1)
                ltac:(lia) ltac:(lia)) as Hw.
  destruct (walk_plateau (S (length sweep)) sweep thr (Z.of_nat (length sweep)) d (d + 1))
    as [[u' pk] | e |]; cbn [bind]; [apply IH; lia | discriminate | contradiction].
Qed.

Lemma find_peaks_never_out_of_fuel (sweep : list Q) (threshold : option (list level)) :
  find_peaks sweep threshold <> OutOfFuel.
Proof.
  unfold find_peaks. destruct threshold as [thr |]; [| discriminate].
  destruct (forallb isnan thr); [discriminate |].
  destruct (Nat.eq_dec (length sweep) 0) as [E | E].
  - rewrite E. discriminate.
  - apply find_peaks_loop_fuel; lia.
Qed.

Lemma argmax_from_range (A : Type) (ltb : A -> A -> bool) (l : list A) (best : A)
  (ibest i : Z) :
  0 <= ibest < i ->
  0 <= argmax_from ltb best ibest i l < i + Z.of_nat (length l).
Proof.
  revert best ibest i. induction l as [| x l IH]; intros best ibest i Hi; simpl; [lia |].
  destruct (ltb best x).
  - specialize (IH x i (i + 1) ltac:(lia)). lia.
  - specialize (IH best ibest (i + 1) ltac:(lia)). lia.
Qed.

Lemma zip_with_length (A B C : Type) (g : A -> B -> C) (a : list A) (b : list B) :
  length a = length b -> length (zip_with g a b) = length a.
Proof.
  revert b. induction a as [| x a IH]; intros [| y b] H; simpl in *; try lia.
  now rewrite IH by lia.
Qed.

Lemma find_first_point_total (sweep : list Q) (thr : list level) :
  length thr = length sweep ->
  exists first,
    find_first_point_above_threshold sweep (Some thr) = Ok first
    /\ bins_of (length sweep) (match first with Some i => [i] | None => [] end).
Proof.
  intros Hlen. unfold find_first_point_above_threshold.
  destruct (forallb isnan thr); [exists None; split; [reflexivity | constructor] |].
  unfold broadcast2. rewrite <- Hlen, Nat.eqb_refl. cbn [bind].
  destruct (existsb _ _) eqn:Eany; cbn [negb];
    [| exists None; split; [reflexivity | constructor]].
  assert (Hzl : length (zip_with gt_level sweep thr) = length sweep)
    by (apply zip_with_length; lia).
  destruct (zip_with gt_level sweep thr) as [| b bs] eqn:Ez; [discriminate |].
  cbn [np_argmax bind]. eexists. split; [reflexivity |].
  constructor; [| constructor].
  pose proof (@argmax_from_range bool bool_ltb bs b 0 1 ltac:(lia)) as Hr.
  simpl in Hzl. lia.
Qed.

(** ** Merged peaks stay bins of the sweep *)

Lemma py_round_bounds (q : Q) (lo hi : Z) :
  (inject_Z lo <= q)%Q -> (q <= inject_Z hi)%Q -> lo <= py_round q <= hi.
Proof.
  intros Hlo Hhi.
  assert (Hf1 : lo <= Qfloor q).
  { rewrite <- (Qfloor_Z lo). now apply Qfloor_resp_le. }
  assert (Hf2 : Qfloor q <= hi).
  { rewrite <- (Qfloor_Z hi). now apply Qfloor_resp_le. }
  assert (Hup : (1 # 2 <= q - inject_Z (Qfloor q))%Q -> Qfloor q + 1 <= hi).
  { intros Hhalf. destruct (Z.eq_dec (Qfloor q) hi) as [E | E]; [| lia].
    exfalso. rewrite E in Hhalf. lra. }
  unfold py_round.
  destruct (Qlt_bool (q - inject_Z (Qfloor q)) (1 # 2)) eqn:E1; [lia |].
  apply Qlt_bool_false_iff in E1. specialize (Hup E1).
  destruct (Qlt_bool (1 # 2) (q - inject_Z (Qfloor q))); [lia |].
  destruct (Z.even (Qfloor q)); lia.
Qed.

Lemma sumZ_bounds (xs : list Z) (lo hi : Z) :
  Forall (fun x => lo <= x <= hi) xs ->
  lo * Z.of_nat (length xs) <= sumZ xs <= hi * Z.of_nat (length xs).
Proof.
  induction 1 as [| x xs Hx _ IH]; [simpl; lia |].
  cbn [sumZ fold_right length]. fold (sumZ xs). lia.
Qed.

Lemma np_mean_bounds (xs : list Z) (lo hi : Z) :
  xs <> [] ->
  Forall (fun x => lo <= x <= hi) xs ->
  (inject_Z lo <= np_mean xs)%Q /\ (np_mean xs <= inject_Z hi)%Q.
Proof.
  intros Hne Hall. pose proof (sumZ_bounds Hall) as [H1 H2].
  assert (Hn : (0 < inject_Z (Z.of_nat (length xs)))%Q).
  { change 0%Q with (inject_Z 0). rewrite <- Zlt_Qlt. destruct xs; [congruence | simpl; lia]. }
  unfold np_mean. split.
  - apply Qle_shift_div_l; [exact Hn |]. rewrite <- inject_Z_mult, <- Zle_Qle. exact H1.
  - apply Qle_shift_div_r; [exact Hn |]. rewrite <- inject_Z_mult, <- Zle_Qle. exact H2.
Qed.

Lemma spec_round_bins (radius : Q) (n : nat) (l : list Z) :
  l <> [] -> 1 < max_neighbor_count radius l ->
  bins_of n l -> bins_of n (spec_round radius l).
Proof.
  intros Hne Hgt Hbins.
  destruct (spec_round_shrinks radius Hne Hgt) as [peak (Hc & _ & H2 & _)].
  unfold spec_round. rewrite Hc.
  apply (Permutation_Forall (list_sort_perm _)).
  apply Forall_app. split.
  - unfold bins_of in *. rewrite Forall_forall in *. intros x Hx.
    apply filter_In in Hx. now apply Hbins.
  - constructor; [| constructor].
    assert (Hsub : Forall (fun x => 0 <= x <= Z.of_nat n - 1) (filter (within radius peak) l)).
    { unfold bins_of in Hbins. rewrite Forall_forall in *. intros x Hx.
      apply filter_In in Hx. destruct Hx as [Hx _]. specialize (Hbins x Hx). lia. }
    assert (Hnonempty : filter (within radius peak) l <> []).
    { intros E. rewrite E in H2. simpl in H2. lia. }
    destruct (np_mean_bounds Hnonempty Hsub) as [Hlo Hhi].
    pose proof (@py_round_bounds _ _ _ Hlo Hhi). lia.
Qed.

Lemma merges_to_bins (radius : Q) (n : nat) (l out : list Z) :
  merges_to radius l out -> l <> [] -> bins_of n l -> out <> [] /\ bins_of n out.
Proof.
  induction 1 as [l Hle | l out Hgt Hm IH]; intros Hne Hbins; [now split |].
  apply IH.
  - destruct (spec_round_shrinks radius Hne Hgt) as [peak (_ & _ & _ & _ & _ & H)]. exact H.
  - now apply spec_round_bins.
Qed.

Lemma merge_peaks_total (radius : Q) (n : nat) (l : list Z) :
  l <> [] -> bins_of n l ->
  exists out, merge_peaks l radius = Ok out /\ out <> [] /\ bins_of n out.
Proof.
  intros Hne Hbins.
  destruct (@merge_loop_merges_to radius (S (length l)) l Hne ltac:(lia)) as [out [Hout Hm]].
  exists out. split; [exact Hout |]. eapply merges_to_bins; eassumption.
Qed.

(** ** Histories *)

Lemma entries_app (a a' : list Z) (b b' : list Q) :
  length a = length b -> entries (a ++ a') (b ++ b') = entries a b ++ entries a' b'.
Proof.
  unfold entries. revert b. induction a as [| x a IH]; intros [| y b] H; simpl in *; try lia.
  - reflexivity.
  - now rewrite IH by lia.
Qed.

Lemma entries_const (c : Z) (l : list Q) :
  entries (map (fun _ => c) l) l = map (pair c) l.
Proof. unfold entries. induction l as [| x l IH]; simpl; [reflexivity | now rewrite IH]. Qed.

(** The popping loop of the code is the eviction of the specification. *)
Lemma evict_drop_old (current : Z) (horizon : Q) (idx : list Z) (dist : list Q) :
  length idx = length dist ->
  exists idx' dist',
    evict current horizon idx dist = Ok (idx', dist')
    /\ length idx' = length dist'
    /\ entries idx' dist' = drop_old current horizon (entries idx dist).
Proof.
  revert dist. induction idx as [| i idx IH]; intros [| x dist] Hlen; simpl in Hlen; try lia.
  - exists [], []. repeat split.
  - cbn [evict entries combine drop_old fst].
    destruct (Qlt_bool horizon (inject_Z (current - i))).
    + apply IH. lia.
    + exists (i :: idx), (x :: dist). repeat split. simpl. lia.
Qed.

(** After an eviction no entry of a history in sweep order is older than the
    horizon. *)
Lemma evict_recent (current : Z) (horizon : Q) (idx : list Z) (dist : list Q) :
  length idx = length dist ->
  StronglySorted Z.le idx ->
  exists idx' dist',
    evict current horizon idx dist = Ok (idx', dist')
    /\ Forall (fun i => (inject_Z (current - i) <= horizon)%Q) idx'.
Proof.
  intros Hlen Hs. revert dist Hlen.
  induction Hs as [| i idx Hs IH Hall]; intros [| x dist] Hlen; simpl in Hlen; try lia.
  - exists [], []. split; [reflexivity | constructor].
  - cbn [evict]. destruct (Qlt_bool horizon (inject_Z (current - i))) eqn:E.
    + apply IH. lia.
    + apply Qlt_bool_false_iff in E. exists (i :: idx), (x :: dist).
      split; [reflexivity |]. constructor; [exact E |].
      eapply Forall_impl; [| exact Hall]. intros j Hj. cbv beta in *.
      eapply Qle_trans; [| exact E]. rewrite <- Zle_Qle. lia.
Qed.

(** ** One emission *)

Section Emission.

Variable argsort : list Q -> list Z.
Hypothesis argsort_ok : argsort_spec argsort.

Variable self : state.
Variable mean_sweep : list Q.
Variable threshold : list level.

Hypothesis threshold_length : length threshold = length mean_sweep.
Hypothesis mean_length : length mean_sweep = length (r self).
Hypothesis known_sorting : peak_sorting_method self <> None.
Hypothesis main_lengths :
  length (main_peak_hist_sweep_idx self) = length (main_peak_hist_dist self).
Hypothesis minor_lengths :
  length (minor_peaks_hist_sweep_idx self) = length (minor_peaks_hist_dist self).
Hypothesis above_lengths :
  length (above_thres_hist_sweep_idx self) = length (above_thres_hist_dist self).

(** Finding, merging and sorting give bins of the distance axis. *)
Lemma ranked_peaks_total (found : list Z) :
  bins_of (length mean_sweep) found ->
  exists ranked,
    (if 1 <? Z.of_nat (length found) then
       merged <- merge_peaks found (inject_Z (py_round (PEAK_MERGE_LIMIT_M / dr self))) ;;
       sort_peaks argsort (peak_sorting_method self) (r self) merged mean_sweep
     else Ok found) = Ok ranked
    /\ bins_of (length (r self)) ranked.
Proof.
  intros Hfound.
  destruct (Z.ltb_spec 1 (Z.of_nat (length found))) as [Hlt | Hge].
  - assert (Hne : found <> []) by (intros ->; simpl in Hlt; lia).
    destruct (@merge_peaks_total (inject_Z (py_round (PEAK_MERGE_LIMIT_M / dr self)))
                (length mean_sweep) found Hne Hfound) as [merged (Hm & _ & Hbins)].
    rewrite Hm. cbn [bind].
    destruct (peak_sorting_method self) as [method |]; [| congruence].
    destruct (@sort_peaks_sorted argsort method (r self) merged mean_sweep argsort_ok Hbins)
      as [out (Hout & Hperm & _)]; [now rewrite <- mean_length |].
    exists out. split; [exact Hout |].
    rewrite <- mean_length. apply (Permutation_Forall (Permutation_sym Hperm)), Hbins.
  - exists found. split; [reflexivity | now rewrite <- mean_length].
Qed.

Lemma detect_and_record_total :
  exists found hist main minor above,
    detect_and_record argsort self mean_sweep threshold = Ok (found, hist)
    /\ (length main <= 1)%nat /\ (length above <= 1)%nat
    /\ entries (h_main_idx hist) (h_main_dist hist)
       = drop_old (sweep_index self) (history_length_s self * f self)
           (entries (main_peak_hist_sweep_idx self) (main_peak_hist_dist self)
            ++ map (pair (sweep_index self)) main)
    /\ entries (h_minor_idx hist) (h_minor_dist hist)
       = drop_old (sweep_index self) (history_length_s self * f self)
           (entries (minor_peaks_hist_sweep_idx self) (minor_peaks_hist_dist self)
            ++ map (pair (sweep_index self)) minor)
    /\ entries (h_above_idx hist) (h_above_dist hist)
       = drop_old (sweep_index self) (history_length_s self * f self)
           (entries (above_thres_hist_sweep_idx self) (above_thres_hist_dist self)
            ++ map (pair (sweep_index self)) above)
    /\ length (h_main_idx hist) = length (h_main_dist hist)
    /\ length (h_minor_idx hist) = length (h_minor_dist hist)
    /\ length (h_above_idx hist) = length (h_above_dist hist).
Proof.
  unfold detect_and_record.
  destruct (@find_first_point_total mean_sweep threshold threshold_length)
    as [first [Hfirst Hfirst_bin]].
  rewrite Hfirst. cbn [bind].
  destruct (@find_peaks_total mean_sweep threshold threshold_length) as [found0 [Hfound0 Hbins0]].
  rewrite Hfound0. cbn [bind].
  destruct (ranked_peaks_total Hbins0) as [found [Hranked Hbins]].
  rewrite Hranked. cbn [bind]. clear Hranked Hfound0 Hfirst.
  set (cur := sweep_index self). set (hor := (history_length_s self * f self)%Q).
  (* the main peak *)
  assert (Hmain : exists main,
             match found with
             | [] => Ok (main_peak_hist_sweep_idx self, main_peak_hist_dist self)
             | p :: _ =>
                 x <- getitem (r self) p ;;
                 Ok (main_peak_hist_sweep_idx self ++ [cur], main_peak_hist_dist self ++ [x])
             end
             = Ok (main_peak_hist_sweep_idx self ++ map (fun _ => cur) main,
                   main_peak_hist_dist self ++ main)
             /\ (length main <= 1)%nat).
  { destruct found as [| p rest].
    - exists []. rewrite !app_nil_r. split; [reflexivity | simpl; lia].
    - apply Forall_inv in Hbins. rewrite (getitem_nth (r self) 0%Q) by exact Hbins.
      eexists [_]. split; [reflexivity | simpl; lia]. }
  destruct Hmain as [main [Hmain Hmain1]]. rewrite Hmain. cbn [bind]. clear Hmain.
  (* the minor peaks *)
  assert (Htl : bins_of (length (r self)) (tl found)).
  { destruct found as [| p rest]; [constructor | now apply Forall_inv_tail in Hbins]. }
  rewrite (mapM_getitem (r self) 0%Q Htl). cbn [bind].
  set (minor := map (fun i => nth (Z.to_nat i) (r self) 0%Q) (tl found)).
  (* the first point above the threshold *)
  assert (Habove : exists above,
             match first with
             | None => Ok (above_thres_hist_sweep_idx self, above_thres_hist_dist self)
             | Some i =>
                 x <- getitem (r self) i ;;
                 Ok (above_thres_hist_sweep_idx self ++ [cur],
                     above_thres_hist_dist self ++ [x])
             end
             = Ok (above_thres_hist_sweep_idx self ++ map (fun _ => cur) above,
                   above_thres_hist_dist self ++ above)
             /\ (length above <= 1)%nat).
  { destruct first as [i |].
    - apply Forall_inv in Hfirst_bin. rewrite mean_length in Hfirst_bin.
      rewrite (getitem_nth (r self) 0%Q) by exact Hfirst_bin.
      eexists [_]. split; [reflexivity | simpl; lia].
    - exists []. rewrite !app_nil_r. split; [reflexivity | simpl; lia]. }
  destruct Habove as [above [Habove Habove1]]. rewrite Habove. cbn [bind]. clear Habove.
  (* the three evictions *)
  destruct (@evict_drop_old cur hor
              (main_peak_hist_sweep_idx self ++ map (fun _ => cur) main)
              (main_peak_hist_dist self ++ main))
    as [i1 [d1 (He1 & Hl1 & Hd1)]];
    [rewrite !length_app, length_map; lia |].
  destruct (@evict_drop_old cur hor
              (minor_peaks_hist_sweep_idx self ++ map (fun _ => cur) minor)
              (minor_peaks_hist_dist self ++ minor))
    as [i2 [d2 (He2 & Hl2 & Hd2)]];
    [rewrite !length_app, length_map; lia |].
  destruct (@evict_drop_old cur hor
              (above_thres_hist_sweep_idx self ++ map (fun _ => cur) above)
              (above_thres_hist_dist self ++ above))
    as [i3 [d3 (He3 & Hl3 & Hd3)]];
    [rewrite !length_app, length_map; lia |].
  rewrite He1. cbn [bind]. rewrite He2. cbn [bind]. rewrite He3. cbn [bind].
  rewrite entries_app, entries_const in Hd1, Hd2, Hd3 by assumption.
  exists found. eexists. exists main, minor, above.
  split; [reflexivity |]. cbn [h_main_idx h_main_dist h_minor_idx h_minor_dist
                               h_above_idx h_above_dist].
  repeat split; assumption.
Qed.

End Emission.

(** ** One call of [process] *)

Lemma broadcast2_same_length (A B C : Type) (g : A -> B -> C) (a : list A) (b : list B) :
  length a = length b -> broadcast2 g a b = Ok (zip_with g a b).
Proof. intros H. unfold broadcast2. now rewrite H, Nat.eqb_refl. Qed.

Lemma bind_Ok_inv (A B : Type) (m : result A) (k : A -> result B) (b : B) :
  bind m k = Ok b -> exists a, m = Ok a /\ k a = Ok b.
Proof. destruct m as [a | e |]; simpl; intros H; [now exists a | discriminate | discriminate]. Qed.

Lemma fixed_curve_length (lvl : Q) (n : nat) : length (fixed_curve lvl n) = n.
Proof. apply repeat_length. Qed.

Section Call.

Variable argsort : list Q -> list Z.
Variable self : state.
Variable sweep : list Q.

(** A call that completes no mean. *)
Lemma process_accumulates :
  length sweep = length (current_mean_sweep self) ->
  threshold_type self = Some FIXED ->
  Qle_bool (nbr_average self) (inject_Z (sweeps_since_mean self + 1)) = false ->
  exists self' out,
    process argsort self sweep = Ok (self', out)
    /\ current_mean_sweep self' = folded self sweep
    /\ sweeps_since_mean self' = sweeps_since_mean self + 1
    /\ sweep_index self' = sweep_index self + 1
    /\ out_sweep_index out = sweep_index self
    /\ out_found_peaks out = None
    /\ histories_of self' = histories_of self
    /\ last_mean_sweep self' = last_mean_sweep self
    /\ r self' = r self /\ nbr_average self' = nbr_average self
    /\ threshold_type self' = threshold_type self
    /\ peak_sorting_method self' = peak_sorting_method self.
Proof.
  intros Hlen Hfixed Hno. unfold process, determine_threshold.
  rewrite broadcast2_same_length by exact Hlen. rewrite Hfixed. cbn [bind]. rewrite Hno.
  cbn [bind]. eexists. eexists. split; [reflexivity |].
  cbn. repeat split.
Qed.

Hypothesis argsort_ok : argsort_spec argsort.
Hypothesis self_ok : well_formed self.
Hypothesis sweep_length : length sweep = length (r self).

(** A call that completes a mean. *)
Lemma process_emits :
  Qle_bool (nbr_average self) (inject_Z (sweeps_since_mean self + 1)) = true ->
  exists self' out found main minor above,
    process argsort self sweep = Ok (self', out)
    /\ current_mean_sweep self' = map (fun x => (x * 0)%Q) (folded self sweep)
    /\ last_mean_sweep self' = map Some (folded self sweep)
    /\ sweeps_since_mean self' = 0
    /\ sweep_index self' = sweep_index self + 1
    /\ out_sweep_index out = sweep_index self
    /\ out_found_peaks out = Some found
    /\ (length main <= 1)%nat /\ (length above <= 1)%nat
    /\ entries (main_peak_hist_sweep_idx self') (main_peak_hist_dist self')
       = drop_old (sweep_index self) (history_length_s self * f self)
           (entries (main_peak_hist_sweep_idx self) (main_peak_hist_dist self)
            ++ map (pair (sweep_index self)) main)
    /\ entries (minor_peaks_hist_sweep_idx self') (minor_peaks_hist_dist self')
       = drop_old (sweep_index self) (history_length_s self * f self)
           (entries (minor_peaks_hist_sweep_idx self) (minor_peaks_hist_dist self)
            ++ map (pair (sweep_index self)) minor)
    /\ entries (above_thres_hist_sweep_idx self') (above_thres_hist_dist self')
       = drop_old (sweep_index self) (history_length_s self * f self)
           (entries (above_thres_hist_sweep_idx self) (above_thres_hist_dist self)
            ++ map (pair (sweep_index self)) above)
    /\ well_formed self'
    /\ r self' = r self /\ nbr_average self' = nbr_average self.
Proof.
  intros Hyes. destruct self_ok as (Hacc & Hfixed & Hsort & Hm & Hn & Ha).
  unfold process, determine_threshold.
  rewrite broadcast2_same_length by congruence. rewrite Hfixed. cbn [bind]. rewrite Hyes.
  fold (folded self sweep).
  assert (Hfold : length (folded self sweep) = length sweep)
    by (apply zip_with_length; congruence).
  destruct (@detect_and_record_total argsort argsort_ok self (folded self sweep)
              (fixed_curve (fixed_threshold_level self) (length sweep)))
    as [found [hist [main [minor [above (Hd & H1 & H2 & E1 & E2 & E3 & L1 & L2 & L3)]]]]];
    try assumption; try (rewrite ?fixed_curve_length; congruence).
  rewrite Hd. cbn [bind].
  eexists. eexists. exists found, main, minor, above. split; [reflexivity |].
  unfold well_formed. cbn. rewrite length_map.
  repeat split; try assumption; congruence.
Qed.

(** Under the session's invariant every call returns, and keeps the
    invariant. *)
Lemma process_step :
  exists self' out,
    process argsort self sweep = Ok (self', out)
    /\ well_formed self'
    /\ r self' = r self /\ nbr_average self' = nbr_average self
    /\ sweep_index self' = sweep_index self + 1
    /\ out_sweep_index out = sweep_index self
    /\ emitted out = Qle_bool (nbr_average self) (inject_Z (sweeps_since_mean self + 1))
    /\ sweeps_since_mean self'
       = (if emitted out then 0 else sweeps_since_mean self + 1)
    /\ (emitted out = true -> Forall (fun x => (x == 0)%Q) (current_mean_sweep self')).
Proof.
  destruct (Qle_bool (nbr_average self) (inject_Z (sweeps_since_mean self + 1))) eqn:E.
  - destruct (process_emits E)
      as [self' [out [found [main [minor [above
           (Hp & Hcur & _ & Hs & Hi & Ho & Hf & _ & _ & _ & _ & _ & Hwf & Hr & Hnb)]]]]]].
    exists self', out. unfold emitted. rewrite Hf, Hs.
    repeat (split; [assumption || reflexivity |]).
    intros _. rewrite Hcur. apply Forall_forall. intros y Hy.
    apply in_map_iff in Hy. destruct Hy as [x [<- _]]. ring.
  - destruct self_ok as (Hacc & Hfixed & Hsort & Hm & Hn & Ha).
    destruct (process_accumulates ltac:(congruence) Hfixed E)
      as [self' [out (Hp & Hcur & Hs & Hi & Ho & Hf & Hh & _ & Hr & Hnb & Ht & Hps)]].
    exists self', out. unfold emitted. rewrite Hf, Hs.
    split; [assumption |]. split.
    + unfold well_formed. rewrite Hcur, Hr, Ht, Hps.
      unfold histories_of in Hh. injection Hh as -> -> -> -> -> ->.
      repeat (split; [assumption |]).
      split; [| repeat (split; [assumption |]); assumption].
      unfold folded. rewrite zip_with_length; congruence.
    + repeat (split; [assumption || reflexivity |]). discriminate.
Qed.

End Call.

Lemma example_state_init (nbr lvl : Q) :
  init 10 (example_config nbr lvl) 5 example_axis = Ok (example_state nbr lvl).
Proof. reflexivity. Qed.

Lemma example_state_well_formed (nbr lvl : Q) : well_formed (example_state nbr lvl).
Proof. unfold well_formed. cbn. repeat split. discriminate. Qed.

(** C9.  A call that completes no mean (the count of sweeps since the last
    mean stays below [nbr_average]) leaves the three histories and the last
    completed mean sweep as they were, and the settings and the distance
    axis too; it changes the accumulator, the count and the sweep index only.
    Such a call returns whenever the sweep has the accumulator's length and
    the threshold is the fixed one. *)
Theorem process_without_emission_frame (argsort : list Q -> list Z) (self : state)
  (sweep : list Q) :
  (inject_Z (sweeps_since_mean self + 1) < nbr_average self)%Q ->
  (forall self' out,
      process argsort self sweep = Ok (self', out) ->
      frame_of self' = frame_of self
      /\ sweeps_since_mean self' = sweeps_since_mean self + 1
      /\ sweep_index self' = sweep_index self + 1
      /\ out_found_peaks out = None)
  /\ (length sweep = length (current_mean_sweep self) ->
      threshold_type self = Some FIXED ->
      exists self' out, process argsort self sweep = Ok (self', out)).
Proof.
  intros Hbelow. apply Qle_bool_false_iff in Hbelow. split.
  - intros self' out. unfold process.
    destruct (broadcast2 _ sweep (current_mean_sweep self)) as [mean | e |];
      cbn [bind]; try discriminate.
    destruct (determine_threshold self sweep) as [thr | e |]; cbn [bind]; try discriminate.
    rewrite Hbelow. cbn [bind]. intros H. injection H as <- <-.
    repeat split.
  - intros Hlen Hfixed.
    destruct (@process_accumulates argsort self sweep Hlen Hfixed Hbelow)
      as [self' [out [Hp _]]].
    now exists self', out.
Qed.

Lemma process_without_emission_frame_witness :
  exists self' out,
    process stable_argsort (example_state 5 800) [0; 900; 1000; 900; 0]%Q = Ok (self', out)
    /\ frame_of self' = frame_of (example_state 5 800)
    /\ sweeps_since_mean self' = 1
    /\ sweep_index self' = 1
    /\ out_found_peaks out = None.
Proof.
  destruct (@process_without_emission_frame stable_argsort (example_state 5 800)
              [0; 900; 1000; 900; 0]%Q) as [Hframe Hreturns]; [reflexivity |].
  destruct Hreturns as [self' [out Hp]]; [reflexivity | reflexivity |].
  exists self', out. split; [exact Hp |]. exact (Hframe self' out Hp).
Defined.

(** ** The threshold of a snapshot *)

Lemma process_threshold (argsort : list Q -> list Z) (self : state) (sweep : list Q)
  (self' : state) (out : out_data) :
  process argsort self sweep = Ok (self', out) ->
  out_threshold out = fixed_curve (fixed_threshold_level self) (length sweep)
  /\ fixed_threshold_level self' = fixed_threshold_level self.
Proof.
  unfold process.
  destruct (broadcast2 _ sweep (current_mean_sweep self)) as [mean | e |];
    cbn [bind]; try discriminate.
  unfold determine_threshold.
  destruct (threshold_type self) as [[ | | ] |]; cbn [bind]; try discriminate.
  destruct (Qle_bool _ _).
  - destruct (detect_and_record _ _ _ _) as [[found hist] | e |]; cbn [bind];
      try discriminate.
    intros H. injection H as <- <-. split; reflexivity.
  - cbn [bind]. intros H. injection H as <- <-. split; reflexivity.
Qed.

(** C7, as the code has it.  The threshold of a snapshot is computed in the
    call that returns it, from the fixed level set at that moment and the
    size of the sweep; [process] does not change the level.  So two calls in
    a row on sweeps of one size return the same curve when no setting was
    changed in between, and a level changed between two calls is the level
    of the very next snapshot, whether or not that call completes a mean. *)
Theorem snapshot_threshold_is_current (argsort : list Q -> list Z) (self : state)
  (sweep : list Q) (self' : state) (out : out_data) :
  process argsort self sweep = Ok (self', out) ->
  out_threshold out = fixed_curve (fixed_threshold_level self) (length sweep)
  /\ (forall sweep2 self2 out2,
         process argsort self' sweep2 = Ok (self2, out2) ->
         length sweep2 = length sweep ->
         out_threshold out2 = out_threshold out)
  /\ (forall processing_config sweep2 self2 out2,
         process argsort (update_processing_config self' processing_config) sweep2
         = Ok (self2, out2) ->
         out_threshold out2
         = fixed_curve (ProcessingConfiguration.fixed_threshold processing_config)
             (length sweep2)).
Proof.
  intros Hp. destruct (process_threshold _ _ _ Hp) as [Hthr Hlvl].
  split; [exact Hthr | split].
  - intros sweep2 self2 out2 Hp2 Hlen.
    destruct (process_threshold _ _ _ Hp2) as [Hthr2 _]. congruence.
  - intros cfg sweep2 self2 out2 Hp2.
    destruct (process_threshold _ _ _ Hp2) as [Hthr2 _]. exact Hthr2.
Qed.

Lemma snapshot_threshold_is_current_witness :
  exists self' out,
    process stable_argsort (example_state 5 800) [0; 900; 1000; 900; 0]%Q = Ok (self', out)
    /\ out_threshold out = fixed_curve 800 5.
Proof.
  assert (Hp : exists self' out,
             process stable_argsort (example_state 5 800) [0; 900; 1000; 900; 0]%Q
             = Ok (self', out))
    by (eexists; eexists; vm_compute; reflexivity).
  destruct Hp as [self' [out Hp]]. exists self', out. split; [exact Hp |].
  exact (proj1 (snapshot_threshold_is_current _ _ _ Hp)).
Defined.

(** C7, as the specification words it, fails: with [nbr_average = 5], the
    first call returns the curve at level 800; the level is set to 900; the
    second call, which completes no mean either, returns the curve at level
    900. *)
Lemma threshold_not_carried_counterexample :
  exists self1 out1 self2 out2,
    process stable_argsort (example_state 5 800) [0; 900; 1000; 900; 0]%Q = Ok (self1, out1)
    /\ process stable_argsort (update_processing_config self1 (example_config 5 900))
         [0; 900; 1000; 900; 0]%Q = Ok (self2, out2)
    /\ out_found_peaks out1 = None
    /\ out_found_peaks out2 = None
    /\ out_threshold out1 = fixed_curve 800 5
    /\ out_threshold out2 = fixed_curve 900 5
    /\ out_threshold out2 <> out_threshold out1.
Proof.
  do 4 eexists.
  split; [vm_compute; reflexivity |].
  split; [vm_compute; reflexivity |].
  repeat split; try reflexivity. cbn. discriminate.
Qed.

(** ** Settings without a computation *)

Lemma mapM_getitem_not_out_of_fuel (A : Type) (a : list A) (l : list Z) :
  (exists ys, mapM (getitem a) l = Ok ys) \/ mapM (getitem a) l = Raise IndexError.
Proof.
  induction l as [| i l IH]; [left; now exists [] |].
  cbn [mapM]. destruct (getitem_cases a i) as [[x ->] | ->]; [| now right].
  cbn [bind]. destruct IH as [[ys ->] | ->]; [left; now eexists | now right].
Qed.

Lemma sort_peaks_unknown (argsort : list Q -> list Z) (r_axis : list Q)
  (peak_indexes : list Z) (sweep : list Q) :
  sort_peaks argsort None r_axis peak_indexes sweep = Raise UnknownPeakSorting
  \/ sort_peaks argsort None r_axis peak_indexes sweep = Raise IndexError.
Proof.
  unfold sort_peaks.
  destruct (mapM_getitem_not_out_of_fuel sweep peak_indexes) as [[amp ->] | ->];
    [| now right].
  cbn [bind].
  destruct (mapM_getitem_not_out_of_fuel r_axis peak_indexes) as [[rs ->] | ->];
    [| now right].
  now left.
Qed.

(** A detection that returns under an unknown sorting method had nothing to
    sort. *)
Lemma detect_and_record_unsorted (argsort : list Q -> list Z) (self : state)
  (mean_sweep : list Q) (threshold : list level) (found : list Z) (hist : histories) :
  peak_sorting_method self = None ->
  detect_and_record argsort self mean_sweep threshold = Ok (found, hist) ->
  find_peaks mean_sweep (Some threshold) = Ok found /\ (length found <= 1)%nat.
Proof.
  intros Hnone. unfold detect_and_record.
  intros H. apply bind_Ok_inv in H. destruct H as [first [_ H]].
  apply bind_Ok_inv in H. destruct H as [found0 [Hfound0 H]].
  apply bind_Ok_inv in H. destruct H as [ranked [Hranked H]].
  destruct (Z.ltb_spec 1 (Z.of_nat (length found0))) as [Hlt | Hge].
  - exfalso. apply bind_Ok_inv in Hranked. destruct Hranked as [merged [_ Hsort]].
    rewrite Hnone in Hsort.
    destruct (sort_peaks_unknown argsort (r self) merged mean_sweep) as [E | E];
      rewrite E in Hsort; discriminate.
  - injection Hranked as <-.
    assert (Hfound : found = found0).
    { repeat (apply bind_Ok_inv in H; destruct H as [? [_ H]];
              repeat match goal with
                     | p : (_ * _)%type |- _ => destruct p
                     end;
              cbv beta iota in H).
      now injection H as <- _. }
    subst found0. split; [exact Hfound0 | lia].
Qed.

(** With at most one candidate neither the sorting method nor [argsort] is
    looked at. *)
Lemma detect_and_record_few (argsort argsort' : list Q -> list Z) (self : state)
  (method : option PeakSorting) (mean_sweep : list Q) (threshold : list level)
  (candidates : list Z) :
  find_peaks mean_sweep (Some threshold) = Ok candidates ->
  (length candidates <= 1)%nat ->
  detect_and_record argsort' (with_sorting self method) mean_sweep threshold
  = detect_and_record argsort self mean_sweep threshold.
Proof.
  intros Hfind Hle. unfold detect_and_record.
  destruct (find_first_point_above_threshold mean_sweep (Some threshold)) as [first | e |];
    cbn [bind]; try reflexivity.
  rewrite Hfind. cbn [bind].
  destruct (Z.ltb_spec 1 (Z.of_nat (length candidates))) as [Hlt | _]; [lia |].
  reflexivity.
Qed.

Section UnknownSorting.

Variable argsort : list Q -> list Z.
Variable self : state.
Variable sweep : list Q.
Variable candidates : list Z.

Hypothesis self_ok : well_formed_unsorted self.
Hypothesis sweep_length : length sweep = length (r self).
Hypothesis completes :
  (nbr_average self <= inject_Z (sweeps_since_mean self + 1))%Q.
Hypothesis found_candidates :
  find_peaks (folded self sweep)
    (Some (fixed_curve (fixed_threshold_level self) (length sweep))) = Ok candidates.

Lemma folded_length : length (folded self sweep) = length sweep.
Proof.
  destruct self_ok as (Hacc & _). unfold folded. apply zip_with_length. congruence.
Qed.

Lemma process_unknown_sorting_raises :
  (1 < length candidates)%nat -> process argsort self sweep = Raise UnknownPeakSorting.
Proof.
  intros Hmany. destruct self_ok as (Hacc & Hfixed & Hnone & _).
  pose proof folded_length as Hfold.
  unfold process, determine_threshold.
  rewrite broadcast2_same_length by congruence. rewrite Hfixed. cbn [bind].
  apply Qle_bool_iff in completes. rewrite completes.
  fold (folded self sweep). unfold detect_and_record.
  destruct (@find_first_point_total (folded self sweep)
              (fixed_curve (fixed_threshold_level self) (length sweep)))
    as [first [Hfirst _]]; [rewrite fixed_curve_length; congruence |].
  rewrite Hfirst. cbn [bind]. rewrite found_candidates. cbn [bind].
  destruct (Z.ltb_spec 1 (Z.of_nat (length candidates))) as [_ | Hge]; [| lia].
  destruct (@find_peaks_total (folded self sweep)
              (fixed_curve (fixed_threshold_level self) (length sweep)))
    as [peaks [Hpeaks Hbins]]; [rewrite fixed_curve_length; congruence |].
  assert (peaks = candidates) by congruence. subst peaks.
  assert (Hne : candidates <> []) by (intros ->; simpl in Hmany; lia).
  destruct (@merge_peaks_total (inject_Z (py_round (PEAK_MERGE_LIMIT_M / dr self)))
              (length (folded self sweep)) candidates Hne Hbins) as [merged (Hm & _ & Hmb)].
  rewrite Hm. cbn [bind]. rewrite Hnone. unfold sort_peaks.
  rewrite (mapM_getitem (folded self sweep) 0%Q Hmb).
  rewrite (mapM_getitem (r self) 0%Q) by (rewrite <- sweep_length, <- Hfold; exact Hmb).
  reflexivity.
Qed.

Lemma process_unknown_sorting_returns :
  (length candidates <= 1)%nat ->
  exists self' out,
    process argsort self sweep = Ok (self', out)
    /\ out_found_peaks out = Some candidates
    /\ well_formed_unsorted self'.
Proof.
  intros Hfew. destruct self_ok as (Hacc & Hfixed & Hnone & Hm & Hn & Ha).
  pose proof folded_length as Hfold.
  destruct (@detect_and_record_total stable_argsort stable_argsort_spec
              (with_sorting self (Some STRONGEST)) (folded self sweep)
              (fixed_curve (fixed_threshold_level self) (length sweep)))
    as [found [hist [main [minor [above (Hd & _ & _ & _ & _ & _ & L1 & L2 & L3)]]]]];
    try assumption;
    try (rewrite ?fixed_curve_length; cbn; congruence); try (cbn; discriminate).
  rewrite (@detect_and_record_few argsort stable_argsort self (Some STRONGEST) _ _ _
             found_candidates Hfew) in Hd.
  destruct (@detect_and_record_unsorted argsort self _ _ _ _ Hnone Hd) as [Hfound _].
  assert (found = candidates) by congruence. subst found.
  unfold process, determine_threshold.
  rewrite broadcast2_same_length by congruence. rewrite Hfixed. cbn [bind].
  apply Qle_bool_iff in completes. rewrite completes.
  fold (folded self sweep). rewrite Hd. cbn [bind].
  eexists. eexists. split; [reflexivity |]. split; [reflexivity |].
  unfold well_formed_unsorted. cbn. rewrite length_map.
  repeat split; try assumption; congruence.
Qed.

End UnknownSorting.

(** C6, as the code has it.  Nothing is checked when the processor is built:
    [__init__] returns whatever the sorting policy and the threshold type
    are, and stores them as given.  A sorting policy outside the enum makes
    [sort_peaks] raise, on every input; [process] calls it only on a call
    that completes a mean in which [find_peaks] reports more than one
    candidate, and that call raises.  With at most one candidate such a call
    returns and reports the candidates, and a call that completes no mean
    returns as well.  A threshold type other than FIXED makes every
    [process] call raise.  Neither setting is replaced by a default: the
    peaks a call returns under an unknown policy were not sorted. *)
Theorem unknown_settings_raise (argsort : list Q -> list Z) :
  (forall update_rate processing_config data_length range_depths,
      (2 <= length range_depths)%nat ->
      exists self,
        init update_rate processing_config data_length range_depths = Ok self
        /\ peak_sorting_method self
           = ProcessingConfiguration.peak_sorting_type processing_config
        /\ threshold_type self = ProcessingConfiguration.threshold_type processing_config)
  /\ (forall r_axis peak_indexes sweep,
         (exists e, sort_peaks argsort None r_axis peak_indexes sweep = Raise e)
         /\ (bins_of (length sweep) peak_indexes -> bins_of (length r_axis) peak_indexes ->
             sort_peaks argsort None r_axis peak_indexes sweep = Raise UnknownPeakSorting))
  /\ (forall self sweep candidates,
         well_formed_unsorted self ->
         length sweep = length (r self) ->
         (nbr_average self <= inject_Z (sweeps_since_mean self + 1))%Q ->
         find_peaks (folded self sweep)
           (Some (fixed_curve (fixed_threshold_level self) (length sweep))) = Ok candidates ->
         ((1 < length candidates)%nat ->
          process argsort self sweep = Raise UnknownPeakSorting)
         /\ ((length candidates <= 1)%nat ->
             exists self' out,
               process argsort self sweep = Ok (self', out)
               /\ out_found_peaks out = Some candidates
               /\ well_formed_unsorted self'))
  /\ (forall self sweep,
         well_formed_unsorted self ->
         length sweep = length (r self) ->
         (inject_Z (sweeps_since_mean self + 1) < nbr_average self)%Q ->
         exists self' out,
           process argsort self sweep = Ok (self', out)
           /\ out_found_peaks out = None
           /\ well_formed_unsorted self')
  /\ (forall self sweep,
         threshold_type self <> Some FIXED ->
         exists e, process argsort self sweep = Raise e)
  /\ (forall self sweep self' out found,
         peak_sorting_method self = None ->
         process argsort self sweep = Ok (self', out) ->
         out_found_peaks out = Some found ->
         (length found <= 1)%nat
         /\ exists mean,
             last_mean_sweep self' = map Some mean
             /\ find_peaks mean (Some (out_threshold out)) = Ok found).
Proof.
  split; [| split; [| split; [| split; [| split]]]].
  - intros update_rate cfg data_length range_depths Hlen. unfold init.
    rewrite !(getitem_nth range_depths 0%Q) by lia. cbn [bind].
    eexists. split; [reflexivity | split; reflexivity].
  - intros r_axis peak_indexes sweep. split.
    + destruct (sort_peaks_unknown argsort r_axis peak_indexes sweep) as [-> | ->];
        eexists; reflexivity.
    + intros Hs Hr. unfold sort_peaks.
      rewrite (mapM_getitem sweep 0%Q Hs), (mapM_getitem r_axis 0%Q Hr). reflexivity.
  - intros self sweep candidates Hok Hlen Hyes Hfind. split.
    + now apply process_unknown_sorting_raises with (candidates := candidates).
    + now apply process_unknown_sorting_returns.
  - intros self sweep (Hacc & Hfixed & Hnone & Hm & Hn & Ha) Hlen Hno.
    apply Qle_bool_false_iff in Hno.
    destruct (@process_accumulates argsort self sweep ltac:(congruence) Hfixed Hno)
      as [self' [out (Hp & Hcur & _ & _ & _ & Hf & Hh & _ & Hr & _ & Ht & Hps)]].
    exists self', out. split; [exact Hp |]. split; [exact Hf |].
    unfold well_formed_unsorted. rewrite Hcur, Hr, Ht, Hps.
    unfold histories_of in Hh. injection Hh as -> -> -> -> -> ->.
    repeat (split; [assumption |]).
    split; [| repeat (split; [assumption |]); assumption].
    unfold folded. rewrite zip_with_length; congruence.
  - intros self sweep Hnot. unfold process.
    destruct (broadcast2 _ sweep (current_mean_sweep self)) as [mean | e |] eqn:Eb;
      cbn [bind].
    + unfold determine_threshold.
      destruct (threshold_type self) as [[ | | ] |]; cbn [bind];
        try congruence; eexists; reflexivity.
    + now exists e.
    + exfalso. unfold broadcast2 in Eb.
      destruct (Nat.eqb _ _); [discriminate |].
      destruct sweep as [| x [| y sw]]; destruct (current_mean_sweep self) as [| m [| m' ms]];
        discriminate.
  - intros self sweep self' out found Hnone. unfold process.
    destruct (broadcast2 _ sweep (current_mean_sweep self)) as [mean | e |];
      cbn [bind]; try discriminate.
    destruct (determine_threshold self sweep) as [thr | e |]; cbn [bind]; try discriminate.
    destruct (Qle_bool _ _).
    + destruct (detect_and_record argsort self mean thr) as [[found0 hist] | e |] eqn:Ed;
        cbn [bind]; try discriminate.
      intros H. injection H as <- <-. cbn [out_found_peaks out_threshold last_mean_sweep].
      intros Hf. injection Hf as ->.
      destruct (@detect_and_record_unsorted argsort self _ _ _ _ Hnone Ed) as [Hfound Hle].
      split; [exact Hle |]. exists mean. split; [reflexivity | exact Hfound].
    + cbn [bind]. intros H. injection H as <- <-. discriminate.
Qed.

Lemma unknown_settings_raise_witness :
  exists self,
    init 10 (unknown_sorting_config 1 800) 9 (train_axis 9) = Ok self
    /\ find_peaks (folded self (pulse_train 2)) (Some (fixed_curve 800 9)) = Ok [2; 6]
    /\ process stable_argsort self (pulse_train 2) = Raise UnknownPeakSorting.
Proof.
  eexists. split; [reflexivity |]. split; [vm_compute; reflexivity |].
  apply (proj1 (proj2 (proj2 (unknown_settings_raise stable_argsort))) _ (pulse_train 2)
           [2; 6]).
  - unfold well_formed_unsorted. cbn. repeat split.
  - reflexivity.
  - apply Qle_bool_iff. reflexivity.
  - vm_compute. reflexivity.
  - simpl. lia.
Defined.

(** C6, as the specification words it, fails: with a sorting policy that is
    no member of the enum the processor is built without an error, and its
    first [process] call, on a sweep with one peak, returns without an error
    too, reports the peak at bin 2 and records it as the main peak. *)
Lemma unknown_policy_returns_counterexample :
  exists self self' out,
    init 10 (unknown_sorting_config 1 800) 5 example_axis = Ok self
    /\ peak_sorting_method self = None
    /\ process stable_argsort self (pulse_train 1) = Ok (self', out)
    /\ pulse_train 1 = [0; 900; 1000; 900; 0]%Q
    /\ out_found_peaks out = Some [2]
    /\ main_peak_hist_sweep_idx self' = [0]
    /\ main_peak_hist_dist self' = [3 # 10]%Q
    /\ peak_sorting_method self' = None.
Proof.
  eexists. eexists. eexists.
  split; [reflexivity |]. split; [reflexivity |].
  split; [vm_compute; reflexivity |].
  repeat split.
Qed.

(** The other unknown setting: with a threshold type that has no computation
    the processor is built without an error as well, and its first call
    raises. *)
Example unknown_threshold_type_raises :
  exists self,
    init 10
      {| ProcessingConfiguration.nbr_average := 1;
         ProcessingConfiguration.threshold_type := Some RECORDED;
         ProcessingConfiguration.fixed_threshold := 800;
         ProcessingConfiguration.peak_sorting_type := Some STRONGEST;
         ProcessingConfiguration.history_length_s := 2 |}
      5 example_axis = Ok self
    /\ process stable_argsort self (pulse_train 1) = Raise UnboundLocalError.
Proof. eexists. split; reflexivity. Qed.

(** ** Eviction *)

(** C3.  A call that completes a mean first appends to the three histories
    (at most one main peak, the minor peaks, at most one first point above
    the threshold, all under the current sweep index) and then drops entries
    from the head of each exactly while the current sweep index minus the
    head's sweep index is strictly greater than
    [history_length_s * update_rate]; an entry exactly at the horizon stays.
    At 10 Hz and 2 s an entry of sweep 5 is at the head still at sweep 25 and
    is gone at sweep 26. *)
Theorem history_eviction (argsort : list Q -> list Z) (self : state) (sweep : list Q) :
  argsort_spec argsort ->
  well_formed self ->
  length sweep = length (r self) ->
  (nbr_average self <= inject_Z (sweeps_since_mean self + 1))%Q ->
  (exists self' out main minor above,
      process argsort self sweep = Ok (self', out)
      /\ emitted out = true
      /\ (length main <= 1)%nat /\ (length above <= 1)%nat
      /\ entries (main_peak_hist_sweep_idx self') (main_peak_hist_dist self')
         = drop_old (sweep_index self) (history_length_s self * f self)
             (entries (main_peak_hist_sweep_idx self) (main_peak_hist_dist self)
              ++ map (pair (sweep_index self)) main)
      /\ entries (minor_peaks_hist_sweep_idx self') (minor_peaks_hist_dist self')
         = drop_old (sweep_index self) (history_length_s self * f self)
             (entries (minor_peaks_hist_sweep_idx self) (minor_peaks_hist_dist self)
              ++ map (pair (sweep_index self)) minor)
      /\ entries (above_thres_hist_sweep_idx self') (above_thres_hist_dist self')
         = drop_old (sweep_index self) (history_length_s self * f self)
             (entries (above_thres_hist_sweep_idx self) (above_thres_hist_dist self)
              ++ map (pair (sweep_index self)) above))
  /\ (forall current horizon i x h,
         (inject_Z (current - i) <= horizon)%Q ->
         drop_old current horizon ((i, x) :: h) = (i, x) :: h)
  /\ (forall idx dist x, evict 25 (2 * 10) (5 :: idx) (x :: dist) = Ok (5 :: idx, x :: dist))
  /\ (forall idx dist x,
         length idx = length dist -> StronglySorted Z.le (5 :: idx) ->
         exists idx' dist',
           evict 26 (2 * 10) (5 :: idx) (x :: dist) = Ok (idx', dist') /\ ~ In 5 idx').
Proof.
  intros Hspec Hwf Hlen Hemit. apply Qle_bool_iff in Hemit.
  split; [| split; [| split]].
  - destruct (@process_emits argsort self sweep Hspec Hwf Hlen Hemit)
      as [self' [out [found [main [minor [above
           (Hp & _ & _ & _ & _ & _ & Hf & H1 & H2 & E1 & E2 & E3 & _)]]]]]].
    exists self', out, main, minor, above. unfold emitted. rewrite Hf. auto 10.
  - intros current horizon i x h Hle. cbn [drop_old fst].
    apply Qlt_bool_false_iff in Hle. now rewrite Hle.
  - intros idx dist x. reflexivity.
  - intros idx dist x Hl Hs.
    destruct (@evict_recent 26 (2 * 10) (5 :: idx) (x :: dist)) as [idx' [dist' [He Hall]]];
      [simpl; lia | exact Hs |].
    exists idx', dist'. split; [exact He |].
    intros Hin. rewrite Forall_forall in Hall. specialize (Hall 5 Hin).
    revert Hall. vm_compute. intros H. now apply H.
Qed.

Lemma history_eviction_witness :
  exists self' out main minor above,
    process stable_argsort (example_state 1 800) [0; 900; 1000; 900; 0]%Q = Ok (self', out)
    /\ emitted out = true
    /\ (length main <= 1)%nat /\ (length above <= 1)%nat
    /\ entries (main_peak_hist_sweep_idx self') (main_peak_hist_dist self')
       = drop_old 0 (2 * 10) ([] ++ map (pair 0) main)
    /\ entries (minor_peaks_hist_sweep_idx self') (minor_peaks_hist_dist self')
       = drop_old 0 (2 * 10) ([] ++ map (pair 0) minor)
    /\ entries (above_thres_hist_sweep_idx self') (above_thres_hist_dist self')
       = drop_old 0 (2 * 10) ([] ++ map (pair 0) above).
Proof.
  apply (@history_eviction stable_argsort (example_state 1 800) [0; 900; 1000; 900; 0]%Q).
  - exact stable_argsort_spec.
  - apply example_state_well_formed.
  - reflexivity.
  - vm_compute. discriminate.
Defined.

(** The same on a whole call: the entry of sweep 5 is in the main history
    after the call at sweep 25 and not after the call at sweep 26. *)
Example eviction_at_the_horizon :
  (exists self' out,
      process stable_argsort (aged_state 25) (repeat 0%Q 5) = Ok (self', out)
      /\ main_peak_hist_sweep_idx self' = [5])
  /\ (exists self' out,
         process stable_argsort (aged_state 26) (repeat 0%Q 5) = Ok (self', out)
         /\ main_peak_hist_sweep_idx self' = []).
Proof.
  split; do 2 eexists; (split; [vm_compute; reflexivity | reflexivity]).
Qed.

(** ** The cadence of emissions *)

Lemma emits_iff (nbr : Q) (n m : Z) :
  (nbr == inject_Z n)%Q -> (Qle_bool nbr (inject_Z m) = true <-> n <= m).
Proof.
  intros Hn. rewrite Qle_bool_iff, Hn, <- Zle_Qle. reflexivity.
Qed.




(** Four calls with [nbr_average = 2]: the second and the fourth emit, and
    the mean emitted by the second is the mean of the first two sweeps. *)
Example cadence_of_two :
  exists trace,
    run stable_argsort (example_state 2 800)
      [[0; 900; 1000; 900; 0]; [0; 900; 1200; 900; 0]; [0; 0; 0; 0; 0];
       [0; 0; 0; 0; 0]]%Q = Ok trace
    /\ map (fun c => emitted (snd c)) trace = [false; true; false; true]
    /\ map (fun c => out_found_peaks (snd c)) trace = [None; Some [2]; None; Some []]
    /\ map (fun c => sweep_index (fst c)) trace = [1; 2; 3; 4].
Proof.
  eexists. split; [vm_compute; reflexivity |]. repeat split.
Qed.

(** * Further properties of the detector *)

(** ** The first point above the threshold *)

Lemma argmax_bool_true (l : list bool) (ibest i : Z) :
  argmax_from bool_ltb true ibest i l = ibest.
Proof.
  revert i. induction l as [| b l IH]; intros i; simpl; [reflexivity | apply IH].
Qed.

Lemma argmax_bool_false (l : list bool) (ibest i : Z) :
  existsb (fun b => b) l = true ->
  exists k,
    argmax_from bool_ltb false ibest i l = i + Z.of_nat k
    /\ (k < length l)%nat
    /\ nth k l false = true
    /\ forall j, (j < k)%nat -> nth j l false = false.
Proof.
  revert ibest i. induction l as [| b l IH]; intros ibest i Hany; [discriminate |].
  cbn [argmax_from]. destruct b; cbn [bool_ltb negb andb].
  - exists 0%nat. rewrite argmax_bool_true. repeat split; simpl; try lia.
  - simpl in Hany. destruct (IH ibest (i + 1) Hany) as [k (Hk & Hlt & Hnth & Hfirst)].
    exists (S k). rewrite Hk. repeat split; simpl; try lia; try assumption.
    intros [| j] Hj; [reflexivity | apply Hfirst; lia].
Qed.

Lemma nth_zip_with (A B C : Type) (g : A -> B -> C) (a : list A) (b : list B)
  (da : A) (db : B) (dc : C) (k : nat) :
  length a = length b -> (k < length a)%nat ->
  nth k (zip_with g a b) dc = g (nth k a da) (nth k b db).
Proof.
  revert b k. induction a as [| x a IH]; intros [| y b] k Hlen Hk; simpl in *; try lia.
  destruct k as [| k]; [reflexivity | apply IH; lia].
Qed.

Lemma existsb_false_nth (l : list bool) (k : nat) :
  existsb (fun b => b) l = false -> nth k l false = false.
Proof.
  revert k. induction l as [| b l IH]; intros k H; [now destruct k |].
  simpl in H. apply orb_false_iff in H. destruct H as [-> H].
  destruct k as [| k]; [reflexivity | now apply IH].
Qed.

(** The first point above the threshold is the first crossing. *)
Lemma first_point_crossing (sweep : list Q) (thr : list level) :
  length thr = length sweep ->
  exists first,
    find_first_point_above_threshold sweep (Some thr) = Ok first
    /\ match first with
       | Some i =>
           0 <= i < Z.of_nat (length sweep)
           /\ above sweep thr i
           /\ forall j, 0 <= j < i -> ~ above sweep thr j
       | None => forall j, 0 <= j < Z.of_nat (length sweep) -> ~ above sweep thr j
       end.
Proof.
  intros Hlen.
  assert (Hnth : forall j, 0 <= j < Z.of_nat (length sweep) ->
            gt_level (sample sweep j) (level_at thr j)
            = nth (Z.to_nat j) (zip_with gt_level sweep thr) false).
  { intros j Hj. unfold sample, level_at. symmetry.
    apply nth_zip_with; [congruence | lia]. }
  assert (Hzl : length (zip_with gt_level sweep thr) = length sweep)
    by (apply zip_with_length; congruence).
  unfold find_first_point_above_threshold.
  destruct (forallb isnan thr) eqn:Enan.
  { exists None. split; [reflexivity |]. intros j Hj. unfold above, level_at.
    rewrite forallb_forall in Enan.
    specialize (Enan (nth (Z.to_nat j) thr None)
                  ltac:(apply nth_In; lia)).
    destruct (nth (Z.to_nat j) thr None); [discriminate | simpl; discriminate]. }
  rewrite broadcast2_same_length by congruence. cbn [bind].
  destruct (existsb (fun b => b) (zip_with gt_level sweep thr)) eqn:Eany; cbn [negb].
  - destruct (zip_with gt_level sweep thr) as [| b bs] eqn:Ez; [discriminate |].
    cbn [np_argmax bind]. eexists. split; [reflexivity |].
    cbn [length] in Hzl. destruct b.
    + rewrite argmax_bool_true. split; [lia |]. split.
      * unfold above. rewrite Hnth by lia. reflexivity.
      * intros j Hj. lia.
    + simpl in Eany.
      destruct (@argmax_bool_false bs 0 1 Eany) as [k (Hk & Hlt & Hk1 & Hfirst)].
      rewrite Hk. split; [lia |]. split.
      * unfold above. rewrite Hnth by lia.
        replace (Z.to_nat (1 + Z.of_nat k)) with (S k) by lia. exact Hk1.
      * intros j Hj. unfold above. rewrite Hnth by lia.
        destruct (Z.to_nat j) as [| j'] eqn:Ej; [simpl; discriminate |].
        cbn [nth]. rewrite Hfirst by lia. discriminate.
  - exists None. split; [reflexivity |]. intros j Hj. unfold above.
    rewrite Hnth by lia. rewrite existsb_false_nth by exact Eany. discriminate.
Qed.

(** X1.  Against a threshold curve of the sweep's length,
    [find_first_point_above_threshold] returns the first bin whose amplitude
    is strictly above its threshold, and [None] exactly when no bin is (a NaN
    threshold is never exceeded). *)
Theorem first_point_is_first_crossing (sweep : list Q) (thr : list level) :
  length thr = length sweep ->
  exists first,
    find_first_point_above_threshold sweep (Some thr) = Ok first
    /\ match first with
       | Some i =>
           0 <= i < Z.of_nat (length sweep)
           /\ above sweep thr i
           /\ forall j, 0 <= j < i -> ~ above sweep thr j
       | None => forall j, 0 <= j < Z.of_nat (length sweep) -> ~ above sweep thr j
       end.
Proof. apply first_point_crossing. Qed.

Lemma first_point_is_first_crossing_witness :
  exists first,
    find_first_point_above_threshold [0; 700; 900; 1000; 0]%Q (Some (fixed_curve 800 5))
    = Ok first
    /\ match first with
       | Some i =>
           0 <= i < 5
           /\ above [0; 700; 900; 1000; 0]%Q (fixed_curve 800 5) i
           /\ forall j, 0 <= j < i -> ~ above [0; 700; 900; 1000; 0]%Q (fixed_curve 800 5) j
       | None => forall j, 0 <= j < 5 -> ~ above [0; 700; 900; 1000; 0]%Q (fixed_curve 800 5) j
       end.
Proof.
  apply (@first_point_is_first_crossing [0; 700; 900; 1000; 0]%Q (fixed_curve 800 5)).
  reflexivity.
Defined.

(** ** What the scan reports *)

Lemma gt_of_not_le (x : Q) (t : level) :
  isnan t = false -> le_level x t = false -> gt_level x t = true.
Proof.
  destruct t as [t |]; [intros _ | discriminate]. simpl. intros H.
  apply Qlt_bool_iff. now apply Qle_bool_false_iff.
Qed.

Lemma sorted_snoc (l : list Z) (p : Z) :
  StronglySorted Z.lt l -> Forall (fun q => q < p) l -> StronglySorted Z.lt (l ++ [p]).
Proof.
  induction 1 as [| x l Hs IH Hall]; intros Hlt; simpl.
  - constructor; constructor.
  - apply Forall_cons_iff in Hlt. destruct Hlt as [Hx Hl].
    constructor; [now apply IH |].
    apply Forall_app. split; [exact Hall | constructor; [exact Hx | constructor]].
Qed.

Section ScanSound.

Variable sweep : list Q.
Variable thr : list level.
Hypothesis same_length : length thr = length sweep.

Lemma walk_plateau_sound (fuel : nat) (d u : Z) :
  1 <= d < u -> u <= Z.of_nat (length sweep) - 1 ->
  Z.of_nat (length sweep) <= Z.of_nat fuel + u ->
  (forall i, d < i < u -> (sample sweep i == sample sweep d)%Q /\ above sweep thr i) ->
  exists u' pk,
    walk_plateau fuel sweep thr (Z.of_nat (length sweep)) d u = Ok (u', pk)
    /\ u <= u' <= Z.of_nat (length sweep) - 1
    /\ (pk = []
        \/ (pk = [d + ceil_half (u' - d - 1)]
            /\ u' < Z.of_nat (length sweep) - 1
            /\ (sample sweep u' < sample sweep d)%Q
            /\ above sweep thr u'
            /\ forall i, d < i < u' ->
                 (sample sweep i == sample sweep d)%Q /\ above sweep thr i)).
Proof.
  revert u. induction fuel as [| fuel IH]; intros u Hd Hu Hfuel Hrun; [lia |].
  cbn [walk_plateau].
  destruct (Z.geb_spec u (Z.of_nat (length sweep) - 1)) as [Hge | Hlt].
  { exists u, []. repeat split; try lia. now left. }
  rewrite (getitem_nth thr None) by lia.
  rewrite !(getitem_nth sweep 0%Q) by lia. cbn [bind].
  fold (level_at thr u). fold (sample sweep u). fold (sample sweep d).
  destruct (isnan (level_at thr u)) eqn:Enan;
    [exists u, []; repeat split; try lia; now left |].
  destruct (le_level (sample sweep u) (level_at thr u)) eqn:Ele;
    [exists u, []; repeat split; try lia; now left |].
  destruct (Qlt_bool (sample sweep d) (sample sweep u)) eqn:Eup;
    [exists u, []; repeat split; try lia; now left |].
  assert (Habove : above sweep thr u) by (now apply gt_of_not_le).
  destruct (Qlt_bool (sample sweep u) (sample sweep d)) eqn:Edown.
  - exists u. eexists. split; [reflexivity |]. split; [lia |]. right.
    cbv zeta. split; [reflexivity |]. split; [lia |].
    split; [now apply Qlt_bool_iff |]. split; assumption.
  - apply Qlt_bool_false_iff in Eup, Edown.
    destruct (IH (u + 1)) as [u' [pk (Hw & Hu' & Hpk)]]; try lia.
    + intros i Hi. destruct (Z.eq_dec i u) as [-> | Hne]; [| apply Hrun; lia].
      split; [now apply Qle_antisym | exact Habove].
    + exists u', pk. split; [exact Hw |]. split; [lia | exact Hpk].
Qed.

Lemma find_peaks_loop_sound (fuel : nat) (d : Z) (found : list Z) :
  1 <= d <= Z.of_nat (length sweep) ->
  Z.of_nat (length sweep) + 1 <= Z.of_nat fuel + d ->
  Forall (is_peak sweep thr) found ->
  StronglySorted Z.lt found ->
  Forall (fun p => p < d) found ->
  exists peaks,
    find_peaks_loop fuel sweep thr (Z.of_nat (length sweep)) d found = Ok peaks
    /\ Forall (is_peak sweep thr) peaks
    /\ StronglySorted Z.lt peaks.
Proof.
  revert d found.
  induction fuel as [| fuel IH]; intros d found Hd Hfuel Hpeaks Hsorted Hbelow; [lia |].
  assert (Hmove : forall d', d <= d' -> Forall (fun p => p < d') found).
  { intros d' Hd'. eapply Forall_impl; [| exact Hbelow]. intros p Hp. cbv beta in *. lia. }
  cbn [find_peaks_loop].
  destruct (Z.ltb_spec d (Z.of_nat (length sweep) - 1)) as [Hlt | Hge];
    [| now exists found].
  rewrite !(getitem_nth thr None) by lia.
  rewrite !(getitem_nth sweep 0%Q) by lia. cbn [bind].
  fold (level_at thr (d - 1)). fold (level_at thr (d + 1)). fold (level_at thr d).
  fold (sample sweep d). fold (sample sweep (d - 1)).
  destruct (isnan (level_at thr (d - 1))) eqn:Enan;
    [apply IH; try assumption; try lia; apply Hmove; lia |].
  destruct (isnan (level_at thr (d + 1))); [now exists found |].
  destruct (le_level (sample sweep d) (level_at thr d)) eqn:Ed;
    [apply IH; try assumption; try lia; apply Hmove; lia |].
  destruct (le_level (sample sweep (d - 1)) (level_at thr (d - 1))) eqn:Ep;
    [apply IH; try assumption; try lia; apply Hmove; lia |].
  destruct (Qle_bool (sample sweep d) (sample sweep (d - 1))) eqn:Er;
    [apply IH; try assumption; try lia; apply Hmove; lia |].
  apply Qle_bool_false_iff in Er.
  destruct (@walk_plateau_sound (S (length sweep)) d (d + 1))
    as [u' [pk (Hw & Hu' & Hpk)]]; try lia.
  rewrite Hw. cbn [bind].
  destruct Hpk as [-> | (-> & Hlast & Hdown & Hu'above & Hrun)].
  - rewrite app_nil_r. apply IH; try assumption; try lia. apply Hmove. lia.
  - assert (Hhalf : ceil_half (u' - d - 1) = (u' - d) / 2) by (apply ceil_half_pred; lia).
    assert (H0 : 0 <= (u' - d) / 2) by (apply Z.div_pos; lia).
    assert (H1 : (u' - d) / 2 < u' - d) by (apply Z.div_lt; lia).
    apply IH; try lia.
    + apply Forall_app. split; [exact Hpeaks |]. constructor; [| constructor].
      exists d, u'. repeat split; try assumption; try lia.
      * intros i Hi. destruct (Z.eq_dec i d) as [-> | Hne]; [apply Qeq_refl |].
        apply Hrun. lia.
      * intros i Hi Hne.
        destruct (Z.eq_dec i (d - 1)) as [-> | Hne1]; [now apply gt_of_not_le |].
        destruct (Z.eq_dec i u') as [-> | Hne2]; [exact Hu'above |].
        apply Hrun. lia.
    + apply sorted_snoc; [exact Hsorted |].
      eapply Forall_impl; [| exact Hbelow]. intros p Hp. cbv beta in *. lia.
    + apply Forall_app. split; [apply Hmove; lia |].
      constructor; [lia | constructor].
Qed.

Lemma find_peaks_sound :
  exists peaks,
    find_peaks sweep (Some thr) = Ok peaks
    /\ Forall (is_peak sweep thr) peaks
    /\ StronglySorted Z.lt peaks.
Proof.
  unfold find_peaks. destruct (forallb isnan thr).
  - exists []. repeat split; constructor.
  - destruct (Nat.eq_dec (length sweep) 0) as [E | E].
    + exists []. split; [rewrite E; reflexivity |]. split; constructor.
    + apply find_peaks_loop_sound; try lia; constructor.
Qed.

End ScanSound.

Lemma is_peak_bounds (sweep : list Q) (thr : list level) (p : Z) :
  is_peak sweep thr p -> 1 <= p <= Z.of_nat (length sweep) - 3.
Proof.
  intros (d & u & Hd & Hdu & Hu & -> & _).
  rewrite ceil_half_pred by lia.
  assert (0 <= (u - d) / 2) by (apply Z.div_pos; lia).
  assert ((u - d) / 2 < u - d) by (apply Z.div_lt; lia).
  lia.
Qed.

(** X2.  Whatever the sweep and the threshold curve (of the sweep's length),
    every bin [find_peaks] reports is the middle of a run of equal
    amplitudes that has a strictly lower bin on each side, with both of these
    neighbours and the run strictly above their thresholds (the first bin of
    the run may sit on a NaN threshold), and that ends before the last bin of
    the sweep. *)
Theorem find_peaks_reports_only_peaks (sweep : list Q) (thr : list level) :
  length thr = length sweep ->
  exists peaks,
    find_peaks sweep (Some thr) = Ok peaks /\ Forall (is_peak sweep thr) peaks.
Proof.
  intros Hlen. destruct (@find_peaks_sound sweep thr Hlen) as [peaks (Hp & Hall & _)].
  now exists peaks.
Qed.

Lemma find_peaks_reports_only_peaks_witness :
  exists peaks,
    find_peaks [0; 900; 1000; 1000; 900; 0; 950; 990; 900]%Q (Some (fixed_curve 800 9))
    = Ok peaks
    /\ Forall (is_peak [0; 900; 1000; 1000; 900; 0; 950; 990; 900]%Q (fixed_curve 800 9))
         peaks.
Proof.
  apply (@find_peaks_reports_only_peaks
           [0; 900; 1000; 1000; 900; 0; 950; 990; 900]%Q (fixed_curve 800 9)).
  reflexivity.
Defined.

(** X3.  The bins [find_peaks] reports are strictly ascending and lie between
    bin 1 and the third bin from the end; a sweep of fewer than four bins has
    no peak. *)
Theorem find_peaks_ascending_inner_bins (sweep : list Q) (thr : list level) :
  length thr = length sweep ->
  exists peaks,
    find_peaks sweep (Some thr) = Ok peaks
    /\ StronglySorted Z.lt peaks
    /\ Forall (fun p => 1 <= p <= Z.of_nat (length sweep) - 3) peaks
    /\ ((length sweep < 4)%nat -> peaks = []).
Proof.
  intros Hlen. destruct (@find_peaks_sound sweep thr Hlen) as [peaks (Hp & Hall & Hs)].
  assert (Hb : Forall (fun p => 1 <= p <= Z.of_nat (length sweep) - 3) peaks).
  { eapply Forall_impl; [| exact Hall]. intros p. apply is_peak_bounds. }
  exists peaks. repeat split; try assumption.
  intros Hshort. destruct peaks as [| p rest]; [reflexivity |].
  apply Forall_inv in Hb. lia.
Qed.

Lemma find_peaks_ascending_inner_bins_witness :
  exists peaks,
    find_peaks [0; 900; 1000; 1000; 900; 0; 950; 990; 900]%Q (Some (fixed_curve 800 9))
    = Ok peaks
    /\ StronglySorted Z.lt peaks
    /\ Forall (fun p => 1 <= p <= 9 - 3) peaks
    /\ ((9 < 4)%nat -> peaks = []).
Proof.
  apply (@find_peaks_ascending_inner_bins
           [0; 900; 1000; 1000; 900; 0; 950; 990; 900]%Q (fixed_curve 800 9)).
  reflexivity.
Defined.

(** X4.  A sweep that never falls has no peak, and neither has one that never
    rises, whatever the threshold curve: a peak needs a strict rise before it
    and a strict fall after it. *)
Theorem monotone_sweep_has_no_peak (sweep : list Q) (thr : list level) :
  length thr = length sweep ->
  nondecreasing sweep = true \/ nonincreasing sweep = true ->
  find_peaks sweep (Some thr) = Ok [].
Proof.
  intros Hlen Hmono.
  destruct (@find_peaks_sound sweep thr Hlen) as [peaks (Hp & Hall & _)].
  rewrite Hp. f_equal. destruct peaks as [| p rest]; [reflexivity | exfalso].
  apply Forall_inv in Hall.
  destruct Hall as (d & u & Hd & Hdu & Hu & _ & Hrise & Hfall & Hrun & _).
  unfold nondecreasing, nonincreasing in Hmono. rewrite !forallb_Zrange in Hmono.
  destruct Hmono as [Hmono | Hmono].
  - specialize (Hmono (u - 1) ltac:(lia)). apply Qle_bool_iff in Hmono.
    replace (u - 1 + 1) with u in Hmono by lia.
    specialize (Hrun (u - 1) ltac:(lia)). rewrite Hrun in Hmono.
    exact (Qlt_not_le _ _ Hfall Hmono).
  - specialize (Hmono (d - 1) ltac:(lia)). apply Qle_bool_iff in Hmono.
    replace (d - 1 + 1) with d in Hmono by lia.
    exact (Qlt_not_le _ _ Hrise Hmono).
Qed.

Lemma monotone_sweep_has_no_peak_witness :
  find_peaks [900; 900; 1000; 1100; 1100; 1200]%Q (Some (fixed_curve 800 6)) = Ok [].
Proof.
  apply (@monotone_sweep_has_no_peak [900; 900; 1000; 1100; 1100; 1200]%Q (fixed_curve 800 6)).
  - reflexivity.
  - left. vm_compute. reflexivity.
Defined.

(** ** What merging leaves *)

Lemma neighbor_count_le_max (radius : Q) (l : list Z) (p : Z) :
  In p l -> neighbor_count radius l p <= max_neighbor_count radius l.
Proof.
  intros Hin. unfold max_neighbor_count.
  assert (Hgen : forall vals v, In v vals -> v <= fold_right Z.max 0 vals).
  { induction vals as [| y vals IH]; intros v Hv; simpl in *; [contradiction |].
    destruct Hv as [-> | Hv]; [lia |]. specialize (IH v Hv). lia. }
  apply Hgen. now apply in_map.
Qed.

Lemma merges_to_settled (radius : Q) (l out : list Z) :
  merges_to radius l out -> max_neighbor_count radius out <= 1.
Proof. induction 1; assumption. Qed.

Lemma filter_two_positions (g : Z -> bool) (l : list Z) (i j : nat) :
  (i < j < length l)%nat ->
  g (nth i l 0) = true -> g (nth j l 0) = true ->
  (2 <= length (filter g l))%nat.
Proof.
  revert i j. induction l as [| x l IH]; intros i j Hij Hi Hj; simpl in Hij; [lia |].
  destruct j as [| j]; [lia |]. destruct i as [| i].
  - cbn [nth] in Hi, Hj. cbn [filter]. rewrite Hi. cbn [length].
    assert (Hin : In (nth j l 0) (filter g l)).
    { apply filter_In. split; [apply nth_In; lia | exact Hj]. }
    destruct (filter g l); [contradiction | simpl; lia].
  - cbn [nth] in Hi, Hj. specialize (IH i j ltac:(lia) Hi Hj).
    cbn [filter]. destruct (g x); simpl; lia.
Qed.

(** When no peak has a neighbour besides itself, any two peaks of the list
    are at least the radius apart. *)
Lemma settled_apart (radius : Q) (l : list Z) (i j : nat) :
  max_neighbor_count radius l <= 1 ->
  (i < j < length l)%nat ->
  (radius <= inject_Z (Z.abs (nth j l 0%Z - nth i l 0%Z)))%Q.
Proof.
  intros Hmax Hij. apply Qnot_lt_le. intros Hclose.
  assert (Hj : within radius (nth i l 0) (nth j l 0) = true) by (now apply within_iff).
  assert (Hi : within radius (nth i l 0) (nth i l 0) = true).
  { apply within_iff. eapply Qle_lt_trans; [| exact Hclose].
    rewrite <- Zle_Qle. lia. }
  pose proof (filter_two_positions (within radius (nth i l 0)) l Hij Hi Hj) as H2.
  pose proof (@neighbor_count_le_max radius l (nth i l 0) ltac:(apply nth_In; lia)) as Hle.
  unfold neighbor_count in Hle. lia.
Qed.

Lemma insert_sorted_sorted (x : Z) (l : list Z) :
  StronglySorted Z.le l -> StronglySorted Z.le (insert_sorted x l).
Proof.
  induction 1 as [| y l Hs IH Hall]; simpl.
  - constructor; constructor.
  - destruct (Z.leb_spec x y) as [Hle | Hgt].
    + constructor; [now constructor |].
      constructor; [exact Hle |].
      eapply Forall_impl; [| exact Hall]. intros z Hz. cbv beta in *. lia.
    + constructor; [exact IH |].
      apply (Permutation_Forall (insert_sorted_perm x l)).
      constructor; [lia | exact Hall].
Qed.

Lemma list_sort_sorted (l : list Z) : StronglySorted Z.le (list_sort l).
Proof.
  induction l as [| x l IH]; simpl; [constructor | now apply insert_sorted_sorted].
Qed.

Lemma spec_round_sorted (radius : Q) (l : list Z) :
  StronglySorted Z.le l -> StronglySorted Z.le (spec_round radius l).
Proof.
  intros Hs. unfold spec_round.
  destruct (chosen_peak radius l); [apply list_sort_sorted | exact Hs].
Qed.

Lemma merges_to_sorted (radius : Q) (l out : list Z) :
  merges_to radius l out -> StronglySorted Z.le l -> StronglySorted Z.le out.
Proof.
  induction 1 as [l Hle | l out Hgt Hm IH]; intros Hs; [exact Hs |].
  apply IH. now apply spec_round_sorted.
Qed.

Lemma max_neighbor_count_nil (radius : Q) : max_neighbor_count radius [] = 0.
Proof. reflexivity. Qed.

Lemma merges_to_length (radius : Q) (l out : list Z) :
  merges_to radius l out -> (length out <= length l)%nat.
Proof.
  induction 1 as [l Hle | l out Hgt Hm IH]; [lia |].
  assert (Hne : l <> []) by (intros ->; rewrite max_neighbor_count_nil in Hgt; lia).
  destruct (spec_round_shrinks radius Hne Hgt) as [peak (_ & _ & _ & _ & Hlt & _)]. lia.
Qed.

Lemma spec_round_range (radius : Q) (lo hi : Z) (l : list Z) :
  l <> [] -> 1 < max_neighbor_count radius l ->
  Forall (fun x => lo <= x <= hi) l -> Forall (fun x => lo <= x <= hi) (spec_round radius l).
Proof.
  intros Hne Hgt Hall.
  destruct (spec_round_shrinks radius Hne Hgt) as [peak (Hc & _ & H2 & _)].
  unfold spec_round. rewrite Hc.
  apply (Permutation_Forall (list_sort_perm _)).
  apply Forall_app. split.
  - rewrite Forall_forall in *. intros x Hx. apply filter_In in Hx. now apply Hall.
  - constructor; [| constructor].
    assert (Hsub : Forall (fun x => lo <= x <= hi) (filter (within radius peak) l)).
    { rewrite Forall_forall in *. intros x Hx. apply filter_In in Hx. now apply Hall. }
    assert (Hnonempty : filter (within radius peak) l <> []).
    { intros E. rewrite E in H2. simpl in H2. lia. }
    destruct (np_mean_bounds Hnonempty Hsub) as [Hlo Hhi].
    exact (@py_round_bounds _ _ _ Hlo Hhi).
Qed.

Lemma merges_to_range (radius : Q) (lo hi : Z) (l out : list Z) :
  merges_to radius l out ->
  Forall (fun x => lo <= x <= hi) l -> Forall (fun x => lo <= x <= hi) out.
Proof.
  induction 1 as [l Hle | l out Hgt Hm IH]; intros Hall; [exact Hall |].
  assert (Hne : l <> []) by (intros ->; rewrite max_neighbor_count_nil in Hgt; lia).
  apply IH. now apply spec_round_range.
Qed.

Lemma merges_to_nonempty (radius : Q) (l out : list Z) :
  merges_to radius l out -> l <> [] -> out <> [].
Proof.
  induction 1 as [l Hle | l out Hgt Hm IH]; intros Hne; [exact Hne |].
  apply IH.
  destruct (spec_round_shrinks radius Hne Hgt) as [peak (_ & _ & _ & _ & _ & H)]. exact H.
Qed.

Lemma merge_peaks_merges_to (radius : Q) (l out : list Z) :
  merge_peaks l radius = Ok out -> merges_to radius l out.
Proof.
  intros Hout. destruct l as [| x t]; [discriminate |].
  destruct (@merge_loop_merges_to radius (S (length (x :: t))) (x :: t))
    as [out' [Hout' Hm]]; [discriminate | lia |].
  unfold merge_peaks in Hout. rewrite Hout' in Hout. now injection Hout as <-.
Qed.

(** X5.  After [merge_peaks] any two peaks of the result are at least the
    merge radius apart: nothing is left to merge. *)
Theorem merged_peaks_are_apart (l : list Z) (radius : Q) (out : list Z) (i j : nat) :
  merge_peaks l radius = Ok out ->
  (i < j < length out)%nat ->
  (radius <= inject_Z (Z.abs (nth j out 0%Z - nth i out 0%Z)))%Q.
Proof.
  intros Hout Hij. apply settled_apart; [| exact Hij].
  eapply merges_to_settled, merge_peaks_merges_to, Hout.
Qed.

Lemma merged_peaks_are_apart_witness :
  (3 <= inject_Z (Z.abs (nth 1 [3; 7; 20]%Z 0%Z - nth 0 [3; 7; 20]%Z 0%Z)))%Q.
Proof.
  apply (@merged_peaks_are_apart [1; 3; 5; 7; 20; 21] 3 [3; 7; 20] 0 1).
  - vm_compute. reflexivity.
  - simpl. lia.
Defined.

(** X6.  Merging is idempotent: merging the result of [merge_peaks] once more,
    with the same radius, returns it unchanged. *)
Theorem merge_peaks_idempotent (l : list Z) (radius : Q) (out : list Z) :
  merge_peaks l radius = Ok out -> merge_peaks out radius = Ok out.
Proof.
  intros Hout. pose proof (merge_peaks_merges_to _ _ Hout) as Hm.
  assert (Hne : out <> []).
  { apply (merges_to_nonempty Hm). intros ->. discriminate. }
  unfold merge_peaks. cbn [merge_loop].
  rewrite merge_round_spec_round by exact Hne.
  pose proof (merges_to_settled Hm) as Hs.
  destruct (Z.leb_spec (max_neighbor_count radius out) 1); [reflexivity | lia].
Qed.

Lemma merge_peaks_idempotent_witness :
  merge_peaks [3; 7; 20] 3 = Ok [3; 7; 20].
Proof.
  apply (@merge_peaks_idempotent [1; 3; 5; 7; 20; 21] 3 [3; 7; 20]).
  vm_compute. reflexivity.
Defined.

(** X7.  [merge_peaks] never lengthens the list, keeps an ascending list
    ascending, and keeps every peak within the range of bins the input
    spans. *)
Theorem merge_peaks_keeps_order_and_range (l : list Z) (radius : Q) (out : list Z) :
  merge_peaks l radius = Ok out ->
  out <> []
  /\ (length out <= length l)%nat
  /\ (StronglySorted Z.le l -> StronglySorted Z.le out)
  /\ (forall lo hi, Forall (fun x => lo <= x <= hi) l -> Forall (fun x => lo <= x <= hi) out).
Proof.
  intros Hout. pose proof (merge_peaks_merges_to _ _ Hout) as Hm.
  split; [| split; [| split]].
  - apply (merges_to_nonempty Hm). intros ->. discriminate.
  - exact (merges_to_length Hm).
  - exact (merges_to_sorted Hm).
  - intros lo hi. exact (merges_to_range Hm).
Qed.

Lemma merge_peaks_keeps_order_and_range_witness :
  [3; 7; 20] <> []
  /\ (length [3; 7; 20]%Z <= length [1; 3; 5; 7; 20; 21]%Z)%nat
  /\ (StronglySorted Z.le [1; 3; 5; 7; 20; 21] -> StronglySorted Z.le [3; 7; 20])
  /\ (forall lo hi, Forall (fun x => lo <= x <= hi) [1; 3; 5; 7; 20; 21] ->
                    Forall (fun x => lo <= x <= hi) [3; 7; 20]).
Proof.
  apply (@merge_peaks_keeps_order_and_range [1; 3; 5; 7; 20; 21] 3 [3; 7; 20]).
  vm_compute. reflexivity.
Defined.

(** ** The peaks of an emission *)

Section EmissionPeaks.

Variable argsort : list Q -> list Z.
Hypothesis argsort_ok : argsort_spec argsort.

Variable self : state.
Variable mean_sweep : list Q.
Variable threshold : list level.

Hypothesis threshold_length : length threshold = length mean_sweep.
Hypothesis mean_length : length mean_sweep = length (r self).

Lemma detect_and_record_peaks (found : list Z) (hist : histories) :
  detect_and_record argsort self mean_sweep threshold = Ok (found, hist) ->
  exists candidates,
    find_peaks mean_sweep (Some threshold) = Ok candidates
    /\ ranked_from self mean_sweep candidates found
    /\ bins_of (length (r self)) found.
Proof.
  unfold detect_and_record. intros H.
  apply bind_Ok_inv in H. destruct H as [first [_ H]].
  apply bind_Ok_inv in H. destruct H as [candidates [Hcand H]].
  apply bind_Ok_inv in H. destruct H as [ranked [Hranked H]].
  assert (Hfound : found = ranked).
  { repeat (apply bind_Ok_inv in H; destruct H as [? [_ H]];
            repeat match goal with
                   | p : (_ * _)%type |- _ => destruct p
                   end;
            cbv beta iota in H).
    now injection H as <- _. }
  subst ranked. clear H. exists candidates. split; [exact Hcand |].
  destruct (@find_peaks_total mean_sweep threshold threshold_length)
    as [candidates' [Hcand' Hbins]].
  rewrite Hcand in Hcand'. injection Hcand' as <-.
  destruct (Z.ltb_spec 1 (Z.of_nat (length candidates))) as [Hlt | Hge].
  - apply bind_Ok_inv in Hranked. destruct Hranked as [merged [Hmerged Hsort]].
    assert (Hne : candidates <> []) by (intros ->; simpl in Hlt; lia).
    destruct (@merge_peaks_total (merge_radius self) (length mean_sweep) candidates Hne Hbins)
      as [merged' (Hm' & _ & Hmbins)].
    unfold merge_radius in Hm'. rewrite Hmerged in Hm'. injection Hm' as <-.
    destruct (peak_sorting_method self) as [method |] eqn:Emethod.
    + destruct (@sort_peaks_sorted argsort method (r self) merged mean_sweep
                  argsort_ok Hmbins) as [out (Hout & Hperm & Hsorted)];
        [now rewrite <- mean_length |].
      rewrite Hsort in Hout. injection Hout as <-.
      split.
      * right. exists merged, method. repeat split; try assumption. lia.
      * rewrite <- mean_length.
        apply (Permutation_Forall (Permutation_sym Hperm)), Hmbins.
    + exfalso.
      destruct (sort_peaks_unknown argsort (r self) merged mean_sweep) as [E | E];
        rewrite E in Hsort; discriminate.
  - injection Hranked as <-. split.
    + left. split; [lia | reflexivity].
    + now rewrite <- mean_length.
Qed.

End EmissionPeaks.

(** X8.  On a call that completes a mean, the peak list of the snapshot comes
    from the candidates [find_peaks] finds on the completed mean sweep: at
    most one candidate is reported as it is; several are merged with the
    radius [round(0.005 / dr)] and the merged peaks are reported in the order
    of the sorting policy.  Every reported peak is a bin of the distance
    axis, so looking up its distance cannot fail. *)
Theorem emission_reports_ranked_merged_peaks (argsort : list Q -> list Z) (self : state)
  (sweep : list Q) :
  argsort_spec argsort ->
  well_formed self ->
  length sweep = length (r self) ->
  (nbr_average self <= inject_Z (sweeps_since_mean self + 1))%Q ->
  exists self' out candidates found,
    process argsort self sweep = Ok (self', out)
    /\ out_found_peaks out = Some found
    /\ find_peaks (folded self sweep)
         (Some (fixed_curve (fixed_threshold_level self) (length sweep))) = Ok candidates
    /\ ranked_from self (folded self sweep) candidates found
    /\ bins_of (length (r self)) found.
Proof.
  intros Hspec Hwf Hlen Hemit. apply Qle_bool_iff in Hemit.
  destruct Hwf as (Hacc & Hfixed & Hsort & Hm & Hn & Ha).
  assert (Hfold : length (folded self sweep) = length sweep)
    by (apply zip_with_length; congruence).
  destruct (@detect_and_record_total argsort Hspec self (folded self sweep)
              (fixed_curve (fixed_threshold_level self) (length sweep)))
    as [found [hist [main [minor [above (Hd & _)]]]]];
    try assumption; try (rewrite ?fixed_curve_length; congruence).
  destruct (@detect_and_record_peaks argsort Hspec self (folded self sweep)
              (fixed_curve (fixed_threshold_level self) (length sweep)))
    with (found := found) (hist := hist) as [candidates (Hc & Hr & Hb)];
    try assumption; try (rewrite ?fixed_curve_length; congruence).
  unfold process, determine_threshold.
  rewrite broadcast2_same_length by congruence. rewrite Hfixed. cbn [bind]. rewrite Hemit.
  fold (folded self sweep). rewrite Hd. cbn [bind].
  eexists. eexists. exists candidates, found. split; [reflexivity |].
  cbn. repeat split; assumption.
Qed.

Lemma emission_reports_ranked_merged_peaks_witness :
  exists self' out candidates found,
    process stable_argsort (example_state 1 800) [0; 900; 1000; 900; 0]%Q = Ok (self', out)
    /\ out_found_peaks out = Some found
    /\ find_peaks (folded (example_state 1 800) [0; 900; 1000; 900; 0]%Q)
         (Some (fixed_curve (fixed_threshold_level (example_state 1 800)) 5)) = Ok candidates
    /\ ranked_from (example_state 1 800) (folded (example_state 1 800) [0; 900; 1000; 900; 0]%Q)
         candidates found
    /\ bins_of (length (r (example_state 1 800))) found.
Proof.
  apply (@emission_reports_ranked_merged_peaks stable_argsort (example_state 1 800)
           [0; 900; 1000; 900; 0]%Q).
  - exact stable_argsort_spec.
  - apply example_state_well_formed.
  - reflexivity.
  - vm_compute. discriminate.
Defined.

(** ** Histories stay in order *)

Lemma map_fst_entries (idx : list Z) (dist : list Q) :
  length idx = length dist -> map fst (entries idx dist) = idx.
Proof.
  unfold entries. revert dist. induction idx as [| i idx IH]; intros [| x dist] H;
    simpl in *; try lia; [reflexivity |].
  now rewrite IH by lia.
Qed.

Lemma drop_old_suffix (current : Z) (horizon : Q) (h : list (Z * Q)) :
  exists pre, h = pre ++ drop_old current horizon h.
Proof.
  induction h as [| e h [pre IH]]; [now exists [] |].
  cbn [drop_old]. destruct (Qlt_bool horizon (inject_Z (current - fst e))).
  - exists (e :: pre). simpl. now rewrite <- IH.
  - now exists [].
Qed.

Lemma drop_old_recent (current : Z) (horizon : Q) (h : list (Z * Q)) :
  StronglySorted Z.le (map fst h) ->
  history_recent current horizon (map fst (drop_old current horizon h)).
Proof.
  unfold history_recent. induction h as [| e h IH]; intros Hs; [constructor |].
  cbn [map] in Hs. apply StronglySorted_inv in Hs. destruct Hs as [Hs Hall].
  cbn [drop_old]. destruct (Qlt_bool horizon (inject_Z (current - fst e))) eqn:E;
    [now apply IH |].
  apply Qlt_bool_false_iff in E. cbn [map]. constructor; [exact E |].
  eapply Forall_impl; [| exact Hall]. intros j Hj. cbv beta in *.
  eapply Qle_trans; [| exact E]. rewrite <- Zle_Qle. lia.
Qed.

Lemma sorted_app_const (idx : list Z) (now : Z) (n : nat) :
  history_in_order now idx -> StronglySorted Z.le (idx ++ repeat now n).
Proof.
  intros [Hs Hall]. induction Hs as [| i idx Hs IH Hle]; simpl.
  - induction n as [| n IHn]; simpl; [constructor |].
    constructor; [exact IHn |]. apply Forall_forall. intros x Hx.
    apply repeat_spec in Hx. lia.
  - apply Forall_cons_iff in Hall. destruct Hall as [Hi Hall].
    constructor; [now apply IH |].
    apply Forall_app. split; [exact Hle |].
    apply Forall_forall. intros x Hx. apply repeat_spec in Hx. lia.
Qed.

Lemma sorted_suffix (pre l : list Z) : StronglySorted Z.le (pre ++ l) -> StronglySorted Z.le l.
Proof.
  induction pre as [| x pre IH]; simpl; intros H; [exact H |].
  apply StronglySorted_inv in H. now apply IH.
Qed.

(** One history through an emission: in order, not from the future, nothing
    older than the horizon. *)
Lemma history_after_emission (now : Z) (horizon : Q) (idx idx' : list Z)
  (dist dist' added : list Q) :
  length idx = length dist -> length idx' = length dist' ->
  history_in_order now idx ->
  entries idx' dist' = drop_old now horizon (entries idx dist ++ map (pair now) added) ->
  history_in_order (now + 1) idx' /\ history_recent now horizon idx'.
Proof.
  intros Hl Hl' Hord Heq.
  assert (Hfst : map fst (entries idx dist ++ map (pair now) added)
                 = idx ++ repeat now (length added)).
  { rewrite map_app, map_fst_entries by exact Hl. f_equal.
    rewrite map_map. cbn [fst]. clear. induction added; simpl; congruence. }
  assert (Hsorted : StronglySorted Z.le (map fst (entries idx dist ++ map (pair now) added)))
    by (rewrite Hfst; now apply sorted_app_const).
  assert (Hidx' : idx' = map fst (drop_old now horizon
                                    (entries idx dist ++ map (pair now) added)))
    by (rewrite <- Heq; symmetry; now apply map_fst_entries).
  destruct (drop_old_suffix now horizon (entries idx dist ++ map (pair now) added))
    as [pre Hpre].
  assert (Hsplit : idx ++ repeat now (length added) = map fst pre ++ idx').
  { rewrite <- Hfst, Hidx'. rewrite <- map_app. now rewrite <- Hpre. }
  split; [split |].
  - apply (sorted_suffix (map fst pre)). rewrite <- Hsplit. now apply sorted_app_const.
  - assert (Hall : Forall (fun i => i < now + 1) (idx ++ repeat now (length added))).
    { apply Forall_app. split.
      - destruct Hord as [_ Hord]. eapply Forall_impl; [| exact Hord].
        intros i Hi. cbv beta in *. lia.
      - apply Forall_forall. intros x Hx. apply repeat_spec in Hx. lia. }
    rewrite Hsplit in Hall. apply Forall_app in Hall. tauto.
  - rewrite Hidx'. now apply drop_old_recent.
Qed.

Lemma history_in_order_later (now : Z) (idx : list Z) :
  history_in_order now idx -> history_in_order (now + 1) idx.
Proof.
  intros [Hs Hall]. split; [exact Hs |].
  eapply Forall_impl; [| exact Hall]. intros i Hi. cbv beta in *. lia.
Qed.

Lemma process_keeps_histories_in_order (argsort : list Q -> list Z) (self : state)
  (sweep : list Q) :
  argsort_spec argsort -> well_formed self -> length sweep = length (r self) ->
  histories_in_order self ->
  exists self' out,
    process argsort self sweep = Ok (self', out)
    /\ well_formed self' /\ r self' = r self
    /\ histories_in_order self'
    /\ (emitted out = true ->
        histories_recent (sweep_index self) (history_length_s self * f self) self').
Proof.
  intros Hspec Hwf Hlen (Ho1 & Ho2 & Ho3).
  destruct (Qle_bool (nbr_average self) (inject_Z (sweeps_since_mean self + 1))) eqn:E.
  - destruct (@process_emits argsort self sweep Hspec Hwf Hlen E)
      as [self' [out [found [main [minor [above
           (Hp & _ & _ & _ & Hi & _ & Hf & _ & _ & E1 & E2 & E3 & Hwf' & Hr & _)]]]]]].
    destruct Hwf as (_ & _ & _ & L1 & L2 & L3).
    pose proof Hwf' as (_ & _ & _ & L1' & L2' & L3').
    destruct (@history_after_emission _ _ _ _ _ _ _ L1 L1' Ho1 E1) as [A1 B1].
    destruct (@history_after_emission _ _ _ _ _ _ _ L2 L2' Ho2 E2) as [A2 B2].
    destruct (@history_after_emission _ _ _ _ _ _ _ L3 L3' Ho3 E3) as [A3 B3].
    exists self', out. split; [exact Hp |]. split; [exact Hwf' |]. split; [exact Hr |].
    unfold histories_in_order, histories_recent. rewrite Hi. tauto.
  - destruct (@process_step argsort self sweep Hspec Hwf Hlen)
      as [self' [out (Hp & Hwf' & Hr & _ & Hi & _ & He & _)]].
    destruct Hwf as (Hacc & Hfixed & _).
    destruct (@process_accumulates argsort self sweep ltac:(congruence) Hfixed E)
      as [self2 [out2 (Hp2 & _ & _ & _ & _ & _ & Hh & _)]].
    rewrite Hp in Hp2. injection Hp2 as <- <-.
    exists self', out. split; [exact Hp |]. split; [exact Hwf' |]. split; [exact Hr |].
    unfold histories_of in Hh. injection Hh as H1 _ H2 _ H3 _.
    split.
    + unfold histories_in_order. rewrite Hi, H1, H2, H3.
      split; [| split]; apply history_in_order_later; assumption.
    + rewrite He, E. discriminate.
Qed.

(** X9.  Through any sequence of calls the three histories stay in
    non-decreasing sweep order and hold no entry from the future, and right
    after every call that completes a mean none of their entries is older
    than the horizon [history_length_s * update_rate]. *)
Theorem histories_stay_in_order (argsort : list Q -> list Z) (self : state)
  (sweeps : list (list Q)) :
  argsort_spec argsort ->
  well_formed self ->
  histories_in_order self ->
  Forall (fun sw => length sw = length (r self)) sweeps ->
  exists trace,
    run argsort self sweeps = Ok trace
    /\ Forall (fun call =>
                 histories_in_order (fst call)
                 /\ (emitted (snd call) = true ->
                     histories_recent (out_sweep_index (snd call))
                       (history_length_s self * f self) (fst call)))
         trace.
Proof.
  intros Hspec. revert self.
  induction sweeps as [| sw rest IH]; intros self Hwf Hord Hlens.
  - exists []. split; [reflexivity | constructor].
  - apply Forall_cons_iff in Hlens. destruct Hlens as [Hsw Hrest].
    destruct (@process_keeps_histories_in_order argsort self sw Hspec Hwf Hsw Hord)
      as [self1 [out1 (Hp & Hwf1 & Hr1 & Hord1 & Hrecent)]].
    destruct (@process_step argsort self sw Hspec Hwf Hsw)
      as [self2 [out2 (Hp2 & _ & _ & _ & _ & Ho & _)]].
    rewrite Hp in Hp2. injection Hp2 as <- <-.
    assert (Hcfg : history_length_s self1 = history_length_s self /\ f self1 = f self).
    { clear - Hp. unfold process in Hp.
      destruct (broadcast2 _ sw (current_mean_sweep self)) as [mean | e |];
        cbn [bind] in Hp; try discriminate.
      destruct (determine_threshold self sw) as [thr | e |]; cbn [bind] in Hp;
        try discriminate.
      destruct (Qle_bool _ _).
      - destruct (detect_and_record _ _ _ _) as [[found hist] | e |]; cbn [bind] in Hp;
          try discriminate.
        injection Hp as <- _. split; reflexivity.
      - cbn [bind] in Hp. injection Hp as <- _. split; reflexivity. }
    destruct Hcfg as [Hh Hf].
    destruct (IH self1 Hwf1 Hord1) as [trace [Hrun Hall]]; [now rewrite Hr1 |].
    exists ((self1, out1) :: trace). cbn [run]. rewrite Hp. cbn [bind]. rewrite Hrun.
    split; [reflexivity |]. constructor.
    + cbn [fst snd]. rewrite Ho. split; assumption.
    + rewrite Hh, Hf in Hall. exact Hall.
Qed.

Lemma histories_stay_in_order_witness :
  exists trace,
    run stable_argsort (example_state 2 800)
      [[0; 900; 1000; 900; 0]; [0; 900; 1200; 900; 0]; [0; 0; 0; 0; 0]]%Q = Ok trace
    /\ Forall (fun call =>
                 histories_in_order (fst call)
                 /\ (emitted (snd call) = true ->
                     histories_recent (out_sweep_index (snd call))
                       (history_length_s (example_state 2 800) * f (example_state 2 800))
                       (fst call)))
         trace.
Proof.
  apply (@histories_stay_in_order stable_argsort (example_state 2 800)).
  - exact stable_argsort_spec.
  - apply example_state_well_formed.
  - repeat split; constructor.
  - repeat constructor.
Defined.

(** ** The running mean *)

Lemma fold_in_mean (k : Z) (X A total : Q) :
  0 <= k -> (A * inject_Z k == total)%Q ->
  ((1 / (1 + inject_Z k) * X + (1 - 1 / (1 + inject_Z k)) * A) * inject_Z (k + 1)
   == total + X)%Q.
Proof.
  intros Hk HS. rewrite inject_Z_plus. rewrite <- HS.
  assert (H0 : (0 <= inject_Z k)%Q) by (change 0%Q with (inject_Z 0); now rewrite <- Zle_Qle).
  change (inject_Z 1) with 1%Q. field. lra.
Qed.

Lemma sample_folded (self : state) (sweep : list Q) (b : Z) :
  length sweep = length (current_mean_sweep self) ->
  0 <= b < Z.of_nat (length sweep) ->
  sample (folded self sweep) b
  = (1 / (1 + inject_Z (sweeps_since_mean self)) * sample sweep b
     + (1 - 1 / (1 + inject_Z (sweeps_since_mean self)))
       * sample (current_mean_sweep self) b)%Q.
Proof.
  intros Hlen Hb. unfold sample, folded.
  rewrite (@nth_zip_with _ _ _ _ sweep (current_mean_sweep self) 0%Q 0%Q 0%Q)
    by (assumption || lia).
  reflexivity.
Qed.

Lemma folded_sum (self : state) (sweep : list Q) (total : Z -> Q) (b : Z) :
  length sweep = length (current_mean_sweep self) ->
  0 <= b < Z.of_nat (length sweep) ->
  0 <= sweeps_since_mean self ->
  (sample (current_mean_sweep self) b * inject_Z (sweeps_since_mean self) == total b)%Q ->
  (sample (folded self sweep) b * inject_Z (sweeps_since_mean self + 1)
   == total b + sample sweep b)%Q.
Proof.
  intros Hlen Hb Hk HS. rewrite sample_folded by assumption. now apply fold_in_mean.
Qed.

Lemma run_cycle_mean (argsort : list Q -> list Z) (n : Z) :
  argsort_spec argsort ->
  forall (rest : list (list Q)) (self : state) (total : Z -> Q),
    well_formed self ->
    (nbr_average self == inject_Z n)%Q ->
    0 <= sweeps_since_mean self ->
    rest <> [] ->
    Z.of_nat (length rest) = n - sweeps_since_mean self ->
    Forall (fun sw => length sw = length (r self)) rest ->
    (forall b, 0 <= b < Z.of_nat (length (r self)) ->
       (sample (current_mean_sweep self) b * inject_Z (sweeps_since_mean self) == total b)%Q) ->
    exists trace self' out,
      run argsort self rest = Ok trace
      /\ nth_error trace (length rest - 1) = Some (self', out)
      /\ emitted out = true
      /\ forall b, 0 <= b < Z.of_nat (length (r self)) ->
           exists m, level_at (last_mean_sweep self') b = Some m
                     /\ (m * inject_Z n == total b + bin_sum rest b)%Q.
Proof.
  intros Hspec. induction rest as [| x rest IH]; intros self total Hwf Hnbr Hk Hne Hcount
    Hlens Hacc;
    [congruence |].
  apply Forall_cons_iff in Hlens. destruct Hlens as [Hx Hrest].
  pose proof Hwf as (Hcms & Hfixed & _).
  assert (Hxl : length x = length (current_mean_sweep self)) by congruence.
  destruct (@process_step argsort self x Hspec Hwf Hx)
    as [self1 [out1 (Hp & Hwf1 & Hr1 & Hnb1 & _ & _ & He & Hs1 & _)]].
  pose proof (emits_iff (sweeps_since_mean self + 1) Hnbr) as Hiff.
  destruct rest as [| y rest'] eqn:Erest.
  - (* the call that completes the mean *)
    cbn [length] in Hcount.
    assert (Hyes : Qle_bool (nbr_average self) (inject_Z (sweeps_since_mean self + 1)) = true)
      by (apply Hiff; lia).
    destruct (@process_emits argsort self x Hspec Hwf Hx Hyes)
      as [self2 [out2 [found [main [minor [above (Hp2 & _ & Hlast & _)]]]]]].
    rewrite Hp in Hp2. injection Hp2 as <- <-.
    exists [(self1, out1)], self1, out1. cbn [run]. rewrite Hp. cbn [bind].
    split; [reflexivity |]. split; [reflexivity |]. split; [now rewrite He |].
    intros b Hb. exists (sample (folded self x) b). split.
    + unfold level_at. rewrite Hlast.
      rewrite (nth_indep _ None (Some 0%Q))
        by (rewrite length_map; unfold folded; rewrite zip_with_length; lia).
      rewrite map_nth. reflexivity.
    + replace n with (sweeps_since_mean self + 1) by lia.
      cbn [bin_sum fold_right]. rewrite Qplus_0_r.
      apply folded_sum; try assumption; try lia. now apply Hacc.
  - (* a call that folds the sweep in *)
    rewrite <- Erest in *.
    assert (Hpos : (1 <= length rest)%nat) by (rewrite Erest; simpl; lia).
    cbn [length] in Hcount.
    assert (Hno : Qle_bool (nbr_average self) (inject_Z (sweeps_since_mean self + 1)) = false).
    { apply not_true_is_false. intros E. apply Hiff in E. lia. }
    destruct (@process_accumulates argsort self x Hxl Hfixed Hno)
      as [self2 [out2 (Hp2 & Hcur & Hsince & _)]].
    rewrite Hp in Hp2. injection Hp2 as <- <-.
    destruct (IH self1 (fun b => (total b + sample x b)%Q)) as [trace [self' [out (Hrun & Hnth & Hem & Hmean)]]].
    + exact Hwf1.
    + now rewrite Hnb1.
    + lia.
    + rewrite Erest. discriminate.
    + rewrite Hsince. lia.
    + now rewrite Hr1.
    + intros b Hb. rewrite Hr1 in Hb. rewrite Hcur, Hsince.
      apply folded_sum; try assumption; try lia. now apply Hacc.
    + exists ((self1, out1) :: trace), self', out. cbn [run]. rewrite Hp. cbn [bind].
      rewrite Hrun. split; [reflexivity |]. split.
      * replace (length (x :: rest) - 1)%nat with (S (length rest - 1)%nat)
          by (cbn [length]; lia).
        exact Hnth.
      * split; [exact Hem |]. intros b Hb. rewrite <- Hr1 in Hb.
        destruct (Hmean b Hb) as [m [Hm Heq]]. exists m. split; [exact Hm |].
        rewrite Heq. cbn [bin_sum fold_right]. fold (bin_sum rest b). ring.
Qed.

(** X10.  In exact arithmetic the mean sweep completed at the end of a cycle
    is the bin-wise arithmetic mean of the sweeps of the cycle: after
    [nbr_average = n] calls from the start of a cycle, the last call emits
    and every bin of [last_mean_sweep], times [n], is the sum of that bin
    over the [n] sweeps, whatever the accumulator held before the cycle. *)
Theorem emitted_mean_is_cycle_mean (argsort : list Q -> list Z) (self : state) (n : Z)
  (sweeps : list (list Q)) :
  argsort_spec argsort ->
  well_formed self ->
  (nbr_average self == inject_Z n)%Q ->
  sweeps_since_mean self = 0 ->
  sweeps <> [] ->
  Z.of_nat (length sweeps) = n ->
  Forall (fun sw => length sw = length (r self)) sweeps ->
  exists trace self' out,
    run argsort self sweeps = Ok trace
    /\ nth_error trace (length sweeps - 1) = Some (self', out)
    /\ emitted out = true
    /\ forall b, 0 <= b < Z.of_nat (length (r self)) ->
         exists m, level_at (last_mean_sweep self') b = Some m
                   /\ (m * inject_Z n == bin_sum sweeps b)%Q.
Proof.
  intros Hspec Hwf Hnbr Hzero Hne Hcount Hlens.
  destruct (@run_cycle_mean argsort n Hspec sweeps self (fun _ => 0%Q))
    as [trace [self' [out (Hrun & Hnth & Hem & Hmean)]]]; try assumption.
  - lia.
  - lia.
  - intros b Hb. rewrite Hzero. change (inject_Z 0) with 0%Q. ring.
  - exists trace, self', out. repeat (split; [assumption |]).
    intros b Hb. destruct (Hmean b Hb) as [m [Hm Heq]]. exists m. split; [exact Hm |].
    rewrite Heq. ring.
Qed.

Lemma emitted_mean_is_cycle_mean_witness :
  exists trace self' out,
    run stable_argsort (example_state 2 800)
      [[0; 900; 1000; 900; 0]; [0; 900; 1200; 900; 0]]%Q = Ok trace
    /\ nth_error trace (2 - 1) = Some (self', out)
    /\ emitted out = true
    /\ forall b, 0 <= b < Z.of_nat (length (r (example_state 2 800))) ->
         exists m, level_at (last_mean_sweep self') b = Some m
                   /\ (m * inject_Z 2
                       == bin_sum [[0; 900; 1000; 900; 0]; [0; 900; 1200; 900; 0]]%Q b)%Q.
Proof.
  apply (@emitted_mean_is_cycle_mean stable_argsort (example_state 2 800) 2
           [[0; 900; 1000; 900; 0]; [0; 900; 1200; 900; 0]]%Q).
  - exact stable_argsort_spec.
  - apply example_state_well_formed.
  - reflexivity.
  - reflexivity.
  - discriminate.
  - reflexivity.
  - repeat constructor.
Defined.

(** ** Construction and live updates *)

(** X11.  Constructing a [Processor] raises [IndexError] when the distance
    axis has fewer than two depths.  Otherwise it gives a processor at sweep
    index 0, with no sweep folded in, empty histories and the settings of the
    configuration; when [data_length] is the length of the axis, the
    threshold type is FIXED and the sorting policy is one of the enum, this
    processor is in a state from which every call of [process] on a sweep of
    that length returns. *)
Theorem init_gives_fresh_session (argsort : list Q -> list Z) (update_rate : Q)
  (processing_config : ProcessingConfiguration.t) (data_length : nat)
  (range_depths : list Q) :
  ((length range_depths < 2)%nat ->
   init update_rate processing_config data_length range_depths = Raise IndexError)
  /\ ((2 <= length range_depths)%nat ->
      exists self,
        init update_rate processing_config data_length range_depths = Ok self
        /\ sweep_index self = 0
        /\ sweeps_since_mean self = 0
        /\ histories_of self
           = {| h_main_idx := []; h_main_dist := []; h_minor_idx := []; h_minor_dist := [];
                h_above_idx := []; h_above_dist := [] |}
        /\ histories_in_order self
        /\ r self = range_depths
        /\ dr self = (sample range_depths 1 - sample range_depths 0)%Q
        /\ nbr_average self = ProcessingConfiguration.nbr_average processing_config
        /\ (data_length = length range_depths ->
            ProcessingConfiguration.threshold_type processing_config = Some FIXED ->
            ProcessingConfiguration.peak_sorting_type processing_config <> None ->
            argsort_spec argsort ->
            well_formed self
            /\ forall sweep, length sweep = data_length ->
                 exists self' out, process argsort self sweep = Ok (self', out))).
Proof.
  split.
  - intros Hshort. unfold init.
    destruct range_depths as [| a [| b rest]]; [reflexivity | reflexivity |].
    simpl in Hshort. lia.
  - intros Hlong. unfold init.
    rewrite (@getitem_nth _ range_depths 1 0%Q) by lia.
    rewrite (@getitem_nth _ range_depths 0 0%Q) by lia. cbn [bind].
    eexists. split; [reflexivity |].
    cbn. repeat (split; [reflexivity || (repeat split; constructor) |]).
    intros Hdata Hfixed Hsort Hspec.
    match goal with |- well_formed ?s /\ _ => assert (Hwf : well_formed s) end.
    { unfold well_formed. cbn. rewrite repeat_length. repeat split; assumption. }
    split; [exact Hwf |]. intros sweep Hsweep.
    match goal with |- exists _ _, process _ ?s _ = _ =>
      destruct (@process_step argsort s sweep Hspec Hwf) as [self' [out [Hp _]]]
    end.
    + cbn. congruence.
    + now exists self', out.
Qed.

Lemma init_gives_fresh_session_witness :
  exists self,
    init 10 (example_config 5 800) 5 example_axis = Ok self
    /\ well_formed self
    /\ exists self' out,
         process stable_argsort self [0; 900; 1000; 900; 0]%Q = Ok (self', out).
Proof.
  destruct (proj2 (init_gives_fresh_session stable_argsort 10 (example_config 5 800) 5
                     example_axis))
    as [self (Hinit & _ & _ & _ & _ & _ & _ & _ & Hsession)]; [simpl; lia |].
  destruct Hsession as [Hwf Hcalls];
    [reflexivity | reflexivity | discriminate | exact stable_argsort_spec |].
  exists self. split; [exact Hinit |]. split; [exact Hwf |].
  apply Hcalls. reflexivity.
Defined.

Lemma update_keeps_well_formed (self : state) (processing_config : ProcessingConfiguration.t) :
  well_formed self ->
  ProcessingConfiguration.threshold_type processing_config = Some FIXED ->
  ProcessingConfiguration.peak_sorting_type processing_config <> None ->
  well_formed (update_processing_config self processing_config).
Proof.
  intros (Hacc & _ & _ & L1 & L2 & L3) Hfixed Hsort.
  unfold well_formed. cbn. repeat split; assumption.
Qed.

(** X12.  A configuration update between two calls leaves the sweeps folded in
    so far, the count, the sweep index and the histories alone, and the next
    call runs with the new settings at once: it returns, moves the sweep
    index on by one, and completes a mean exactly when the new [nbr_average]
    is at most the count of sweeps folded in, this one included. *)
Theorem update_takes_effect_on_next_call (argsort : list Q -> list Z) (self : state)
  (processing_config : ProcessingConfiguration.t) (sweep : list Q) :
  argsort_spec argsort ->
  well_formed self ->
  ProcessingConfiguration.threshold_type processing_config = Some FIXED ->
  ProcessingConfiguration.peak_sorting_type processing_config <> None ->
  length sweep = length (r self) ->
  current_mean_sweep (update_processing_config self processing_config)
  = current_mean_sweep self
  /\ sweeps_since_mean (update_processing_config self processing_config)
     = sweeps_since_mean self
  /\ sweep_index (update_processing_config self processing_config) = sweep_index self
  /\ histories_of (update_processing_config self processing_config) = histories_of self
  /\ exists self' out,
       process argsort (update_processing_config self processing_config) sweep
       = Ok (self', out)
       /\ sweep_index self' = sweep_index self + 1
       /\ emitted out
          = Qle_bool (ProcessingConfiguration.nbr_average processing_config)
              (inject_Z (sweeps_since_mean self + 1))
       /\ out_threshold out
          = fixed_curve (ProcessingConfiguration.fixed_threshold processing_config)
              (length sweep).
Proof.
  intros Hspec Hwf Hfixed Hsort Hlen.
  repeat (split; [reflexivity |]).
  pose proof (update_keeps_well_formed processing_config Hwf Hfixed Hsort) as Hwf'.
  destruct (@process_step argsort (update_processing_config self processing_config) sweep
              Hspec Hwf' Hlen)
    as [self' [out (Hp & _ & _ & _ & Hi & _ & He & _)]].
  exists self', out. split; [exact Hp |]. split; [exact Hi |]. split; [exact He |].
  exact (proj1 (process_threshold _ _ _ Hp)).
Qed.

Lemma update_takes_effect_on_next_call_witness :
  exists self' out,
    process stable_argsort (update_processing_config (example_state 5 800)
                              (example_config 1 900)) [0; 900; 1000; 900; 0]%Q
    = Ok (self', out)
    /\ sweep_index self' = 0 + 1
    /\ emitted out = Qle_bool 1 (inject_Z (0 + 1))
    /\ out_threshold out = fixed_curve 900 5.
Proof.
  apply (@update_takes_effect_on_next_call stable_argsort (example_state 5 800)
           (example_config 1 900) [0; 900; 1000; 900; 0]%Q).
  - exact stable_argsort_spec.
  - apply example_state_well_formed.
  - reflexivity.
  - discriminate.
  - reflexivity.
Defined.

(** * The pre-flight check *)

(** X13.  [check_sensor_config] never reports an alert for the processing
    settings.  Among the sensor alerts there is an error exactly when the
    update rate is not set, and a warning exactly when noise level
    normalization is off while the threshold type is FIXED; each is reported
    at most once, the error first. *)
Theorem preflight_alerts (self : ProcessingConfiguration.t)
  (config : Preflight.sensor_config) :
  Preflight.processing (Preflight.check_sensor_config self config) = []
  /\ (existsb Preflight.is_error (Preflight.sensor (Preflight.check_sensor_config self config))
      = true <-> Preflight.update_rate config = None)
  /\ (existsb (fun a => negb (Preflight.is_error a))
        (Preflight.sensor (Preflight.check_sensor_config self config)) = true
      <-> Preflight.noise_level_normalization config = false
          /\ ProcessingConfiguration.threshold_type self = Some FIXED)
  /\ (length (Preflight.sensor (Preflight.check_sensor_config self config)) <= 2)%nat
  /\ (length (filter Preflight.is_error
                (Preflight.sensor (Preflight.check_sensor_config self config))) <= 1)%nat.
Proof.
  destruct config as [rate norm]. unfold Preflight.check_sensor_config. cbn.
  destruct rate as [q |], norm, (ProcessingConfiguration.threshold_type self) as [[ | | ] |];
    cbn; repeat split; try lia; try discriminate; try tauto;
    try (intros [H1 H2]; discriminate); intros H; discriminate.
Qed.

(** * Recording from the command line *)

Section SampleLoop.

Variable A : Type.
Variable limit_frames : option Z.
Variable got_signal : nat -> bool.
Variable get_next : nat -> A.
Variable t : nat.

Hypothesis quiet_before : forall k, (k < t)%nat -> got_signal k = false.

Lemma recorder_grows (k : nat) :
  map get_next (seq 0 k) ++ [get_next k] = map get_next (seq 0 (S k)).
Proof. rewrite seq_S, map_app. reflexivity. Qed.

Lemma sample_loop_until_signal (fuel k : nat) :
  got_signal t = true ->
  (forall n, limit_frames = Some n -> Z.of_nat t < n) ->
  (k <= t)%nat -> (t - k < fuel)%nat ->
  RecordCli.sample_loop fuel limit_frames got_signal get_next k (Z.of_nat k)
    (map get_next (seq 0 k))
  = RecordCli.Saved (map get_next (seq 0 t)).
Proof.
  intros Hsignal Hroom. revert k. induction fuel as [| fuel IH]; intros k Hk Hfuel; [lia |].
  cbn [RecordCli.sample_loop].
  destruct (Nat.eq_dec k t) as [-> | Hne]; [now rewrite Hsignal |].
  rewrite quiet_before by lia. cbv zeta. rewrite recorder_grows.
  replace (Z.of_nat k + 1) with (Z.of_nat (S k)) by lia.
  destruct (RecordCli.truthy limit_frames); [| apply IH; lia].
  destruct limit_frames as [n |] eqn:El; [| apply IH; lia].
  specialize (Hroom n eq_refl).
  destruct (Z.geb_spec (Z.of_nat (S k)) n) as [Hge | Hlt]; [lia | apply IH; lia].
Qed.

Lemma sample_loop_until_limit (fuel k : nat) :
  limit_frames = Some (Z.of_nat t) ->
  (k < t)%nat -> (t - k <= fuel)%nat ->
  RecordCli.sample_loop fuel limit_frames got_signal get_next k (Z.of_nat k)
    (map get_next (seq 0 k))
  = RecordCli.Saved (map get_next (seq 0 t)).
Proof.
  intros Hlimit. revert k. induction fuel as [| fuel IH]; intros k Hk Hfuel; [lia |].
  cbn [RecordCli.sample_loop].
  rewrite quiet_before by lia. cbv zeta. rewrite recorder_grows.
  replace (Z.of_nat k + 1) with (Z.of_nat (S k)) by lia.
  rewrite Hlimit. cbn [RecordCli.truthy].
  destruct (Z.eqb_spec (Z.of_nat t) 0) as [E | _]; [lia |]. cbn [negb].
  destruct (Z.geb_spec (Z.of_nat (S k)) (Z.of_nat t)) as [Hge | Hlt].
  - replace (S k) with t by lia. reflexivity.
  - rewrite <- Hlimit. apply IH; lia.
Qed.

End SampleLoop.

(** X14.  Once the arguments have passed the checks of [main], the recorder
    holds exactly the frames taken before the loop stopped, in order: with
    [--limit-frames t] and no interrupt during the first [t] rounds it holds
    the first [t] frames and never more; with an interrupt seen at the start
    of round [t], before the limit if there is one, it holds the [t] frames
    taken until then. *)
Theorem record_holds_frames_until_stop (A : Type) (ext : String.string)
  (limit_frames : option Z) (got_signal : nat -> bool) (get_next : nat -> A)
  (t fuel : nat) :
  RecordCli.check_arguments false ext limit_frames = None ->
  (forall k, (k < t)%nat -> got_signal k = false) ->
  limit_frames = Some (Z.of_nat t)
  \/ (got_signal t = true /\ forall n, limit_frames = Some n -> Z.of_nat t < n) ->
  (t < fuel)%nat ->
  RecordCli.main fuel false ext limit_frames got_signal get_next
  = RecordCli.Saved (map get_next (seq 0 t)).
Proof.
  intros Hcheck Hquiet Hstop Hfuel. unfold RecordCli.main. rewrite Hcheck.
  destruct Hstop as [Hlimit | [Hsignal Hroom]].
  - assert (Hpos : (0 < t)%nat).
    { unfold RecordCli.check_arguments in Hcheck. rewrite Hlimit in Hcheck.
      destruct (negb _); [discriminate |].
      destruct (Z.ltb_spec (Z.of_nat t) 1); [discriminate | lia]. }
    apply (@sample_loop_until_limit A limit_frames got_signal get_next t Hquiet fuel 0%nat);
      [exact Hlimit | lia | lia].
  - apply (@sample_loop_until_signal A limit_frames got_signal get_next t Hquiet fuel 0%nat);
      [exact Hsignal | exact Hroom | lia | lia].
Qed.

Lemma record_holds_frames_until_stop_witness :
  RecordCli.main 4 false (String.String (Ascii.ascii_of_nat 46)
                            (String.String (Ascii.ascii_of_nat 72)
                               (String.String (Ascii.ascii_of_nat 53) String.EmptyString)))
    (Some 3) (fun _ => false) (fun k => Z.of_nat k)
  = RecordCli.Saved (map (fun k => Z.of_nat k) (seq 0 3)).
Proof.
  apply (@record_holds_frames_until_stop Z _ (Some 3) (fun _ => false)
           (fun k => Z.of_nat k) 3 4).
  - vm_compute. reflexivity.
  - reflexivity.
  - left. reflexivity.
  - lia.
Defined.


Lemma sample_loop_bounded (A : Type) (n : Z) (got_signal : nat -> bool)
  (get_next : nat -> A) (fuel k : nat) (recorder frames : list A) :
  Z.of_nat k < n -> length recorder = k ->
  RecordCli.sample_loop fuel (Some n) got_signal get_next k (Z.of_nat k) recorder
  = RecordCli.Saved frames ->
  Z.of_nat (length frames) <= n.
Proof.
  revert k recorder. induction fuel as [| fuel IH]; intros k recorder Hk Hlen Hrun;
    [discriminate |].
  cbn [RecordCli.sample_loop] in Hrun.
  destruct (got_signal k); [injection Hrun as <-; lia |].
  cbv zeta in Hrun. cbn [RecordCli.truthy] in Hrun.
  replace (Z.of_nat k + 1) with (Z.of_nat (S k)) in Hrun by lia.
  assert (Hgrow : length (recorder ++ [get_next k]) = S k)
    by (rewrite length_app; simpl; lia).
  destruct (Z.eqb_spec n 0) as [E | _]; cbn [negb] in Hrun.
  - lia.
  - destruct (Z.geb_spec (Z.of_nat (S k)) n) as [Hge | Hlt].
    + injection Hrun as <-. rewrite Hgrow. lia.
    + apply (IH (S k) (recorder ++ [get_next k])); [lia | exact Hgrow | exact Hrun].
Qed.

(** X15.  [main] saves a record only if the output file did not exist, the
    extension is [.h5] or [.npz] up to the case of its letters, and a frame
    limit, when given, is at least 1; and whatever the interrupts, the record
    never holds more frames than the limit. *)
Theorem record_saved_only_within_limit (A : Type) (fuel : nat) (file_exists : bool)
  (ext : String.string) (limit_frames : option Z) (got_signal : nat -> bool)
  (get_next : nat -> A) (frames : list A) :
  RecordCli.main fuel file_exists ext limit_frames got_signal get_next
  = RecordCli.Saved frames ->
  file_exists = false
  /\ In (RecordCli.lower ext) RecordCli.formats
  /\ forall n, limit_frames = Some n -> 1 <= n /\ Z.of_nat (length frames) <= n.
Proof.
  unfold RecordCli.main, RecordCli.check_arguments. intros Hrun.
  destruct file_exists; [discriminate |].
  destruct (existsb (String.eqb (RecordCli.lower ext)) RecordCli.formats) eqn:Eext;
    cbn [negb] in Hrun; [| discriminate].
  split; [reflexivity |]. split.
  - apply existsb_exists in Eext. destruct Eext as [s [Hin Heq]].
    apply String.eqb_eq in Heq. now rewrite Heq.
  - intros n ->. destruct (Z.ltb_spec n 1) as [Hlt | Hge]; [discriminate |].
    split; [exact Hge |].
    apply (@sample_loop_bounded A n got_signal get_next fuel 0%nat [] frames);
      [simpl; lia | reflexivity | exact Hrun].
Qed.

Lemma record_saved_only_within_limit_witness :
  false = false
  /\ In (RecordCli.lower (String.String (Ascii.ascii_of_nat 46)
                            (String.String (Ascii.ascii_of_nat 72)
                               (String.String (Ascii.ascii_of_nat 53) String.EmptyString))))
       RecordCli.formats
  /\ forall n, Some 3 = Some n -> 1 <= n /\ Z.of_nat (length [0; 1]) <= n.
Proof.
  apply (@record_saved_only_within_limit Z 4 false _ (Some 3)
           (fun k => Nat.eqb k 2) (fun k => Z.of_nat k) [0; 1]).
  vm_compute. reflexivity.
Defined.

(** ** The first crossing and the peaks *)

(** X16.  On one sweep and one threshold curve, whenever [find_peaks] reports
    a peak, [find_first_point_above_threshold] reports a bin too, and that
    bin lies strictly before every peak: the flank of a peak is already
    above the threshold. *)
Theorem first_crossing_precedes_peaks (sweep : list Q) (thr : list level) :
  length thr = length sweep ->
  exists first peaks,
    find_first_point_above_threshold sweep (Some thr) = Ok first
    /\ find_peaks sweep (Some thr) = Ok peaks
    /\ (peaks <> [] -> first <> None)
    /\ forall i, first = Some i -> Forall (fun p => i < p) peaks.
Proof.
  intros Hlen.
  destruct (first_point_crossing sweep thr Hlen) as [first [Hfirst Hcross]].
  destruct (@find_peaks_sound sweep thr Hlen) as [peaks (Hpeaks & Hall & _)].
  exists first, peaks. split; [exact Hfirst |]. split; [exact Hpeaks |].
  assert (Hflank : forall p, is_peak sweep thr p ->
            exists j, 0 <= j < p /\ above sweep thr j).
  { intros p (d & u & Hd & Hdu & Hu & -> & _ & _ & _ & _ & Habove).
    exists (d - 1). split.
    - rewrite ceil_half_pred by lia.
      assert (0 <= (u - d) / 2) by (apply Z.div_pos; lia). lia.
    - apply Habove; lia. }
  split.
  - intros Hne ->. destruct peaks as [| p rest]; [congruence |].
    apply Forall_inv in Hall. destruct (Hflank p Hall) as [j [Hj Habove]].
    apply (Hcross j); [| exact Habove].
    pose proof (is_peak_bounds Hall). lia.
  - intros i ->. destruct Hcross as (Hi & _ & Hbefore).
    eapply Forall_impl; [| exact Hall]. intros p Hp. cbv beta.
    destruct (Hflank p Hp) as [j [Hj Habove]].
    destruct (Z_lt_le_dec j i) as [Hlt | Hge]; [| lia].
    exfalso. apply (Hbefore j); [lia | exact Habove].
Qed.

Lemma first_crossing_precedes_peaks_witness :
  exists first peaks,
    find_first_point_above_threshold [0; 900; 1000; 1000; 900; 0]%Q (Some (fixed_curve 800 6))
    = Ok first
    /\ find_peaks [0; 900; 1000; 1000; 900; 0]%Q (Some (fixed_curve 800 6)) = Ok peaks
    /\ (peaks <> [] -> first <> None)
    /\ forall i, first = Some i -> Forall (fun p => i < p) peaks.
Proof.
  apply (@first_crossing_precedes_peaks [0; 900; 1000; 1000; 900; 0]%Q (fixed_curve 800 6)).
  reflexivity.
Defined.

(** ** The time axis of a snapshot *)

Lemma process_snapshot_offsets (argsort : list Q -> list Z) (self : state) (sweep : list Q)
  (self' : state) (out : out_data) :
  process argsort self sweep = Ok (self', out) ->
  offsets_of out
  = hist_sweep_s (main_peak_hist_sweep_idx self') (sweep_index self) (f self)
    ++ hist_sweep_s (minor_peaks_hist_sweep_idx self') (sweep_index self) (f self)
    ++ hist_sweep_s (above_thres_hist_sweep_idx self') (sweep_index self) (f self).
Proof.
  unfold process.
  destruct (broadcast2 _ sweep (current_mean_sweep self)) as [mean | e |];
    cbn [bind]; try discriminate.
  destruct (determine_threshold self sweep) as [thr | e |]; cbn [bind]; try discriminate.
  destruct (Qle_bool _ _).
  - destruct (detect_and_record _ _ _ _) as [[found hist] | e |]; cbn [bind];
      try discriminate.
    intros H. injection H as <- <-. reflexivity.
  - cbn [bind]. intros H. injection H as <- <-. reflexivity.
Qed.

Lemma offsets_not_positive (now : Z) (rate : Q) (idx : list Z) :
  (0 < rate)%Q -> Forall (fun i => i < now + 1) idx ->
  Forall (fun s => (s <= 0)%Q) (hist_sweep_s idx now rate).
Proof.
  intros Hrate Hall. unfold hist_sweep_s. apply Forall_forall. intros s Hs.
  apply in_map_iff in Hs. destruct Hs as [i [<- Hi]].
  rewrite Forall_forall in Hall. specialize (Hall i Hi).
  apply Qle_shift_div_r; [exact Hrate |]. rewrite Qmult_0_l.
  change 0%Q with (inject_Z 0). rewrite <- Zle_Qle. lia.
Qed.

Lemma offsets_within_history (now : Z) (rate span : Q) (idx : list Z) :
  (0 < rate)%Q -> history_recent now (span * rate) idx ->
  Forall (fun s => (- span <= s)%Q) (hist_sweep_s idx now rate).
Proof.
  intros Hrate Hall. unfold hist_sweep_s. apply Forall_forall. intros s Hs.
  apply in_map_iff in Hs. destruct Hs as [i [<- Hi]].
  unfold history_recent in Hall. rewrite Forall_forall in Hall. specialize (Hall i Hi).
  apply Qle_shift_div_l; [exact Hrate |].
  replace (i - now) with (- (now - i)) by lia. rewrite inject_Z_opp.
  setoid_replace (- span * rate)%Q with (- (span * rate))%Q by ring.
  now apply Qopp_le_compat.
Qed.

(** X17.  With a positive update rate and histories in sweep order, no
    history point of a snapshot lies in the future (every time offset is at
    most 0 s), and in the snapshot of a call that completes a mean every
    history point lies within the last [history_length_s] seconds. *)
Theorem snapshot_offsets_in_window (argsort : list Q -> list Z) (self : state)
  (sweep : list Q) :
  argsort_spec argsort ->
  well_formed self ->
  length sweep = length (r self) ->
  histories_in_order self ->
  (0 < f self)%Q ->
  exists self' out,
    process argsort self sweep = Ok (self', out)
    /\ Forall (fun s => (s <= 0)%Q) (offsets_of out)
    /\ (emitted out = true ->
        Forall (fun s => (- history_length_s self <= s)%Q) (offsets_of out)).
Proof.
  intros Hspec Hwf Hlen Hord Hrate.
  destruct (@process_keeps_histories_in_order argsort self sweep Hspec Hwf Hlen Hord)
    as [self' [out (Hp & _ & _ & (O1 & O2 & O3) & Hrecent)]].
  destruct (@process_step argsort self sweep Hspec Hwf Hlen)
    as [self2 [out2 (Hp2 & _ & _ & _ & Hi & _)]].
  rewrite Hp in Hp2. injection Hp2 as <- <-.
  exists self', out. split; [exact Hp |].
  rewrite (process_snapshot_offsets _ _ _ Hp). rewrite Hi in O1, O2, O3.
  split.
  - repeat (apply Forall_app; split); apply offsets_not_positive;
      try assumption; [apply O1 | apply O2 | apply O3].
  - intros Hem. destruct (Hrecent Hem) as (R1 & R2 & R3).
    repeat (apply Forall_app; split); now apply offsets_within_history.
Qed.

Lemma snapshot_offsets_in_window_witness :
  exists self' out,
    process stable_argsort (aged_state 25) (repeat 0%Q 5) = Ok (self', out)
    /\ Forall (fun s => (s <= 0)%Q) (offsets_of out)
    /\ (emitted out = true ->
        Forall (fun s => (- history_length_s (aged_state 25) <= s)%Q) (offsets_of out)).
Proof.
  apply (@snapshot_offsets_in_window stable_argsort (aged_state 25) (repeat 0%Q 5)).
  - exact stable_argsort_spec.
  - unfold well_formed. cbn. repeat split. discriminate.
  - reflexivity.
  - repeat split; repeat constructor; cbn; lia.
  - reflexivity.
Defined.
